(** * Narrative-intelligence toolkit: lens classifiers, perspective
      synthesizer, narrative ledger and coherence engine.

    A shallow embedding of
      - [schemas/unified_state_bridge.ts]   (data model, ledger operations),
      - [graphs/three_universe_processor.ts] (three lens classifiers, synthesis),
      - [graphs/coherence_engine.ts]        (five scorers, gaps, trinity summary),
      - [integrations/redis_state.ts]       (in-memory Redis stand-in, session
                                             deletion)
    followed by the properties proved about them.

    Modelling conventions.
      - A JavaScript [number] is an exact rational ([Q]); integer-valued
        numbers that index or count are [Z] or [nat].  Rounding error of
        IEEE doubles, NaN and the infinities are outside the model.
      - A JavaScript string is a [string] of bytes; [toLowerCase] acts on the
        ASCII letters.
      - [new Date().toISOString()] is a parameter [now] of the operation that
        reads the clock.
      - An object used as a dictionary is a finite map of its own properties:
        a [gmap] where only lookups matter, an association list in insertion
        order where the code iterates over it.  Where a caller chooses the
        key freely ([updateCharacterArc], [updateThemeStrength]) the lookup
        also finds the members every object inherits ([inheritedProperty]).
      - Arrays, sets and the stack are unbounded, apart from the array
        length 2^32 at which the language itself throws
        ([expectedSequences]).
      - In-place mutation of a state object is explicit state passing: an
        operation takes the old state and returns the new one.
      - Record fields carry a short prefix naming their interface
        ([sb_] StoryBeat, [pos_] NarrativePosition, ...); everything else keeps
        the name it has in the source. *)

From Stdlib Require Import ZArith QArith Qround Lqa List String Ascii Bool Lia.
From Stdlib Require Import DecimalString DecimalNat.
From Stdlib Require Import Sorting.Sorted Sorting.Permutation.
From stdpp Require Import gmap strings.
Import ListNotations.

Local Open Scope string_scope.
Local Open Scope list_scope.

(* ===================================================================== *)
(** * JavaScript primitives                                                *)
(* ===================================================================== *)

(** [hay.includes(needle)] *)
Fixpoint includes (hay needle : string) : bool :=
  if String.prefix needle hay then true
  else match hay with
       | EmptyString => false
       | String _ rest => includes rest needle
       end.

Definition lower_ascii (c : ascii) : ascii :=
  let n := nat_of_ascii c in
  if (Nat.leb 65 n && Nat.leb n 90)%bool then ascii_of_nat (n + 32) else c.

(** [s.toLowerCase()] on ASCII text: the letters A-Z are the only code
    units below 128 it changes.  What it does to other code units (some
    change length) is not modelled. *)
Fixpoint toLowerCase (s : string) : string :=
  match s with
  | EmptyString => EmptyString
  | String c rest => String (lower_ascii c) (toLowerCase rest)
  end.

(** Truthiness of a string value. *)
Definition truthy (s : string) : bool := negb (String.eqb s "").

(** Truthiness of a possibly absent string property. *)
Definition truthy_opt (o : option string) : bool :=
  match o with Some s => truthy s | None => false end.

(** [o || d] for a possibly absent string property. *)
Definition or_else (o : option string) (d : string) : string :=
  match o with
  | Some s => if truthy s then s else d
  | None => d
  end.

(** [l.join(sep)] *)
Definition join (sep : string) (l : list string) : string := String.concat sep l.

(** [l.includes(x)] on an array of strings (strict equality). *)
Definition array_includes (l : list string) (x : string) : bool :=
  existsb (String.eqb x) l.

(** The property names every plain object inherits from [Object.prototype].
    A lookup [o[k]] that finds no own property [k] on a plain object [o]
    yields the inherited member when [k] is one of these names: a built-in
    function, or for [__proto__] the prototype object itself; each of them
    is truthy. *)
Definition Object_prototype_names : list string :=
  [ "constructor"; "__defineGetter__"; "__defineSetter__"; "hasOwnProperty";
    "__lookupGetter__"; "__lookupSetter__"; "isPrototypeOf";
    "propertyIsEnumerable"; "toString"; "valueOf"; "__proto__";
    "toLocaleString" ].

Definition inheritedProperty (key : string) : bool :=
  array_includes Object_prototype_names key.

(** Every code unit of the text is below 128, where [toLowerCase] maps the
    letters A-Z and nothing else. *)
Definition isAsciiText (s : string) : bool :=
  forallb (fun c => Nat.ltb (nat_of_ascii c) 128) (list_ascii_of_string s).

(** [l.some(w => hay.includes(w))] *)
Definition includes_any (hay : string) (ws : list string) : bool :=
  existsb (includes hay) ws.

(** Template-literal rendering of a non-negative integer. *)
Definition dec (n : nat) : string := NilEmpty.string_of_uint (Nat.to_uint n).

Definition Qltb (a b : Q) : bool := negb (Qle_bool b a).

(** [Math.min(a, b)], [Math.max(a, b)] *)
Definition Math_min (a b : Q) : Q := if Qle_bool a b then a else b.
Definition Math_max (a b : Q) : Q := if Qle_bool a b then b else a.

(** [Math.max(...l)], [Math.min(...l)] on a non-empty argument list. *)
Definition Math_max_list (x : Q) (l : list Q) : Q := fold_left Math_max l x.
Definition Math_min_list (x : Q) (l : list Q) : Q := fold_left Math_min l x.

(** [Math.round(x)]: nearest integer, halves towards plus infinity. *)
Definition Math_round (x : Q) : Z := Qfloor (x + (1 # 2)).

(** [Math.round(x * 100) / 100] *)
Definition round2 (x : Q) : Q := inject_Z (Math_round (x * 100)) / 100.

(** [x.toFixed(0)] *)
Definition toFixed0 (x : Q) : string :=
  if Qltb x 0
  then "-" +:+ dec (Z.to_nat (Math_round (- x)))
  else dec (Z.to_nat (Math_round x)).

(** [Math.max(0.0, Math.min(100.0, x))] *)
Definition clamp100 (x : Q) : Q := Math_max 0 (Math_min 100 x).

(** Division of two counts, [a / b]; every call site has [b > 0]. *)
Definition ratio (a b : nat) : Q := Z.of_nat a # Pos.of_nat b.

(** Sum of [l.reduce((a, b) => a + b, 0)]. *)
Definition Qsum (l : list Q) : Q := fold_left Qplus l 0%Q.

(** Association lists in insertion order (objects that are iterated). *)
Fixpoint assoc_get {V} (l : list (string * V)) (k : string) : option V :=
  match l with
  | [] => None
  | (k', v) :: r => if String.eqb k' k then Some v else assoc_get r k
  end.

(** [o[k] = v]: overwrite in place when the key exists, else append. *)
Fixpoint assoc_set {V} (l : list (string * V)) (k : string) (v : V)
  : list (string * V) :=
  match l with
  | [] => [(k, v)]
  | (k', v') :: r =>
      if String.eqb k' k then (k', v) :: r else (k', v') :: assoc_set r k v
  end.

(** [l.reduce((a, b) => a[1] > b[1] ? a : b)] on the entries of a score
    table: on equal scores the later entry wins. *)
Definition reduce_best {K} (l : list (K * Q)) : option (K * Q) :=
  match l with
  | [] => None
  | x :: r =>
      Some (fold_left (fun a b => if Qltb (snd b) (snd a) then a else b) r x)
  end.

(* ===================================================================== *)
(** * schemas/unified_state_bridge.ts: data model                          *)
(* ===================================================================== *)

Inductive Universe := ENGINEER | CEREMONY | STORY_ENGINE.

Inductive NarrativePhase :=
  PHASE_SETUP | PHASE_CONFRONTATION | PHASE_RESOLUTION.

Inductive NarrativeFunction :=
  | INCITING_INCIDENT | RISING_ACTION | TURNING_POINT | COMPLICATION
  | CRISIS | CLIMAX | RESOLUTION | DENOUEMENT | BEAT.

(** The string value of each enum member. *)
Definition NarrativeFunction_value (f : NarrativeFunction) : string :=
  match f with
  | INCITING_INCIDENT => "inciting_incident"
  | RISING_ACTION => "rising_action"
  | TURNING_POINT => "turning_point"
  | COMPLICATION => "complication"
  | CRISIS => "crisis"
  | CLIMAX => "climax"
  | RESOLUTION => "resolution"
  | DENOUEMENT => "denouement"
  | BEAT => "beat"
  end.

(** The keys of a perspective's [context] that later code reads.  The
    classifiers also store keys nobody reads back (detectedKeywords,
    contentLength, eventType, technicalScope, relationshipDepth,
    sevenGenerationRelevance, suggestedNextBeat, characterImpact,
    themeResonance, pacingSuggestion); they are left out.
    A flag is the truthiness of its key, [None] an absent key. *)
Record PerspectiveContext := {
  ctx_contributors : list string;
  ctx_isCollaborative : bool;
  ctx_senderEnergy : option string;
  ctx_witnessingNeeded : bool;
  ctx_act : option Z;
  ctx_narrativeFunction : option string;
  ctx_dramaticTension : option Q;
  ctx_estimatedComplexity : option string
}.

Definition empty_context : PerspectiveContext :=
  {| ctx_contributors := []; ctx_isCollaborative := false;
     ctx_senderEnergy := None; ctx_witnessingNeeded := false;
     ctx_act := None; ctx_narrativeFunction := None;
     ctx_dramaticTension := None; ctx_estimatedComplexity := None |}.

Record UniversePerspective := {
  up_universe : Universe;
  up_intent : string;
  up_confidence : Q;
  up_suggestedFlows : list string;
  up_context : PerspectiveContext
}.

Definition createUniversePerspective (universe : Universe) (intent : string)
    (confidence : Q) (suggestedFlows : list string)
    (context : PerspectiveContext) : UniversePerspective :=
  {| up_universe := universe; up_intent := intent;
     up_confidence := confidence; up_suggestedFlows := suggestedFlows;
     up_context := context |}.

Record ThreeUniverseAnalysis := {
  tua_engineer : UniversePerspective;
  tua_ceremony : UniversePerspective;
  tua_storyEngine : UniversePerspective;
  tua_leadUniverse : Universe;
  tua_coherenceScore : Q;
  tua_timestamp : string
}.

Definition createThreeUniverseAnalysis (engineer ceremony storyEngine
    : UniversePerspective) (leadUniverse : Universe) (coherenceScore : Q)
    (now : string) : ThreeUniverseAnalysis :=
  {| tua_engineer := engineer; tua_ceremony := ceremony;
     tua_storyEngine := storyEngine; tua_leadUniverse := leadUniverse;
     tua_coherenceScore := coherenceScore; tua_timestamp := now |}.

Record NarrativePosition := {
  pos_act : Z;
  pos_phase : NarrativePhase;
  pos_currentBeatId : option string;
  pos_beatCount : Z;
  pos_characterArcStrength : Q;
  pos_thematicResonance : Q;
  pos_emotionalTone : string;
  pos_leadUniverse : Universe
}.

Definition createNarrativePosition : NarrativePosition :=
  {| pos_act := 1; pos_phase := PHASE_SETUP; pos_currentBeatId := None;
     pos_beatCount := 0; pos_characterArcStrength := 1 # 2;
     pos_thematicResonance := 1 # 2; pos_emotionalTone := "neutral";
     pos_leadUniverse := STORY_ENGINE |}.

Record StoryBeat := {
  sb_id : string;
  sb_sequence : Z;
  sb_content : string;
  sb_narrativeFunction : NarrativeFunction;
  sb_act : Z;
  sb_universeAnalysis : option ThreeUniverseAnalysis;
  sb_leadUniverse : Universe;
  sb_emotionalTone : string;
  sb_thematicTags : list string;
  sb_characterId : option string;
  sb_characterArcImpact : Q;
  sb_source : string;
  sb_sourceEventId : option string;
  sb_timestamp : string;
  sb_enrichmentsApplied : list string;
  sb_qualityScore : Q
}.

(** [createStoryBeat] with every option left at its default. *)
Definition createStoryBeat (id : string) (sequence : Z) (content : string)
    (narrativeFunction : NarrativeFunction) (act : Z) (now : string)
  : StoryBeat :=
  {| sb_id := id; sb_sequence := sequence; sb_content := content;
     sb_narrativeFunction := narrativeFunction; sb_act := act;
     sb_universeAnalysis := None; sb_leadUniverse := STORY_ENGINE;
     sb_emotionalTone := "neutral"; sb_thematicTags := [];
     sb_characterId := None; sb_characterArcImpact := 0;
     sb_source := "generator"; sb_sourceEventId := None;
     sb_timestamp := now; sb_enrichmentsApplied := [];
     sb_qualityScore := 1 # 2 |}.

Record GrowthPoint := {
  gp_timestamp : string;
  gp_impact : Q;
  gp_description : string
}.

Record CharacterState := {
  cs_id : string;
  cs_name : string;
  cs_archetype : string;
  cs_universe : Universe;
  cs_arcPosition : Q;
  cs_initialState : string;
  cs_currentState : string;
  cs_growthPoints : list GrowthPoint;
  cs_relationships : list string
}.

Definition createCharacterState (id name archetype : string)
    (universe : Universe) (arcPosition : Q) (state : string)
  : CharacterState :=
  {| cs_id := id; cs_name := name; cs_archetype := archetype;
     cs_universe := universe; cs_arcPosition := arcPosition;
     cs_initialState := state; cs_currentState := state;
     cs_growthPoints := []; cs_relationships := [] |}.

Record ThematicThread := {
  tt_id : string;
  tt_name : string;
  tt_description : string;
  tt_strength : Q;
  tt_tensionLevel : Q;
  tt_resolutionProgress : Q;
  tt_beatIds : list string
}.

Definition createThematicThread (id name description : string) (strength : Q)
  : ThematicThread :=
  {| tt_id := id; tt_name := name; tt_description := description;
     tt_strength := strength; tt_tensionLevel := 1 # 2;
     tt_resolutionProgress := 0; tt_beatIds := [] |}.

Record RoutingDecision := {
  rd_id : string;
  rd_backend : string;
  rd_flow : string;
  rd_universeAnalysis : ThreeUniverseAnalysis;
  rd_narrativePosition : NarrativePosition;
  rd_score : Q;
  rd_method : string;
  rd_success : bool;
  rd_resultSummary : string;
  rd_latencyMs : Q;
  rd_timestamp : string
}.

Record UnifiedNarrativeState := {
  uns_storyId : string;
  uns_sessionId : string;
  uns_position : NarrativePosition;
  uns_beats : list StoryBeat;
  uns_characters : gmap string CharacterState;
  uns_themes : gmap string ThematicThread;
  uns_routingDecisions : list RoutingDecision;
  uns_currentEpisodeId : option string;
  uns_episodeBeatsCount : Z;
  uns_createdAt : string;
  uns_updatedAt : string;
  uns_overallCoherence : Q;
  uns_emotionalArcStrength : Q
}.

(* ===================================================================== *)
(** * schemas/unified_state_bridge.ts: ledger operations                   *)
(* ===================================================================== *)

Definition NarrativeFunction_eqb (a b : NarrativeFunction) : bool :=
  String.eqb (NarrativeFunction_value a) (NarrativeFunction_value b).

Definition getDefaultCharacters : gmap string CharacterState :=
  <["the-builder" := createCharacterState "the-builder" "Mia" "The Builder"
      ENGINEER 0 "Analytical, focused on structural integrity"]>
  (<["the-keeper" := createCharacterState "the-keeper" "Ava8" "The Keeper"
      CEREMONY 0 "Reverent, guardian of relational protocols"]>
  (<["the-weaver" := createCharacterState "the-weaver" "Miette" "The Weaver"
      STORY_ENGINE 0 "Playful, sees narrative patterns in chaos"]> ∅)).

Definition getDefaultThemes : gmap string ThematicThread :=
  <["integration" := createThematicThread "integration"
      "Integration Without Extraction"
      "The tension between connecting systems and respecting their autonomy"
      (1 # 2)]>
  (<["collaboration" := createThematicThread "collaboration"
      "Cross-Universe Collaboration"
      "Three perspectives learning to work together while maintaining distinction"
      (1 # 2)]>
  (<["coherence" := createThematicThread "coherence" "Narrative Coherence"
      "The gap between disconnected events and meaningful story"
      (1 # 2)]> ∅)).

(** The two option flags default to [true] when left out
    ([options.includeDefaultCharacters !== false]). *)
Definition createUnifiedNarrativeState (storyId sessionId : string)
    (includeDefaultCharacters includeDefaultThemes : bool) (now : string)
  : UnifiedNarrativeState :=
  {| uns_storyId := storyId;
     uns_sessionId := sessionId;
     uns_position := createNarrativePosition;
     uns_beats := [];
     uns_characters := if includeDefaultCharacters then getDefaultCharacters else ∅;
     uns_themes := if includeDefaultThemes then getDefaultThemes else ∅;
     uns_routingDecisions := [];
     uns_currentEpisodeId := None;
     uns_episodeBeatsCount := 0;
     uns_createdAt := now;
     uns_updatedAt := now;
     uns_overallCoherence := 1 # 2;
     uns_emotionalArcStrength := 1 # 2 |}.

(** [addBeat(state, beat)] *)
Definition addBeat (state : UnifiedNarrativeState) (beat : StoryBeat)
    (now : string) : UnifiedNarrativeState :=
  let beats := uns_beats state ++ [beat] in
  let p := uns_position state in
  let f := sb_narrativeFunction beat in
  let '(act, phase) :=
    if NarrativeFunction_eqb f INCITING_INCIDENT then (1%Z, PHASE_SETUP)
    else if (NarrativeFunction_eqb f TURNING_POINT
             || NarrativeFunction_eqb f CRISIS)%bool
    then (2%Z, PHASE_CONFRONTATION)
    else if (NarrativeFunction_eqb f CLIMAX
             || NarrativeFunction_eqb f RESOLUTION)%bool
    then (3%Z, PHASE_RESOLUTION)
    else (pos_act p, pos_phase p) in
  {| uns_storyId := uns_storyId state;
     uns_sessionId := uns_sessionId state;
     uns_position :=
       {| pos_act := act;
          pos_phase := phase;
          pos_currentBeatId := Some (sb_id beat);
          pos_beatCount := Z.of_nat (length beats);
          pos_characterArcStrength := pos_characterArcStrength p;
          pos_thematicResonance := pos_thematicResonance p;
          pos_emotionalTone := pos_emotionalTone p;
          pos_leadUniverse := sb_leadUniverse beat |};
     uns_beats := beats;
     uns_characters := uns_characters state;
     uns_themes := uns_themes state;
     uns_routingDecisions := uns_routingDecisions state;
     uns_currentEpisodeId := uns_currentEpisodeId state;
     uns_episodeBeatsCount := uns_episodeBeatsCount state + 1;
     uns_createdAt := uns_createdAt state;
     uns_updatedAt := now;
     uns_overallCoherence := uns_overallCoherence state;
     uns_emotionalArcStrength := uns_emotionalArcStrength state |}.

Definition with_characters (state : UnifiedNarrativeState)
    (characters : gmap string CharacterState) (now : string)
  : UnifiedNarrativeState :=
  {| uns_storyId := uns_storyId state;
     uns_sessionId := uns_sessionId state;
     uns_position := uns_position state;
     uns_beats := uns_beats state;
     uns_characters := characters;
     uns_themes := uns_themes state;
     uns_routingDecisions := uns_routingDecisions state;
     uns_currentEpisodeId := uns_currentEpisodeId state;
     uns_episodeBeatsCount := uns_episodeBeatsCount state;
     uns_createdAt := uns_createdAt state;
     uns_updatedAt := now;
     uns_overallCoherence := uns_overallCoherence state;
     uns_emotionalArcStrength := uns_emotionalArcStrength state |}.

Definition with_themes (state : UnifiedNarrativeState)
    (themes : gmap string ThematicThread) (now : string)
  : UnifiedNarrativeState :=
  {| uns_storyId := uns_storyId state;
     uns_sessionId := uns_sessionId state;
     uns_position := uns_position state;
     uns_beats := uns_beats state;
     uns_characters := uns_characters state;
     uns_themes := themes;
     uns_routingDecisions := uns_routingDecisions state;
     uns_currentEpisodeId := uns_currentEpisodeId state;
     uns_episodeBeatsCount := uns_episodeBeatsCount state;
     uns_createdAt := uns_createdAt state;
     uns_updatedAt := now;
     uns_overallCoherence := uns_overallCoherence state;
     uns_emotionalArcStrength := uns_emotionalArcStrength state |}.

(** [updateCharacterArc(state, characterId, impact, description)].  The two
    clock reads of one call are the same instant [now].  [state.characters]
    is a plain object: an id that is no own key but names a member inherited
    from [Object.prototype] finds that built-in object.  The arc position is
    then written onto the built-in object, not onto the ledger, and
    [character.growthPoints.push] throws a TypeError ([inr]) before
    [updatedAt] is touched, so the ledger is as it was. *)
Definition updateCharacterArc (state : UnifiedNarrativeState)
    (characterId : string) (impact : Q) (description : string) (now : string)
  : UnifiedNarrativeState + string :=
  match uns_characters state !! characterId with
  | Some character =>
      let character' :=
        {| cs_id := cs_id character;
           cs_name := cs_name character;
           cs_archetype := cs_archetype character;
           cs_universe := cs_universe character;
           cs_arcPosition := Math_min 1 (cs_arcPosition character + impact);
           cs_initialState := cs_initialState character;
           cs_currentState := cs_currentState character;
           cs_growthPoints :=
             cs_growthPoints character ++
             [{| gp_timestamp := now; gp_impact := impact;
                 gp_description := description |}];
           cs_relationships := cs_relationships character |} in
      inl (with_characters state
             (<[characterId := character']> (uns_characters state)) now)
  | None =>
      if inheritedProperty characterId
      then inr "TypeError: Cannot read properties of undefined (reading 'push')"
      else inl state
  end.

(** [updateThemeStrength(state, themeId, strengthDelta)].  For an id that is
    no own key of [state.themes] but names an inherited member, the strength
    is written onto the built-in object and the ledger's [updatedAt] is
    rewritten; the themes of the ledger are untouched. *)
Definition updateThemeStrength (state : UnifiedNarrativeState)
    (themeId : string) (strengthDelta : Q) (now : string)
  : UnifiedNarrativeState :=
  match uns_themes state !! themeId with
  | Some theme =>
      let theme' :=
        {| tt_id := tt_id theme;
           tt_name := tt_name theme;
           tt_description := tt_description theme;
           tt_strength :=
             Math_max 0 (Math_min 1 (tt_strength theme + strengthDelta));
           tt_tensionLevel := tt_tensionLevel theme;
           tt_resolutionProgress := tt_resolutionProgress theme;
           tt_beatIds := tt_beatIds theme |} in
      with_themes state (<[themeId := theme']> (uns_themes state)) now
  | None =>
      if inheritedProperty themeId
      then with_themes state (uns_themes state) now
      else state
  end.

(** A call of one of the two clamped update operations, and a run of such
    calls on a ledger. *)
Inductive UpdateCall :=
  | CallUpdateCharacterArc (characterId : string) (impact : Q)
      (description : string) (now : string)
  | CallUpdateThemeStrength (themeId : string) (strengthDelta : Q)
      (now : string).

(** The ledger as a call leaves it: the one it returns, or the ledger it was
    given when the call throws. *)
Definition ledgerAfter (state : UnifiedNarrativeState)
    (r : UnifiedNarrativeState + string) : UnifiedNarrativeState :=
  match r with
  | inl state' => state'
  | inr _ => state
  end.

Definition run_call (state : UnifiedNarrativeState) (c : UpdateCall)
  : UnifiedNarrativeState :=
  match c with
  | CallUpdateCharacterArc id impact description now =>
      ledgerAfter state (updateCharacterArc state id impact description now)
  | CallUpdateThemeStrength id delta now =>
      updateThemeStrength state id delta now
  end.

(** The ledger after a run of calls, each one made whether or not an earlier
    one threw. *)
Definition run_calls (state : UnifiedNarrativeState) (cs : list UpdateCall)
  : UnifiedNarrativeState :=
  fold_left run_call cs state.

(* ===================================================================== *)
(** * graphs/three_universe_processor.ts                                   *)
(* ===================================================================== *)

(** The event envelope ([Record<string, unknown>]) with the properties the
    processor inspects. *)
Record Commit := {
  commit_message : option string;
  commit_author_name : option string
}.

Record IssueLike := {
  il_title : option string;
  il_body : option string;
  il_user_login : option string
}.

Record Comment := {
  comment_body : option string
}.

Record Payload := {
  pl_commits : option (list Commit);
  pl_issue : option IssueLike;
  pl_pull_request : option IssueLike;
  pl_comment : option Comment
}.

Record Event := {
  ev_sender : option string;
  ev_content : option string;
  ev_payload : option Payload
}.

Record ThreeUniverseState := {
  tus_event : Event;
  tus_eventType : string;
  tus_engineerPerspective : option UniversePerspective;
  tus_ceremonyPerspective : option UniversePerspective;
  tus_storyEnginePerspective : option UniversePerspective;
  tus_analysis : option ThreeUniverseAnalysis;
  tus_leadUniverse : option Universe;
  tus_coherenceScore : option Q;
  tus_error : option string
}.

Definition engineerIntentKeywords : list (string * list string) :=
  [ ("feature_implementation",
      ["feat:"; "feature"; "add"; "implement"; "create"; "new"]);
    ("bug_fix", ["fix:"; "bug"; "hotfix"; "patch"; "resolve"; "correct"]);
    ("refactor", ["refactor"; "refact:"; "cleanup"; "restructure"; "reorganize"]);
    ("documentation", ["docs:"; "doc:"; "documentation"; "readme"; "comment"]);
    ("testing", ["test:"; "tests:"; "testing"; "spec"; "coverage"]);
    ("dependency", ["deps:"; "dependency"; "upgrade"; "update"; "bump"]);
    ("configuration", ["config:"; "configure"; "settings"; "env"]);
    ("performance", ["perf:"; "performance"; "optimize"; "speed"; "cache"]);
    ("security", ["security"; "sec:"; "vulnerability"; "auth"; "permission"]);
    ("ci_cd", ["ci:"; "cd:"; "pipeline"; "workflow"; "build"]) ].

Definition ceremonyIntentKeywords : list (string * list string) :=
  [ ("co_creation", ["we"; "together"; "team"; "pair"; "collaborate"; "co-author"]);
    ("gratitude_expression",
      ["thanks"; "thank you"; "grateful"; "appreciate"; "credit"]);
    ("witnessing", ["witness"; "observe"; "acknowledge"; "see"; "recognize"]);
    ("sacred_pause", ["pause"; "reflect"; "consider"; "contemplate"; "breathe"]);
    ("relationship_building",
      ["connect"; "relationship"; "community"; "support"]);
    ("healing", ["heal"; "restore"; "repair"; "reconcile"; "mend"]);
    ("celebration",
      ["celebrate"; "milestone"; "achievement"; "success"; "complete"]);
    ("offering", ["offer"; "gift"; "contribute"; "share"; "give"]) ].

Definition storyEngineIntentKeywords : list (string * list string) :=
  [ ("inciting_incident", ["init"; "start"; "begin"; "new"; "first"; "introduce"]);
    ("rising_action",
      ["add"; "implement"; "build"; "develop"; "progress"; "continue"]);
    ("turning_point",
      ["feat:"; "major"; "significant"; "pivot"; "change"; "transform"]);
    ("complication",
      ["issue"; "problem"; "bug"; "error"; "conflict"; "challenge"]);
    ("crisis", ["critical"; "urgent"; "breaking"; "emergency"; "blocker"]);
    ("climax", ["complete"; "finish"; "final"; "release"; "launch"; "deploy"]);
    ("resolution", ["fix"; "resolve"; "close"; "merge"; "done"]);
    ("denouement", ["cleanup"; "refactor"; "optimize"; "polish"; "improve"]) ].

(** The loop that fills [intentScores]: for every table entry the number of
    its terms found in the text, kept (divided by the number of terms) only
    when positive.  [norm] is what the loop applies to a term before the
    search ([toLowerCase] in the Engineer lens, nothing in the other two). *)
Definition scoreIntents (norm : string -> string)
    (keywords : list (string * list string)) (contentLower : string)
  : list (string * Q) :=
  flat_map
    (fun '(intent, terms) =>
       let score :=
         length (List.filter (fun term => includes contentLower (norm term)) terms) in
       if Nat.ltb 0 score then [(intent, ratio score (length terms))] else [])
    keywords.

(** [intentScores[intent]] for an intent taken from the table's own keys. *)
Definition scoreOf (intentScores : list (string * Q)) (intent : string) : Q :=
  match assoc_get intentScores intent with
  | Some v => v
  | None => 0
  end.

(** The branch that picks the primary intent and its confidence. *)
Definition primaryIntent (intentScores : list (string * Q))
    (base : Q) (fallbackIntent : string) (fallbackConfidence : Q)
  : string * Q :=
  match reduce_best intentScores with
  | Some (intent, _) =>
      (intent, Math_min (95 # 100) (base + scoreOf intentScores intent * (4 # 10)))
  | None => (fallbackIntent, fallbackConfidence)
  end.

Definition flowsFor (flowMap : list (string * list string)) (intent : string)
    (fallback : list string) : list string :=
  match assoc_get flowMap intent with
  | Some flows => flows
  | None => fallback
  end.

Definition engineerContent (event : Event) : string :=
  match ev_payload event with
  | Some payload =>
      match pl_commits payload with
      | Some commits =>
          join " " (map (fun c => or_else (commit_message c) "") commits)
      | None =>
          match pl_issue payload with
          | Some issue =>
              or_else (il_title issue) "" +:+ " " +:+ or_else (il_body issue) ""
          | None =>
              match pl_pull_request payload with
              | Some pr =>
                  or_else (il_title pr) "" +:+ " " +:+ or_else (il_body pr) ""
              | None => ""
              end
          end
      end
  | None => or_else (ev_content event) ""
  end.

Definition estimateComplexity (content : string) (event : Event) : string :=
  let commitCount :=
    match ev_payload event with
    | Some payload =>
        match pl_commits payload with
        | Some commits => Some (length commits)
        | None => None
        end
    | None => None
    end in
  match commitCount with
  | Some n =>
      if Nat.ltb 5 n then "high"
      else if Nat.ltb 2 n then "medium"
      else if Nat.ltb 500 (String.length content) then "high"
      else if Nat.ltb 100 (String.length content) then "medium"
      else "low"
  | None =>
      if Nat.ltb 500 (String.length content) then "high"
      else if Nat.ltb 100 (String.length content) then "medium"
      else "low"
  end.

Definition engineerFlowMap : list (string * list string) :=
  [ ("feature_implementation",
      ["code_review"; "integration_test"; "documentation_update"]);
    ("bug_fix", ["regression_test"; "root_cause_analysis"; "changelog_update"]);
    ("refactor", ["architecture_review"; "performance_test"; "code_quality"]);
    ("documentation", ["doc_review"; "example_validation"]);
    ("testing", ["coverage_analysis"; "test_quality_review"]);
    ("dependency", ["security_scan"; "compatibility_test"]);
    ("configuration", ["validation_test"; "rollback_plan"]);
    ("performance", ["benchmark"; "profiling"; "optimization_review"]);
    ("security", ["security_audit"; "penetration_test"; "credential_scan"]);
    ("ci_cd", ["pipeline_validation"; "deployment_test"]);
    ("maintenance", ["standard_ci"]) ].

Definition with_engineer (state : ThreeUniverseState)
    (p : UniversePerspective) : ThreeUniverseState :=
  {| tus_event := tus_event state; tus_eventType := tus_eventType state;
     tus_engineerPerspective := Some p;
     tus_ceremonyPerspective := tus_ceremonyPerspective state;
     tus_storyEnginePerspective := tus_storyEnginePerspective state;
     tus_analysis := tus_analysis state;
     tus_leadUniverse := tus_leadUniverse state;
     tus_coherenceScore := tus_coherenceScore state;
     tus_error := tus_error state |}.

Definition with_ceremony (state : ThreeUniverseState)
    (p : UniversePerspective) : ThreeUniverseState :=
  {| tus_event := tus_event state; tus_eventType := tus_eventType state;
     tus_engineerPerspective := tus_engineerPerspective state;
     tus_ceremonyPerspective := Some p;
     tus_storyEnginePerspective := tus_storyEnginePerspective state;
     tus_analysis := tus_analysis state;
     tus_leadUniverse := tus_leadUniverse state;
     tus_coherenceScore := tus_coherenceScore state;
     tus_error := tus_error state |}.

Definition with_storyEngine (state : ThreeUniverseState)
    (p : UniversePerspective) : ThreeUniverseState :=
  {| tus_event := tus_event state; tus_eventType := tus_eventType state;
     tus_engineerPerspective := tus_engineerPerspective state;
     tus_ceremonyPerspective := tus_ceremonyPerspective state;
     tus_storyEnginePerspective := Some p;
     tus_analysis := tus_analysis state;
     tus_leadUniverse := tus_leadUniverse state;
     tus_coherenceScore := tus_coherenceScore state;
     tus_error := tus_error state |}.

(** Mia's perspective (Engineer lens). *)
Definition analyzeEngineerPerspective (state : ThreeUniverseState)
  : ThreeUniverseState :=
  let event := tus_event state in
  let content := engineerContent event in
  let contentLower := toLowerCase content in
  let intentScores := scoreIntents toLowerCase engineerIntentKeywords contentLower in
  let '(intent, confidence) :=
    primaryIntent intentScores (6 # 10) "maintenance" (5 # 10) in
  let suggestedFlows := flowsFor engineerFlowMap intent ["standard_ci"] in
  let context :=
    {| ctx_contributors := []; ctx_isCollaborative := false;
       ctx_senderEnergy := None; ctx_witnessingNeeded := false;
       ctx_act := None; ctx_narrativeFunction := None;
       ctx_dramaticTension := None;
       ctx_estimatedComplexity := Some (estimateComplexity content event) |} in
  with_engineer state
    (createUniversePerspective ENGINEER intent confidence suggestedFlows context).

Definition push_new (contributors : list string) (name : option string)
  : list string :=
  match name with
  | Some n =>
      if (truthy n && negb (array_includes contributors n))%bool
      then contributors ++ [n] else contributors
  | None => contributors
  end.

Definition extractContributors (event : Event) : list string :=
  let c0 :=
    match ev_sender event with
    | Some s => if truthy s then [s] else []
    | None => []
    end in
  let c3 :=
    match ev_payload event with
    | Some payload =>
        let c1 :=
          match pl_commits payload with
          | Some commits =>
              fold_left (fun acc commit => push_new acc (commit_author_name commit))
                        commits c0
          | None => c0
          end in
        let c2 :=
          match pl_issue payload with
          | Some issue => push_new c1 (il_user_login issue)
          | None => c1
          end in
        match pl_pull_request payload with
        | Some pr => push_new c2 (il_user_login pr)
        | None => c2
        end
    | None => c0
    end in
  if Nat.ltb 0 (length c3) then c3 else ["unknown"].

Definition extractContent (event : Event) : string :=
  if truthy_opt (ev_content event) then or_else (ev_content event) ""
  else
    match ev_payload event with
    | Some payload =>
        let p1 :=
          match pl_commits payload with
          | Some commits => map (fun c => or_else (commit_message c) "") commits
          | None => []
          end in
        let p2 :=
          match pl_issue payload with
          | Some issue => [or_else (il_title issue) ""; or_else (il_body issue) ""]
          | None => []
          end in
        let p3 :=
          match pl_pull_request payload with
          | Some pr => [or_else (il_title pr) ""; or_else (il_body pr) ""]
          | None => []
          end in
        let p4 :=
          match pl_comment payload with
          | Some comment => [or_else (comment_body comment) ""]
          | None => []
          end in
        join " " (List.filter truthy (p1 ++ p2 ++ p3 ++ p4))
    | None => ""
    end.

Definition assessEnergy (content : string) : string :=
  let contentLower := toLowerCase content in
  if includes_any contentLower ["urgent"; "critical"; "asap"; "emergency"]
  then "urgent_flow"
  else if includes_any contentLower ["excited"; "happy"; "great"; "awesome"]
  then "joyful_flow"
  else if includes_any contentLower ["stuck"; "blocked"; "help"; "issue"]
  then "seeking_support"
  else if includes_any contentLower ["thoughtful"; "consider"; "reflect"]
  then "contemplative_flow"
  else "steady_flow".

Definition needsWitnessing (content : string) : bool :=
  let contentLower := toLowerCase content in
  if includes_any contentLower ["first"; "new"; "trying"; "learning"; "help"]
  then true
  else if includes_any contentLower ["complete"; "achieve"; "milestone"; "done"]
  then true
  else false.

Definition ceremonyFlowMap : list (string * list string) :=
  [ ("co_creation",
      ["witness_collaboration"; "honor_contributions"; "amplify_voices"]);
    ("gratitude_expression",
      ["amplify_acknowledgment"; "record_connection"; "reciprocity_check"]);
    ("witnessing", ["hold_space"; "reflect_back"; "presence"]);
    ("sacred_pause",
      ["create_silence"; "contemplation_prompt"; "breathing_space"]);
    ("relationship_building",
      ["map_connections"; "strengthen_ties"; "introduce_support"]);
    ("healing", ["compassion_response"; "restoration_path"; "forgiveness_space"]);
    ("celebration",
      ["amplify_joy"; "community_acknowledgment"; "gratitude_circle"]);
    ("offering", ["receive_gracefully"; "honor_gift"; "share_forward"]);
    ("individual_offering",
      ["witness_work"; "hold_space"; "gentle_acknowledgment"]) ].

(** Ava8's perspective (Ceremony lens). *)
Definition analyzeCeremonyPerspective (state : ThreeUniverseState)
  : ThreeUniverseState :=
  let event := tus_event state in
  let contributors := extractContributors event in
  let content := extractContent event in
  let contentLower := toLowerCase content in
  let scores0 := scoreIntents (fun t => t) ceremonyIntentKeywords contentLower in
  let intentScores :=
    if Nat.ltb 1 (length contributors)
    then assoc_set scores0 "co_creation"
           (scoreOf scores0 "co_creation" + (5 # 10))%Q
    else scores0 in
  let '(intent, confidence) :=
    primaryIntent intentScores (5 # 10) "individual_offering" (6 # 10) in
  let suggestedFlows :=
    flowsFor ceremonyFlowMap intent ["witness_work"; "hold_space"] in
  let context :=
    {| ctx_contributors := contributors;
       ctx_isCollaborative := Nat.ltb 1 (length contributors);
       ctx_senderEnergy := Some (assessEnergy content);
       ctx_witnessingNeeded := needsWitnessing content;
       ctx_act := None; ctx_narrativeFunction := None;
       ctx_dramaticTension := None;
       ctx_estimatedComplexity := None |} in
  with_ceremony state
    (createUniversePerspective CEREMONY intent confidence suggestedFlows context).

Definition baseTension : list (string * Q) :=
  [ ("inciting_incident", 4 # 10); ("rising_action", 5 # 10);
    ("turning_point", 7 # 10); ("complication", 6 # 10);
    ("crisis", 9 # 10); ("climax", 1); ("resolution", 4 # 10);
    ("denouement", 2 # 10) ]%Q.

(** [calculateDramaticTension(intent, content)].  The lookup
    [baseTension[intent]] is that of the table's own keys: the caller passes
    a key of the keyword table or "rising_action", never the name of a
    member the table inherits from [Object.prototype] (see
    [inheritedProperty]), for which the result is no number. *)
Definition calculateDramaticTension (intent content : string) : Q :=
  let t0 := match assoc_get baseTension intent with
            | Some t => t
            | None => (5 # 10)%Q
            end in
  let contentLower := toLowerCase content in
  let t1 := if includes_any contentLower ["urgent"; "critical"; "breaking"]
            then Math_min 1 (t0 + (2 # 10)) else t0 in
  let t2 := if includes_any contentLower ["minor"; "small"; "trivial"]
            then Math_max (1 # 10) (t1 - (2 # 10)) else t1 in
  round2 t2.

Definition actMap : list (string * Z) :=
  [ ("inciting_incident", 1); ("rising_action", 2); ("turning_point", 2);
    ("complication", 2); ("crisis", 2); ("climax", 3); ("resolution", 3);
    ("denouement", 3) ]%Z.

Definition functionMap : list (string * string) :=
  [ ("inciting_incident", "inciting_incident");
    ("rising_action", "rising_action"); ("turning_point", "turning_point");
    ("complication", "complication"); ("crisis", "crisis");
    ("climax", "climax"); ("resolution", "resolution");
    ("denouement", "denouement") ].

Definition storyFlowMap : list (string * list string) :=
  [ ("inciting_incident",
      ["establish_stakes"; "introduce_characters"; "set_tone"]);
    ("rising_action",
      ["advance_narrative"; "develop_characters"; "build_tension"]);
    ("turning_point", ["mark_pivot"; "shift_perspective"; "update_arc"]);
    ("complication", ["deepen_conflict"; "raise_stakes"; "add_obstacle"]);
    ("crisis", ["peak_tension"; "force_decision"; "approach_climax"]);
    ("climax",
      ["resolve_main_conflict"; "character_transformation"; "theme_revelation"]);
    ("resolution", ["tie_loose_ends"; "show_consequences"; "new_equilibrium"]);
    ("denouement", ["reflect_journey"; "hint_future"; "final_image"]) ].

(** Miette's perspective (Story-Engine lens). *)
Definition analyzeStoryEnginePerspective (state : ThreeUniverseState)
  : ThreeUniverseState :=
  let event := tus_event state in
  let content := extractContent event in
  let contentLower := toLowerCase content in
  let intentScores :=
    scoreIntents (fun t => t) storyEngineIntentKeywords contentLower in
  let '(intent, confidence) :=
    primaryIntent intentScores (55 # 100) "rising_action" (5 # 10) in
  let act := match assoc_get actMap intent with
             | Some a => a
             | None => 2%Z
             end in
  let narrativeFunction := match assoc_get functionMap intent with
                           | Some f => f
                           | None => "beat"
                           end in
  let suggestedFlows :=
    flowsFor storyFlowMap intent ["advance_narrative"; "update_arc_position"] in
  let dramaticTension := calculateDramaticTension intent content in
  let context :=
    {| ctx_contributors := []; ctx_isCollaborative := false;
       ctx_senderEnergy := None; ctx_witnessingNeeded := false;
       ctx_act := Some act;
       ctx_narrativeFunction := Some narrativeFunction;
       ctx_dramaticTension := Some dramaticTension;
       ctx_estimatedComplexity := None |} in
  with_storyEngine state
    (createUniversePerspective STORY_ENGINE intent confidence suggestedFlows
       context).

(** [(ctx.dramaticTension as number) > bound]; an absent key compares false. *)
Definition tensionAbove (ctx : PerspectiveContext) (bound : Q) : bool :=
  match ctx_dramaticTension ctx with
  | Some t => Qltb bound t
  | None => false
  end.

Definition opt_is (o : option string) (s : string) : bool :=
  match o with
  | Some v => String.eqb v s
  | None => false
  end.

Definition determineLeadUniverse
    (engineer ceremony storyEngine : UniversePerspective) : Universe :=
  let ceremonyContext := up_context ceremony in
  if ctx_witnessingNeeded ceremonyContext then CEREMONY
  else if ctx_isCollaborative ceremonyContext then CEREMONY
  else
    let storyContext := up_context storyEngine in
    if tensionAbove storyContext (8 # 10) then STORY_ENGINE
    else if (opt_is (ctx_narrativeFunction storyContext) "climax"
             || opt_is (ctx_narrativeFunction storyContext) "turning_point")%bool
    then STORY_ENGINE
    else
      let engineerContext := up_context engineer in
      if opt_is (ctx_estimatedComplexity engineerContext) "high" then ENGINEER
      else if (String.eqb (up_intent engineer) "security"
               || String.eqb (up_intent engineer) "bug_fix")%bool
      then ENGINEER
      else
        let perspectives :=
          [ (engineer, ENGINEER); (ceremony, CEREMONY);
            (storyEngine, STORY_ENGINE) ] in
        snd (fold_left
               (fun a b =>
                  if Qltb (up_confidence (fst b)) (up_confidence (fst a))
                  then a else b)
               (tl perspectives) (engineer, ENGINEER)).

(** The synthesizer's [calculateCoherence]. *)
Definition calculateCoherence
    (engineer ceremony storyEngine : UniversePerspective) : Q :=
  let avgConfidence :=
    ((up_confidence engineer + up_confidence ceremony
      + up_confidence storyEngine) / 3)%Q in
  let engineerUrgent :=
    array_includes ["security"; "bug_fix"; "performance"] (up_intent engineer) in
  let ceremonyUrgent :=
    opt_is (ctx_senderEnergy (up_context ceremony)) "urgent_flow" in
  let storyUrgent := tensionAbove (up_context storyEngine) (7 # 10) in
  let bonus :=
    if Nat.leb 2 (length (List.filter (fun b : bool => b)
                            [engineerUrgent; ceremonyUrgent; storyUrgent]))
    then (1 # 10)%Q else 0%Q in
  let confidences :=
    [up_confidence engineer; up_confidence ceremony; up_confidence storyEngine] in
  let confidenceSpread :=
    (Math_max_list (up_confidence engineer) (tl confidences)
     - Math_min_list (up_confidence engineer) (tl confidences))%Q in
  let penalty := (confidenceSpread * (2 # 10))%Q in
  let coherence := (avgConfidence + bonus - penalty)%Q in
  round2 (Math_max 0 (Math_min 1 coherence)).

Definition missingPerspectives : string := "Missing one or more perspectives".

Definition synthesizePerspectives (state : ThreeUniverseState) (now : string)
  : ThreeUniverseState :=
  match tus_engineerPerspective state, tus_ceremonyPerspective state,
        tus_storyEnginePerspective state with
  | Some engineer, Some ceremony, Some storyEngine =>
      let lead := determineLeadUniverse engineer ceremony storyEngine in
      let coherence := calculateCoherence engineer ceremony storyEngine in
      let analysis :=
        createThreeUniverseAnalysis engineer ceremony storyEngine lead
          coherence now in
      {| tus_event := tus_event state; tus_eventType := tus_eventType state;
         tus_engineerPerspective := tus_engineerPerspective state;
         tus_ceremonyPerspective := tus_ceremonyPerspective state;
         tus_storyEnginePerspective := tus_storyEnginePerspective state;
         tus_analysis := Some analysis;
         tus_leadUniverse := Some lead;
         tus_coherenceScore := Some coherence;
         tus_error := tus_error state |}
  | _, _, _ =>
      {| tus_event := tus_event state; tus_eventType := tus_eventType state;
         tus_engineerPerspective := tus_engineerPerspective state;
         tus_ceremonyPerspective := tus_ceremonyPerspective state;
         tus_storyEnginePerspective := tus_storyEnginePerspective state;
         tus_analysis := tus_analysis state;
         tus_leadUniverse := tus_leadUniverse state;
         tus_coherenceScore := tus_coherenceScore state;
         tus_error := Some missingPerspectives |}
  end.

(** [ThreeUniverseProcessor.process]: [inr msg] is the thrown
    [Error("Processing error: " + msg)].  The tracing callback is not
    modelled. *)
Definition process (event : Event) (eventType : string) (now : string)
  : ThreeUniverseAnalysis + string :=
  let state0 :=
    {| tus_event := event; tus_eventType := eventType;
       tus_engineerPerspective := None; tus_ceremonyPerspective := None;
       tus_storyEnginePerspective := None; tus_analysis := None;
       tus_leadUniverse := None; tus_coherenceScore := None;
       tus_error := None |} in
  let state1 := analyzeEngineerPerspective state0 in
  let state2 := analyzeCeremonyPerspective state1 in
  let state3 := analyzeStoryEnginePerspective state2 in
  let state4 := synthesizePerspectives state3 now in
  if truthy_opt (tus_error state4)
  then inr ("Processing error: " +:+ or_else (tus_error state4) "")
  else
    match tus_analysis state4 with
    | Some analysis => inl analysis
    | None => inr "undefined analysis"
    end.

(* ===================================================================== *)
(** * graphs/coherence_engine.ts                                           *)
(* ===================================================================== *)

Inductive GapType := STRUCTURAL | THEMATIC | CHARACTER | SENSORY | CONTINUITY.

Inductive GapSeverity := CRITICAL | MODERATE | MINOR.

Inductive RoutingTarget := STORYTELLER | STRUCTURIST | ARCHITECT | AUTHOR.

(** ["good" | "warning" | "critical"] *)
Inductive ComponentStatus := status_good | status_warning | status_critical.

(** The keys of [CoherenceEngineState] that hold a component score. *)
Inductive ComponentKey :=
  | narrativeFlowScore | characterConsistencyScore | pacingScore
  | themeSaturationScore | continuityScore.

Record Gap := {
  gap_id : string;
  gap_gapType : GapType;
  gap_severity : GapSeverity;
  gap_description : string;
  gap_location : option ComponentKey;   (* [{ component: key }] or [{}] *)
  gap_suggestedRoute : RoutingTarget;
  gap_resolved : bool;
  gap_resolution : option string
}.

Definition createGap (id : string) (gapType : GapType) (severity : GapSeverity)
    (description : string) (suggestedRoute : RoutingTarget)
    (location : option ComponentKey) : Gap :=
  {| gap_id := id; gap_gapType := gapType; gap_severity := severity;
     gap_description := description; gap_location := location;
     gap_suggestedRoute := suggestedRoute; gap_resolved := false;
     gap_resolution := None |}.

Record ComponentScore := {
  comp_score : Q;
  comp_status : ComponentStatus;
  comp_issues : list string;
  comp_suggestions : list string
}.

Definition createComponentScore (score : Q) (status : ComponentStatus)
    (issues suggestions : list string) : ComponentScore :=
  {| comp_score := score; comp_status := status; comp_issues := issues;
     comp_suggestions := suggestions |}.

Record CoherenceScore := {
  coh_overall : Q;
  coh_narrativeFlow : ComponentScore;
  coh_characterConsistency : ComponentScore;
  coh_pacing : ComponentScore;
  coh_themeSaturation : ComponentScore;
  coh_continuity : ComponentScore;
  coh_analyzedAt : string
}.

Record TrinityAssessment := {
  ta_mia : string;
  ta_miette : string;
  ta_ava8 : string;
  ta_priorities : list string
}.

Record CoherenceEngineState := {
  ces_beats : list StoryBeat;
  ces_characters : list CharacterState;
  ces_themes : list ThematicThread;
  ces_narrativeFlowScore : option ComponentScore;
  ces_characterConsistencyScore : option ComponentScore;
  ces_pacingScore : option ComponentScore;
  ces_themeSaturationScore : option ComponentScore;
  ces_continuityScore : option ComponentScore;
  ces_overallScore : option Q;
  ces_gaps : option (list Gap);
  ces_trinityAssessment : option TrinityAssessment;
  ces_coherenceScore : option CoherenceScore
}.

Record CoherenceResult := {
  cr_coherenceScore : CoherenceScore;
  cr_gaps : list Gap;
  cr_trinityAssessment : TrinityAssessment
}.

(** The instance fields of [NarrativeCoherenceEngine]. *)
Record NarrativeCoherenceEngine := {
  strictMode : bool;
  gapCounter : nat
}.

Definition newEngine (strict : bool) : NarrativeCoherenceEngine :=
  {| strictMode := strict; gapCounter := 0 |}.

Definition generateGapId (engine : NarrativeCoherenceEngine)
  : string * NarrativeCoherenceEngine :=
  let engine' :=
    {| strictMode := strictMode engine; gapCounter := gapCounter engine + 1 |} in
  ("gap_" +:+ dec (gapCounter engine'), engine').

(** The "Determine status" step shared by the five scorers. *)
Definition statusOf (score : Q) : ComponentStatus :=
  if Qle_bool 70 score then status_good
  else if Qle_bool 50 score then status_warning
  else status_critical.

(** [issues.filter(i => i.includes(word)).length] *)
Definition countIssues (issues : list string) (word : string) : nat :=
  length (List.filter (fun i => includes i word) issues).

(** [Array.prototype.sort] with a comparator, as a stable insertion sort;
    [le a b] is [compare(a, b) <= 0]. *)
Fixpoint sort_insert {A} (le : A -> A -> bool) (x : A) (l : list A) : list A :=
  match l with
  | [] => [x]
  | y :: r => if le x y then x :: y :: r else y :: sort_insert le x r
  end.

Definition js_sort {A} (le : A -> A -> bool) (l : list A) : list A :=
  fold_right (sort_insert le) [] l.

Definition set_state_score (state : CoherenceEngineState) (key : ComponentKey)
    (c : ComponentScore) : CoherenceEngineState :=
  let pick k old := match key, k with
                    | narrativeFlowScore, narrativeFlowScore
                    | characterConsistencyScore, characterConsistencyScore
                    | pacingScore, pacingScore
                    | themeSaturationScore, themeSaturationScore
                    | continuityScore, continuityScore => Some c
                    | _, _ => old
                    end in
  {| ces_beats := ces_beats state;
     ces_characters := ces_characters state;
     ces_themes := ces_themes state;
     ces_narrativeFlowScore :=
       pick narrativeFlowScore (ces_narrativeFlowScore state);
     ces_characterConsistencyScore :=
       pick characterConsistencyScore (ces_characterConsistencyScore state);
     ces_pacingScore := pick pacingScore (ces_pacingScore state);
     ces_themeSaturationScore :=
       pick themeSaturationScore (ces_themeSaturationScore state);
     ces_continuityScore := pick continuityScore (ces_continuityScore state);
     ces_overallScore := ces_overallScore state;
     ces_gaps := ces_gaps state;
     ces_trinityAssessment := ces_trinityAssessment state;
     ces_coherenceScore := ces_coherenceScore state |}.

Definition get_state_score (state : CoherenceEngineState) (key : ComponentKey)
  : option ComponentScore :=
  match key with
  | narrativeFlowScore => ces_narrativeFlowScore state
  | characterConsistencyScore => ces_characterConsistencyScore state
  | pacingScore => ces_pacingScore state
  | themeSaturationScore => ces_themeSaturationScore state
  | continuityScore => ces_continuityScore state
  end.

(** ** Narrative flow *)

(** The structure loop of [analyzeNarrativeFlow]: returns
    [hasProperStructure] and the issue list after the loop. *)
Fixpoint structureLoop (functions : list string) (i : nat)
    (hasProperStructure : bool) (issues : list string) : bool * list string :=
  match functions with
  | [] => (hasProperStructure, issues)
  | func :: rest =>
      if array_includes ["setup"; "introduction"; "discovery"] func
      then (true, issues)
      else if array_includes ["confrontation"; "crisis"; "climax"] func
      then
        if negb hasProperStructure
        then structureLoop rest (S i) true
               (issues ++ ["Beat " +:+ dec (i + 1) +:+ " escalates without proper setup"])
        else structureLoop rest (S i) hasProperStructure issues
      else structureLoop rest (S i) hasProperStructure issues
  end.

Definition jarringPairs : list (string * string) :=
  [ ("devastating", "joyful"); ("fearful", "peaceful");
    ("triumphant", "devastating") ].

(** The condition tested for one pair of [jarringPairs]. *)
Definition jarringMatch (prevTone tone : string) (p : string * string) : bool :=
  ((includes (toLowerCase prevTone) (fst p)
    && includes (toLowerCase tone) (snd p))
   || (includes (toLowerCase prevTone) (snd p)
       && includes (toLowerCase tone) (fst p)))%bool.

(** The emotional-continuity loop: returns [jarringTransitions] and the
    issue list. *)
Fixpoint toneLoop (beats : list StoryBeat) (i : nat) (prevTone : option string)
    (jarringTransitions : nat) (issues : list string) : nat * list string :=
  match beats with
  | [] => (jarringTransitions, issues)
  | beat :: rest =>
      let '(j, iss) :=
        match prevTone with
        | Some prev =>
            if (truthy prev && truthy (sb_emotionalTone beat))%bool
            then
              fold_left
                (fun '(j, iss) p =>
                   if jarringMatch prev (sb_emotionalTone beat) p
                   then (j + 1,
                         iss ++ ["Jarring emotional transition at Beat "
                                 +:+ dec (i + 1)])
                   else (j, iss))
                jarringPairs (jarringTransitions, issues)
            else (jarringTransitions, issues)
        | None => (jarringTransitions, issues)
        end in
      toneLoop rest (S i) (Some (sb_emotionalTone beat)) j iss
  end.

(** The body of [analyzeNarrativeFlow] up to the assignment of the score. *)
Definition narrativeFlowComponent (beats : list StoryBeat) : ComponentScore :=
  let '(score, issues, suggestions) :=
    if Nat.ltb (length beats) 2
    then (50%Q, ["Too few beats to assess flow"],
          ["Add more story beats to establish narrative rhythm"])
    else
      let functions :=
        map (fun b => NarrativeFunction_value (sb_narrativeFunction b)) beats in
      let '(hasProperStructure, issues1) := structureLoop functions 0 false [] in
      let '(jarringTransitions, issues2) := toneLoop beats 0 None 0 issues1 in
      let baseScore :=
        (85 - inject_Z (Z.of_nat jarringTransitions) * 10
         - inject_Z (Z.of_nat (countIssues issues2 "without proper setup")) * 15)%Q in
      let score := clamp100 baseScore in
      let s1 := if Nat.ltb 0 jarringTransitions
                then ["Add transitional beats to smooth emotional shifts"]
                else [] in
      let s2 := if negb hasProperStructure
                then ["Consider adding setup beats before major confrontations"]
                else [] in
      (score, issues2, s1 ++ s2) in
  createComponentScore score (statusOf score) issues suggestions.

Definition analyzeNarrativeFlow (state : CoherenceEngineState)
  : CoherenceEngineState :=
  set_state_score state narrativeFlowScore
    (narrativeFlowComponent (ces_beats state)).

(** ** Character consistency *)

(** [characterBeats] is an object keyed by character id; its entries are
    visited in insertion order (ids that are canonical array indices, which
    JavaScript would visit first, are outside the model). *)

(** [characterBeats[id].push(i)] for an existing key. *)
Fixpoint assoc_push (l : list (string * list nat)) (k : string) (i : nat)
  : list (string * list nat) :=
  match l with
  | [] => []
  | (k', v) :: r =>
      if String.eqb k' k then (k', v ++ [i]) :: r else (k', v) :: assoc_push r k i
  end.

(** The loop that records, per character id, the indices of its beats. *)
Fixpoint appearanceLoop (beats : list StoryBeat) (i : nat)
    (characterBeats : list (string * list nat)) : list (string * list nat) :=
  match beats with
  | [] => characterBeats
  | beat :: rest =>
      let cb :=
        match sb_characterId beat with
        | Some id =>
            if truthy id then assoc_push characterBeats id i else characterBeats
        | None => characterBeats
        end in
      appearanceLoop rest (S i) cb
  end.

(** [characters.find(c => c.id === charId)?.name || charId] *)
Definition characterName (characters : list CharacterState) (charId : string)
  : string :=
  match List.find (fun c => String.eqb (cs_id c) charId) characters with
  | Some c => if truthy (cs_name c) then cs_name c else charId
  | None => charId
  end.

(** The inner loop over consecutive appearances of one character. *)
Fixpoint gapLoop (name : string) (prev : nat) (appearances : list nat)
    (acc : list string * list string) : list string * list string :=
  match appearances with
  | [] => acc
  | cur :: rest =>
      let gap := cur - prev in
      let acc' :=
        if Nat.ltb 5 gap
        then (fst acc ++ ["Character '" +:+ name +:+ "' disappears for "
                           +:+ dec gap +:+ " beats"],
              snd acc ++ ["Consider adding '" +:+ name +:+ "' to beats between "
                           +:+ dec (prev + 1) +:+ " and " +:+ dec (cur + 1)])
        else acc in
      gapLoop name cur rest acc'
  end.

(** The body of [analyzeCharacterConsistency] up to the assignment.  The
    table of appearances is iterated in insertion order, which is the order
    of the source for character ids that are not integer-like and name no
    member inherited from [Object.prototype]. *)
Definition characterConsistencyComponent (beats : list StoryBeat)
    (characters : list CharacterState) : ComponentScore :=
  let '(score, issues, suggestions) :=
    if Nat.eqb (length characters) 0
    then (50%Q, ["No character data provided"],
          ["Define character states to enable consistency analysis"])
    else
      let characterBeats0 :=
        fold_left (fun cb c => assoc_set cb (cs_id c) []) characters [] in
      let characterBeats := appearanceLoop beats 0 characterBeats0 in
      let '(issues1, suggestions1) :=
        fold_left
          (fun acc '(charId, appearances) =>
             match appearances with
             | first :: ((_ :: _) as rest) =>
                 gapLoop (characterName characters charId) first rest acc
             | _ => acc
             end)
          characterBeats ([], []) in
      let issues2 :=
        fold_left
          (fun iss c =>
             if (Qltb (cs_arcPosition c) (1 # 10) && Nat.ltb 5 (length beats))%bool
             then iss ++ ["Character '" +:+ cs_name c
                          +:+ "' has minimal arc progression"]
             else iss)
          characters issues1 in
      let baseScore :=
        (90 - inject_Z (Z.of_nat (countIssues issues2 "disappears")) * 8
         - inject_Z (Z.of_nat (countIssues issues2 "minimal arc")) * 12)%Q in
      (clamp100 baseScore, issues2, suggestions1) in
  createComponentScore score (statusOf score) issues suggestions.

Definition analyzeCharacterConsistency (state : CoherenceEngineState)
  : CoherenceEngineState :=
  set_state_score state characterConsistencyScore
    (characterConsistencyComponent (ces_beats state) (ces_characters state)).

(** ** Pacing *)

(** [functions.map((f, i) => f.includes("climax") ? i : -1).filter(i => i >= 0)] *)
Fixpoint climaxPositionsFrom (functions : list string) (i : nat) : list nat :=
  match functions with
  | [] => []
  | f :: rest =>
      if includes f "climax" then i :: climaxPositionsFrom rest (S i)
      else climaxPositionsFrom rest (S i)
  end.

Definition highTensionFuncs : list string :=
  ["confrontation"; "crisis"; "climax"; "revelation"].

Definition isHighTension (func : string) : bool :=
  existsb (fun ht => includes func ht) highTensionFuncs.

(** The loop over [functions] that tracks [consecutiveHigh] and
    [maxConsecutive]; returns [maxConsecutive]. *)
Fixpoint tensionLoop (functions : list string)
    (consecutiveHigh maxConsecutive : nat) : nat :=
  match functions with
  | [] => maxConsecutive
  | func :: rest =>
      if isHighTension func
      then tensionLoop rest (consecutiveHigh + 1)
             (Nat.max maxConsecutive (consecutiveHigh + 1))
      else tensionLoop rest 0 maxConsecutive
  end.

(** [climaxPositions[climaxPositions.length - 1] < total * 0.5] *)
Definition lastBeforeHalf (climaxPositions : list nat) (total : nat) : bool :=
  Qltb (inject_Z (Z.of_nat (List.last climaxPositions 0%nat)))
       (inject_Z (Z.of_nat total) * (5 # 10)).

(** The body of [analyzePacing] up to the assignment of the score. *)
Definition pacingComponent (beats : list StoryBeat) : ComponentScore :=
  let '(score, issues, suggestions) :=
    if Nat.ltb (length beats) 3
    then (50%Q, ["Too few beats to assess pacing"],
          ["Add more beats to establish proper pacing rhythm"])
    else
      let functions :=
        map (fun b => toLowerCase (NarrativeFunction_value (sb_narrativeFunction b)))
            beats in
      let climaxPositions := climaxPositionsFrom functions 0 in
      let '(issues1, suggestions1) :=
        if Nat.eqb (length climaxPositions) 0
        then (["No climax beat identified"],
              ["Ensure at least one beat has a climax function"])
        else if lastBeforeHalf climaxPositions (length beats)
        then (["Climax occurs too early in the narrative"],
              ["Move climax to later in the story or add post-climax resolution beats"])
        else ([], []) in
      let maxConsecutive := tensionLoop functions 0 0 in
      let '(issues2, suggestions2) :=
        if Nat.ltb 3 maxConsecutive
        then (issues1 ++ ["Found " +:+ dec maxConsecutive
                          +:+ " consecutive high-tension beats"],
              suggestions1
              ++ ["Add breathing room with quieter beats between intense moments"])
        else (issues1, suggestions1) in
      let base1 :=
        if Nat.eqb (length climaxPositions) 0 then (85 - 20)%Q
        else if lastBeforeHalf climaxPositions (length beats) then (85 - 15)%Q
        else 85%Q in
      let baseScore :=
        (base1 - Math_min 20 (inject_Z (Z.of_nat maxConsecutive) * 5))%Q in
      (clamp100 baseScore, issues2, suggestions2) in
  createComponentScore score (statusOf score) issues suggestions.

Definition analyzePacing (state : CoherenceEngineState)
  : CoherenceEngineState :=
  set_state_score state pacingScore
    (pacingComponent (ces_beats state)).

(** ** Theme saturation *)

(** The per-theme loop: coverage table (keyed by theme name), issues and
    suggestions. *)
Definition themeLoop (beats : list StoryBeat) (themes : list ThematicThread)
  : list (string * Q) * list string * list string :=
  fold_left
    (fun '(themeCoverage, issues, suggestions) theme =>
       let beatsWithTheme :=
         length (List.filter
                   (fun beat => array_includes (sb_thematicTags beat) (tt_id theme))
                   beats) in
       let coverage := ratio beatsWithTheme (Nat.max (length beats) 1) in
       let themeCoverage' := assoc_set themeCoverage (tt_name theme) coverage in
       let '(i1, s1) :=
         if (Qltb coverage (2 # 10) && Qltb (5 # 10) (tt_strength theme))%bool
         then (issues ++ ["Theme '" +:+ tt_name theme
                          +:+ "' is important but appears rarely"],
               suggestions ++ ["Weave '" +:+ tt_name theme
                               +:+ "' into more beats to fulfill its promise"])
         else (issues, suggestions) in
       let '(i2, s2) :=
         if (Qltb (3 # 10) coverage && Qltb (tt_strength theme) (3 # 10))%bool
         then (i1 ++ ["Theme '" +:+ tt_name theme
                      +:+ "' appears often but lacks impact"],
               s1 ++ ["Strengthen the thematic weight of '" +:+ tt_name theme
                      +:+ "' in key beats"])
         else (i1, s1) in
       (themeCoverage', i2, s2))
    themes ([], [], []).

(** The body of [analyzeThemeSaturation] up to the assignment. *)
Definition themeSaturationComponent (beats : list StoryBeat)
    (themes : list ThematicThread) : ComponentScore :=
  let '(score, issues, suggestions) :=
    if Nat.eqb (length themes) 0
    then (50%Q, ["No themes defined"],
          ["Define thematic threads to enable saturation analysis"])
    else
      let '(themeCoverage, issues1, suggestions1) := themeLoop beats themes in
      let coverageValues := map snd themeCoverage in
      let avgCoverage :=
        (Qsum coverageValues
         / inject_Z (Z.of_nat (Nat.max (length coverageValues) 1)))%Q in
      let baseScore :=
        (Math_min 100 (avgCoverage * 100 + 20)
         - inject_Z (Z.of_nat (countIssues issues1 "rarely")) * 10
         - inject_Z (Z.of_nat (countIssues issues1 "lacks impact")) * 8)%Q in
      (clamp100 baseScore, issues1, suggestions1) in
  createComponentScore score (statusOf score) issues suggestions.

Definition analyzeThemeSaturation (state : CoherenceEngineState)
  : CoherenceEngineState :=
  set_state_score state themeSaturationScore
    (themeSaturationComponent (ces_beats state) (ces_themes state)).

(** ** Continuity *)

(** [Math.max(...sequences)] for a non-empty list. *)
Definition maxSequence (sequences : list Z) : Z :=
  match sequences with
  | [] => 0
  | x :: r => fold_left Z.max r x
  end.

(** [Array.from({ length: maxSeq }, (_, i) => i + 1)]: the numbers
    1 .. maxSeq, none when [maxSeq] is below 1.  A length of 2^32 or more is
    no array length: the call throws a RangeError ([None]).  Below that bound
    the language defines the array; how many entries an engine can hold in
    the array and in the Set built from it (2^24 in V8) is not modelled. *)
Definition expectedSequences (maxSeq : Z) : option (list nat) :=
  if (4294967296 <=? maxSeq)%Z then None
  else Some (seq 1 (Z.to_nat maxSeq)).

(** [[...expected].filter(x => !actual.has(x))] with
    [expected = {1, ..., maxSeq}], once [expected] has been built. *)
Definition missingSequences (sequences : list Z) : list nat :=
  List.filter
    (fun x => negb (existsb (Z.eqb (Z.of_nat x)) sequences))
    (seq 1 (Z.to_nat (maxSequence sequences))).

(** [missing.sort().join(", ")]: the default sort orders the decimal
    renderings as strings. *)
Definition renderMissing (missing : list nat) : string :=
  join ", " (js_sort String.leb (map dec missing)).

(** The body of [analyzeContinuity] up to the assignment of the score, on
    the path where the expected sequences can be built; [continuityOutcome]
    below tells when they cannot. *)
Definition continuityComponent (beats : list StoryBeat) : ComponentScore :=
  let '(score, issues, suggestions) :=
    if Nat.ltb (length beats) 2
    then (70%Q, ["Too few beats for continuity analysis"], [])
    else
      let sequences := map sb_sequence beats in
      let sortedSequences := js_sort Z.leb sequences in
      let '(i1, s1) :=
        if negb (bool_decide (sequences = sortedSequences))
        then (["Beat sequences are not in order"],
              ["Reorder beats to ensure logical sequence progression"])
        else ([], []) in
      let '(i2, s2) :=
        if negb (Nat.eqb (length sequences)
                         (length (nodup Z.eq_dec sequences)))
        then (i1 ++ ["Duplicate beat sequence numbers found"],
              s1 ++ ["Ensure each beat has a unique sequence number"])
        else (i1, s1) in
      let missing := missingSequences sequences in
      let '(i3, s3) :=
        if (Nat.ltb 0 (length missing) && Nat.leb (length missing) 3)%bool
        then (i2 ++ ["Missing beat sequences: " +:+ renderMissing missing],
              s2 ++ ["Fill in missing beat sequences or renumber"])
        else (i2, s2) in
      let baseScore :=
        (90 - inject_Z (Z.of_nat (countIssues i3 "not in order")) * 20
         - inject_Z (Z.of_nat (countIssues i3 "Duplicate")) * 15
         - inject_Z (Z.of_nat (countIssues i3 "Missing")) * 5)%Q in
      (clamp100 baseScore, i3, s3) in
  createComponentScore score (statusOf score) issues suggestions.

Definition analyzeContinuity (state : CoherenceEngineState)
  : CoherenceEngineState :=
  set_state_score state continuityScore
    (continuityComponent (ces_beats state)).

(** What [analyzeContinuity] computes for a beat list: the component score it
    stores, or nothing ([None]) when building the expected sequences throws.
    With fewer than 2 beats the expected sequences are never built. *)
Definition continuityOutcome (beats : list StoryBeat)
  : option ComponentScore :=
  if Nat.ltb (length beats) 2 then Some (continuityComponent beats)
  else
    match expectedSequences (maxSequence (map sb_sequence beats)) with
    | Some _ => Some (continuityComponent beats)
    | None => None
    end.

(** ** Overall score *)

Definition componentWeights : list Q :=
  [12 # 10; 12 # 10; 1; 1; 8 # 10]%Q.

Definition componentsOf (state : CoherenceEngineState)
  : list (option ComponentScore) :=
  [ ces_narrativeFlowScore state; ces_characterConsistencyScore state;
    ces_pacingScore state; ces_themeSaturationScore state;
    ces_continuityScore state ].

Definition calculateOverallScore (state : CoherenceEngineState)
  : CoherenceEngineState :=
  let validScores :=
    flat_map (fun c => match c with
                       | Some c => [comp_score c]
                       | None => []
                       end) (componentsOf state) in
  let overall :=
    if Nat.ltb 0 (length validScores)
    then
      let weightedSum :=
        fold_left (fun sum '(s, w) => (sum + s * w)%Q)
                  (combine validScores componentWeights) 0%Q in
      let totalWeight := Qsum (firstn (length validScores) componentWeights) in
      (weightedSum / totalWeight)%Q
    else 50%Q in
  {| ces_beats := ces_beats state;
     ces_characters := ces_characters state;
     ces_themes := ces_themes state;
     ces_narrativeFlowScore := ces_narrativeFlowScore state;
     ces_characterConsistencyScore := ces_characterConsistencyScore state;
     ces_pacingScore := ces_pacingScore state;
     ces_themeSaturationScore := ces_themeSaturationScore state;
     ces_continuityScore := ces_continuityScore state;
     ces_overallScore := Some overall;
     ces_gaps := ces_gaps state;
     ces_trinityAssessment := ces_trinityAssessment state;
     ces_coherenceScore := ces_coherenceScore state |}.

(** ** Gaps *)

Definition componentMappings : list (ComponentKey * GapType) :=
  [ (narrativeFlowScore, STRUCTURAL); (characterConsistencyScore, CHARACTER);
    (pacingScore, STRUCTURAL); (themeSaturationScore, THEMATIC);
    (continuityScore, CONTINUITY) ].

Definition severityFor (component : ComponentScore) (issue : string)
  : GapSeverity :=
  match comp_status component with
  | status_critical => CRITICAL
  | _ =>
      if (includes issue "rarely" || includes issue "disappears")%bool
      then MODERATE else MINOR
  end.

Definition routeFor (gapType : GapType) : RoutingTarget :=
  match gapType with
  | STRUCTURAL => STRUCTURIST
  | CHARACTER => STORYTELLER
  | THEMATIC => STRUCTURIST
  | SENSORY => STORYTELLER
  | CONTINUITY => AUTHOR
  end.

Definition severityOrder (s : GapSeverity) : nat :=
  match s with
  | CRITICAL => 0
  | MODERATE => 1
  | MINOR => 2
  end.

(** The inner loop of [identifyGaps] over the issues of one component. *)
Definition gapsOfComponent (componentKey : ComponentKey) (gapType : GapType)
    (component : ComponentScore)
    (acc : list Gap * NarrativeCoherenceEngine)
  : list Gap * NarrativeCoherenceEngine :=
  fold_left
    (fun '(gaps, engine) issue =>
       let severity := severityFor component issue in
       let route := routeFor gapType in
       let '(id, engine') := generateGapId engine in
       (gaps ++ [createGap id gapType severity issue route (Some componentKey)],
        engine'))
    (comp_issues component) acc.

(** The gaps in the order they are pushed, before the final sort. *)
Definition emittedGaps (state : CoherenceEngineState)
    (engine : NarrativeCoherenceEngine)
  : list Gap * NarrativeCoherenceEngine :=
  fold_left
    (fun acc '(componentKey, gapType) =>
       match get_state_score state componentKey with
       | Some component => gapsOfComponent componentKey gapType component acc
       | None => acc
       end)
    componentMappings ([], engine).

Definition gapLe (a b : Gap) : bool :=
  Nat.leb (severityOrder (gap_severity a)) (severityOrder (gap_severity b)).

Definition identifyGaps (state : CoherenceEngineState)
    (engine : NarrativeCoherenceEngine)
  : CoherenceEngineState * NarrativeCoherenceEngine :=
  let '(gaps, engine') := emittedGaps state engine in
  ({| ces_beats := ces_beats state;
      ces_characters := ces_characters state;
      ces_themes := ces_themes state;
      ces_narrativeFlowScore := ces_narrativeFlowScore state;
      ces_characterConsistencyScore := ces_characterConsistencyScore state;
      ces_pacingScore := ces_pacingScore state;
      ces_themeSaturationScore := ces_themeSaturationScore state;
      ces_continuityScore := ces_continuityScore state;
      ces_overallScore := ces_overallScore state;
      ces_gaps := Some (js_sort gapLe gaps);
      ces_trinityAssessment := ces_trinityAssessment state;
      ces_coherenceScore := ces_coherenceScore state |}, engine').

(** ** Trinity assessment *)

Definition joinOr (parts : list string) (fallback : string) : string :=
  if Nat.ltb 0 (length parts) then join " " parts else fallback.

Definition GapType_eqb (a b : GapType) : bool :=
  match a, b with
  | STRUCTURAL, STRUCTURAL | THEMATIC, THEMATIC | CHARACTER, CHARACTER
  | SENSORY, SENSORY | CONTINUITY, CONTINUITY => true
  | _, _ => false
  end.

Definition GapSeverity_eqb (a b : GapSeverity) : bool :=
  Nat.eqb (severityOrder a) (severityOrder b).

Definition generateTrinityAssessment (state : CoherenceEngineState)
  : CoherenceEngineState :=
  let gaps := match ces_gaps state with
              | Some g => g
              | None => []
              end in
  let flow := ces_narrativeFlowScore state in
  let character := ces_characterConsistencyScore state in
  let pacing := ces_pacingScore state in
  let theme := ces_themeSaturationScore state in
  let continuity := ces_continuityScore state in
  let miaParts :=
    match flow with
    | Some flow =>
        ["Structure is " +:+ toFixed0 (comp_score flow) +:+ "% sound."]
        ++ match comp_issues flow with
           | first :: _ => ["Key structural gap: " +:+ first]
           | [] => []
           end
    | None => []
    end
    ++ match pacing with
       | Some pacing =>
           if Qltb (comp_score pacing) 70
           then ["Pacing needs attention (" +:+ toFixed0 (comp_score pacing)
                 +:+ "%)."]
                ++ match comp_suggestions pacing with
                   | first :: _ => [first]
                   | [] => []
                   end
           else []
       | None => []
       end
    ++ match continuity with
       | Some continuity =>
           if Qltb (comp_score continuity) 80
           then ["Continuity has " +:+ dec (length (comp_issues continuity))
                 +:+ " issues to address."]
           else []
       | None => []
       end in
  let mia := joinOr miaParts "Structure analysis unavailable." in
  let mietteParts :=
    match character with
    | Some character =>
        if Qle_bool 80 (comp_score character)
        then ["Character arcs are resonating well."]
        else ["Character consistency is " +:+ toFixed0 (comp_score character)
              +:+ "%."]
             ++ match comp_issues character with
                | first :: _ => ["The emotional gap: " +:+ first]
                | [] => []
                end
    | None => []
    end
    ++ match theme with
       | Some theme =>
           if Qle_bool 70 (comp_score theme)
           then ["Themes are landing with emotional weight."]
           else ["Themes need stronger emotional anchoring."]
       | None => []
       end
    ++ match flow with
       | Some flow =>
           if Nat.ltb 0 (countIssues (comp_issues flow) "Jarring")
           then ["Emotional transitions feel abrupt in places."]
           else []
       | None => []
       end in
  let miette := joinOr mietteParts "Emotional analysis unavailable." in
  let sensoryGaps :=
    List.filter (fun g => GapType_eqb (gap_gapType g) SENSORY) gaps in
  let ava8Parts :=
    (if Nat.ltb 0 (length sensoryGaps)
     then ["Found " +:+ dec (length sensoryGaps) +:+ " sensory gaps to address."]
     else [])
    ++ match pacing with
       | Some pacing =>
           if Qle_bool 70 (comp_score pacing)
           then ["Atmospheric rhythm feels balanced."]
           else ["Atmosphere could use more grounding moments."]
       | None => ["Atmosphere could use more grounding moments."]
       end
    ++ match pacing with
       | Some pacing =>
           if existsb (fun i => includes i "consecutive high-tension")
                      (comp_issues pacing)
           then ["The dense tension sections may benefit from visual breathing room."]
           else []
       | None => []
       end in
  let ava8 := joinOr ava8Parts "Atmospheric analysis unavailable." in
  let criticalGaps :=
    List.filter (fun g => GapSeverity_eqb (gap_severity g) CRITICAL) gaps in
  let moderateGaps :=
    List.filter (fun g => GapSeverity_eqb (gap_severity g) MODERATE) gaps in
  let priorities0 :=
    if Nat.ltb 0 (length criticalGaps)
    then map gap_description (firstn 3 criticalGaps)
    else if Nat.ltb 0 (length moderateGaps)
    then map gap_description (firstn 3 moderateGaps)
    else [] in
  let priorities :=
    if Nat.eqb (length priorities0) 0
    then ["Minor polish items only - narrative is coherent"]
    else priorities0 in
  {| ces_beats := ces_beats state;
     ces_characters := ces_characters state;
     ces_themes := ces_themes state;
     ces_narrativeFlowScore := ces_narrativeFlowScore state;
     ces_characterConsistencyScore := ces_characterConsistencyScore state;
     ces_pacingScore := ces_pacingScore state;
     ces_themeSaturationScore := ces_themeSaturationScore state;
     ces_continuityScore := ces_continuityScore state;
     ces_overallScore := ces_overallScore state;
     ces_gaps := ces_gaps state;
     ces_trinityAssessment :=
       Some {| ta_mia := mia; ta_miette := miette; ta_ava8 := ava8;
               ta_priorities := priorities |};
     ces_coherenceScore := ces_coherenceScore state |}.

(** ** Result *)

Definition defaultComponent (c : option ComponentScore) : ComponentScore :=
  match c with
  | Some c => c
  | None => createComponentScore 50 status_warning [] []
  end.

Definition buildCoherenceResult (state : CoherenceEngineState) (now : string)
  : CoherenceEngineState :=
  let overall :=
    match ces_overallScore state with
    | Some o => if Qeq_bool o 0 then 50%Q else o
    | None => 50%Q
    end in
  {| ces_beats := ces_beats state;
     ces_characters := ces_characters state;
     ces_themes := ces_themes state;
     ces_narrativeFlowScore := ces_narrativeFlowScore state;
     ces_characterConsistencyScore := ces_characterConsistencyScore state;
     ces_pacingScore := ces_pacingScore state;
     ces_themeSaturationScore := ces_themeSaturationScore state;
     ces_continuityScore := ces_continuityScore state;
     ces_overallScore := ces_overallScore state;
     ces_gaps := ces_gaps state;
     ces_trinityAssessment := ces_trinityAssessment state;
     ces_coherenceScore :=
       Some {| coh_overall := overall;
               coh_narrativeFlow := defaultComponent (ces_narrativeFlowScore state);
               coh_characterConsistency :=
                 defaultComponent (ces_characterConsistencyScore state);
               coh_pacing := defaultComponent (ces_pacingScore state);
               coh_themeSaturation :=
                 defaultComponent (ces_themeSaturationScore state);
               coh_continuity := defaultComponent (ces_continuityScore state);
               coh_analyzedAt := now |} |}.

(** The analysis pipeline of [analyze]: the final engine state (what
    [includeMetadata = true] returns) and the engine instance afterwards. *)
Definition analyzeState (engine : NarrativeCoherenceEngine)
    (beats : list StoryBeat) (characters : list CharacterState)
    (themes : list ThematicThread) (now : string)
  : CoherenceEngineState * NarrativeCoherenceEngine :=
  let state0 :=
    {| ces_beats := beats; ces_characters := characters; ces_themes := themes;
       ces_narrativeFlowScore := None; ces_characterConsistencyScore := None;
       ces_pacingScore := None; ces_themeSaturationScore := None;
       ces_continuityScore := None; ces_overallScore := None;
       ces_gaps := None; ces_trinityAssessment := None;
       ces_coherenceScore := None |} in
  let state1 := analyzeNarrativeFlow state0 in
  let state2 := analyzeCharacterConsistency state1 in
  let state3 := analyzePacing state2 in
  let state4 := analyzeThemeSaturation state3 in
  let state5 := analyzeContinuity state4 in
  let state6 := calculateOverallScore state5 in
  let '(state7, engine') := identifyGaps state6 engine in
  let state8 := generateTrinityAssessment state7 in
  let state9 := buildCoherenceResult state8 now in
  (state9, engine').

(** [analyze(beats, characters, themes, includeMetadata)].  The two non-null
    assertions of the source always hold after the pipeline; the last branch
    is never taken. *)
Definition analyze (engine : NarrativeCoherenceEngine)
    (beats : list StoryBeat) (characters : list CharacterState)
    (themes : list ThematicThread) (includeMetadata : bool) (now : string)
  : (CoherenceEngineState + CoherenceResult) * NarrativeCoherenceEngine :=
  let '(state, engine') := analyzeState engine beats characters themes now in
  if includeMetadata then (inl state, engine')
  else
    match ces_coherenceScore state, ces_trinityAssessment state with
    | Some coherenceScore, Some trinityAssessment =>
        (inr {| cr_coherenceScore := coherenceScore;
                cr_gaps := match ces_gaps state with
                           | Some g => g
                           | None => []
                           end;
                cr_trinityAssessment := trinityAssessment |}, engine')
    | _, _ => (inl state, engine')
    end.

(* ===================================================================== *)
(** * Notions used in the statements                                       *)
(* ===================================================================== *)

(** ** Pacing *)

(** A beat is high-tension when its narrative function is one of
    confrontation, crisis, climax, revelation. *)
Definition highTensionBeat (b : StoryBeat) : bool :=
  array_includes ["confrontation"; "crisis"; "climax"; "revelation"]
    (NarrativeFunction_value (sb_narrativeFunction b)).

Definition climaxBeat (b : StoryBeat) : bool :=
  NarrativeFunction_eqb (sb_narrativeFunction b) CLIMAX.

(** Length of the run of high-tension beats the list starts with. *)
Fixpoint leadingRun (beats : list StoryBeat) : nat :=
  match beats with
  | [] => 0
  | b :: rest => if highTensionBeat b then S (leadingRun rest) else 0
  end.

(** Longest run of consecutive high-tension beats: the longest leading run
    over all suffixes of the list. *)
Fixpoint longestRun (beats : list StoryBeat) : nat :=
  match beats with
  | [] => 0
  | b :: rest => Nat.max (leadingRun (b :: rest)) (longestRun rest)
  end.

(** Index of the last climax beat, if there is one. *)
Fixpoint lastClimaxIndex (beats : list StoryBeat) : option nat :=
  match beats with
  | [] => None
  | b :: rest =>
      match lastClimaxIndex rest with
      | Some i => Some (S i)
      | None => if climaxBeat b then Some 0 else None
      end
  end.

(** −20 when no climax beat exists, else −15 when the last climax index
    lies before the 50% mark of the list. *)
Definition climaxPenalty (beats : list StoryBeat) : Q :=
  match lastClimaxIndex beats with
  | None => 20
  | Some i => if Nat.ltb (2 * i) (length beats) then 15 else 0
  end.

Definition pacingScoreOf (beats : list StoryBeat) : Q :=
  comp_score (pacingComponent beats).

(** The run penalty as the pacing rule words it: [min(20, 5 × maxRun)], and
    only when the longest run exceeds 3. *)
Definition gatedRunPenalty (beats : list StoryBeat) : Q :=
  if Nat.ltb 3 (longestRun beats)
  then Math_min 20 (inject_Z (Z.of_nat (longestRun beats)) * 5)
  else 0.

(** ** Continuity *)

Definition continuityScoreOf (beats : list StoryBeat) : Q :=
  comp_score (continuityComponent beats).

(** Sequence values are non-decreasing in list order. *)
Definition nonDecreasing (l : list Z) : Prop :=
  forall i j x y, (i < j)%nat -> nth_error l i = Some x ->
                  nth_error l j = Some y -> (x <= y)%Z.

(** [m] is the largest sequence value. *)
Definition isMaxOf (l : list Z) (m : Z) : Prop :=
  In m l /\ forall x, In x l -> (x <= m)%Z.

(** [v] is a value of the range [1 .. m] that no beat carries. *)
Definition missingFrom (l : list Z) (m : Z) (v : nat) : Prop :=
  (1 <= Z.of_nat v <= m)%Z /\ ~ In (Z.of_nat v) l.

Definition b2q (b : bool) : Q := if b then 1 else 0.

(** ** Flow *)

Definition flowScoreOf (beats : list StoryBeat) : Q :=
  comp_score (narrativeFlowComponent beats).

(** Two adjacent tones form a jarring pair when one contains one word of a
    pair of [jarringPairs] and the other contains the other word. *)
Definition jarringTones (a b : string) : Prop :=
  exists p, In p jarringPairs /\
    ((includes (toLowerCase a) (fst p) = true /\
      includes (toLowerCase b) (snd p) = true) \/
     (includes (toLowerCase a) (snd p) = true /\
      includes (toLowerCase b) (fst p) = true)).

Fixpoint noJarringPair (tones : list string) : Prop :=
  match tones with
  | a :: ((b :: _) as rest) => ~ jarringTones a b /\ noJarringPair rest
  | _ => True
  end.

(** ** Ledger *)

(** Every character's arc position is at most 1 and every theme's strength
    lies in [0, 1]. *)
Definition arcsBounded (state : UnifiedNarrativeState) : Prop :=
  map_Forall (fun _ c => (cs_arcPosition c <= 1)%Q) (uns_characters state).

Definition strengthsBounded (state : UnifiedNarrativeState) : Prop :=
  map_Forall (fun _ t => (0 <= tt_strength t <= 1)%Q) (uns_themes state).

(** The act/phase mapping of [appendBeat]. *)
Definition actPhaseAfter (p : NarrativePosition) (f : NarrativeFunction)
  : Z * NarrativePhase :=
  match f with
  | INCITING_INCIDENT => (1%Z, PHASE_SETUP)
  | TURNING_POINT | CRISIS => (2%Z, PHASE_CONFRONTATION)
  | CLIMAX | RESOLUTION => (3%Z, PHASE_RESOLUTION)
  | _ => (pos_act p, pos_phase p)
  end.

(** ** Synthesis *)

Definition perspectiveAbsent (state : ThreeUniverseState) : Prop :=
  tus_engineerPerspective state = None \/
  tus_ceremonyPerspective state = None \/
  tus_storyEnginePerspective state = None.

(** The coherence formula in the words of the specification:
    [clamp01(mean(confidences) + alignmentBonus - spreadPenalty)] rounded to
    two decimals. *)
Definition clamp01 (x : Q) : Q :=
  if Qltb x 0 then 0 else if Qltb 1 x then 1 else x.

Definition max3 (a b c : Q) : Q :=
  if (Qle_bool b a && Qle_bool c a)%bool then a
  else if Qle_bool c b then b else c.

Definition min3 (a b c : Q) : Q :=
  if (Qle_bool a b && Qle_bool a c)%bool then a
  else if Qle_bool b c then b else c.

Definition atLeastTwo (a b c : bool) : bool :=
  ((a && b) || (a && c) || (b && c))%bool.

Definition engineerIsUrgent (engineer : UniversePerspective) : bool :=
  (String.eqb (up_intent engineer) "security"
   || String.eqb (up_intent engineer) "bug_fix"
   || String.eqb (up_intent engineer) "performance")%bool.

Definition ceremonyIsUrgent (ceremony : UniversePerspective) : bool :=
  match ctx_senderEnergy (up_context ceremony) with
  | Some e => String.eqb e "urgent_flow"
  | None => false
  end.

Definition storyIsUrgent (storyEngine : UniversePerspective) : bool :=
  match ctx_dramaticTension (up_context storyEngine) with
  | Some t => Qltb (7 # 10) t
  | None => false
  end.

Definition coherenceFormula (engineer ceremony storyEngine : UniversePerspective)
  : Q :=
  let e := up_confidence engineer in
  let c := up_confidence ceremony in
  let s := up_confidence storyEngine in
  let mean := ((e + c + s) / 3)%Q in
  let alignmentBonus :=
    if atLeastTwo (engineerIsUrgent engineer) (ceremonyIsUrgent ceremony)
                  (storyIsUrgent storyEngine)
    then (1 # 10)%Q else 0%Q in
  let spreadPenalty := ((max3 e c s - min3 e c s) * (2 # 10))%Q in
  let x := clamp01 (mean + alignmentBonus - spreadPenalty) in
  (inject_Z (Qfloor (x * 100 + (1 # 2))) / 100)%Q.

(** ** Lens classifiers *)

Definition initialState (event : Event) (eventType : string)
  : ThreeUniverseState :=
  {| tus_event := event; tus_eventType := eventType;
     tus_engineerPerspective := None; tus_ceremonyPerspective := None;
     tus_storyEnginePerspective := None; tus_analysis := None;
     tus_leadUniverse := None; tus_coherenceScore := None;
     tus_error := None |}.

Definition confidenceOf (p : option UniversePerspective) : Q :=
  match p with
  | Some p => up_confidence p
  | None => 0
  end.

Definition engineerConfidence (event : Event) (eventType : string) : Q :=
  confidenceOf (tus_engineerPerspective
                  (analyzeEngineerPerspective (initialState event eventType))).

Definition ceremonyConfidence (event : Event) (eventType : string) : Q :=
  confidenceOf (tus_ceremonyPerspective
                  (analyzeCeremonyPerspective (initialState event eventType))).

Definition storyEngineConfidence (event : Event) (eventType : string) : Q :=
  confidenceOf (tus_storyEnginePerspective
                  (analyzeStoryEnginePerspective (initialState event eventType))).

(** The five component scores of an engine state. *)
Definition componentScores (state : CoherenceEngineState) : list Q :=
  flat_map (fun c => match c with
                     | Some c => [comp_score c]
                     | None => []
                     end) (componentsOf state).

(** ** Auxiliary notions of the proofs *)

(** The [functions] array of [analyzePacing]. *)
Definition loweredFunctions (beats : list StoryBeat) : list string :=
  map (fun b => toLowerCase (NarrativeFunction_value (sb_narrativeFunction b)))
      beats.

(** A beat with every option at its default, for concrete instances. *)
Definition plainBeat (id : string) (sequence : Z) (f : NarrativeFunction)
  : StoryBeat :=
  createStoryBeat id sequence "" f 1 "2024-01-01T00:00:00.000Z".

Definition chars (s : string) : list ascii := list_ascii_of_string s.

Definition isDigit (c : ascii) : Prop :=
  In c (chars "0123456789").

Definition sepOrDigit (c : ascii) : Prop := In c (chars ", 0123456789").

(** The text of the missing-sequence issue. *)
Definition missingMessage (missing : list nat) : string :=
  "Missing beat sequences: " +:+ renderMissing missing.

(** A ledger whose [beatCount] disagrees with its (empty) beat list, as
    [createNarrativePosition({ beatCount: 5 })] or a deserialized state can
    give. *)
Definition staleCountLedger : UnifiedNarrativeState :=
  let state :=
    createUnifiedNarrativeState "story_1" "session_1" true true
      "2024-01-01T00:00:00.000Z" in
  {| uns_storyId := uns_storyId state;
     uns_sessionId := uns_sessionId state;
     uns_position :=
       {| pos_act := 1; pos_phase := PHASE_SETUP; pos_currentBeatId := None;
          pos_beatCount := 5; pos_characterArcStrength := 1 # 2;
          pos_thematicResonance := 1 # 2; pos_emotionalTone := "neutral";
          pos_leadUniverse := STORY_ENGINE |};
     uns_beats := uns_beats state;
     uns_characters := uns_characters state;
     uns_themes := uns_themes state;
     uns_routingDecisions := uns_routingDecisions state;
     uns_currentEpisodeId := uns_currentEpisodeId state;
     uns_episodeBeatsCount := uns_episodeBeatsCount state;
     uns_createdAt := uns_createdAt state;
     uns_updatedAt := uns_updatedAt state;
     uns_overallCoherence := uns_overallCoherence state;
     uns_emotionalArcStrength := uns_emotionalArcStrength state |}.

(** An event that carries only a [content] string, and the state after the
    three lens classifiers have run on it. *)
Definition contentEvent (content : string) : Event :=
  {| ev_sender := None; ev_content := Some content; ev_payload := None |}.

Definition classified (event : Event) (eventType : string)
  : ThreeUniverseState :=
  analyzeStoryEnginePerspective
    (analyzeCeremonyPerspective
       (analyzeEngineerPerspective (initialState event eventType))).

(** The engine state after the five scorers and [calculateOverallScore]. *)
Definition scoredState (beats : list StoryBeat)
    (characters : list CharacterState) (themes : list ThematicThread)
  : CoherenceEngineState :=
  calculateOverallScore
    (analyzeContinuity
       (analyzeThemeSaturation
          (analyzePacing
             (analyzeCharacterConsistency
                (analyzeNarrativeFlow
                   {| ces_beats := beats; ces_characters := characters;
                      ces_themes := themes;
                      ces_narrativeFlowScore := None;
                      ces_characterConsistencyScore := None;
                      ces_pacingScore := None;
                      ces_themeSaturationScore := None;
                      ces_continuityScore := None; ces_overallScore := None;
                      ces_gaps := None; ces_trinityAssessment := None;
                      ces_coherenceScore := None |}))))).

(** The component score each scorer stores under its key. *)
Definition componentFor (key : ComponentKey) (beats : list StoryBeat)
    (characters : list CharacterState) (themes : list ThematicThread)
  : ComponentScore :=
  match key with
  | narrativeFlowScore => narrativeFlowComponent beats
  | characterConsistencyScore => characterConsistencyComponent beats characters
  | pacingScore => pacingComponent beats
  | themeSaturationScore => themeSaturationComponent beats themes
  | continuityScore => continuityComponent beats
  end.

(** The gaps one component contributes when the counter stands at [n]. *)
Definition gapsFrom (componentKey : ComponentKey) (gapType : GapType)
    (component : ComponentScore) (n : nat) : list Gap :=
  map (fun '(k, issue) =>
         createGap ("gap_" +:+ dec k) gapType (severityFor component issue)
           issue (routeFor gapType) (Some componentKey))
      (combine (seq (n + 1) (length (comp_issues component)))
               (comp_issues component)).

Definition hasSeverity (s : GapSeverity) (g : Gap) : bool :=
  GapSeverity_eqb (gap_severity g) s.

(** Critical gaps, then moderate, then minor, each group in the order of
    the given list. *)
Definition bySeverity (gaps : list Gap) : list Gap :=
  List.filter (hasSeverity CRITICAL) gaps
  ++ List.filter (hasSeverity MODERATE) gaps
  ++ List.filter (hasSeverity MINOR) gaps.

(** The issue text mentions "rarely" or "disappears". *)
Definition mentionsRarelyOrDisappears (issue : string) : bool :=
  (includes issue "rarely" || includes issue "disappears")%bool.

(** The [gaps] array of the result [analyze] returns. *)
Definition resultGaps (engine : NarrativeCoherenceEngine)
    (beats : list StoryBeat) (characters : list CharacterState)
    (themes : list ThematicThread) (now : string) : list Gap :=
  match fst (analyze engine beats characters themes false now) with
  | inr result => cr_gaps result
  | inl state => match ces_gaps state with
                 | Some g => g
                 | None => []
                 end
  end.

(** The issues of the five scorers in the order [identifyGaps] visits them. *)
Definition allIssues (beats : list StoryBeat)
    (characters : list CharacterState) (themes : list ThematicThread)
  : list string :=
  flat_map (fun '(key, _) =>
              comp_issues (componentFor key beats characters themes))
           componentMappings.

(* ===================================================================== *)
(** * Further JavaScript primitives                                        *)
(* ===================================================================== *)

(** The index [Array.prototype.slice] derives from an integer argument for
    an array of [len] elements: a negative argument counts from the end. *)
Definition slice_index (len : nat) (i : Z) : nat :=
  if (i <? 0)%Z then Z.to_nat (Z.max (Z.of_nat len + i) 0)
  else Z.to_nat (Z.min i (Z.of_nat len)).

(** [l.slice(start, end)] *)
Definition js_slice {A} (l : list A) (start end_ : Z) : list A :=
  let k := slice_index (length l) start in
  let final := slice_index (length l) end_ in
  firstn (final - k) (skipn k l).

(** [l.slice(start)] *)
Definition js_slice_from {A} (l : list A) (start : Z) : list A :=
  skipn (slice_index (length l) start) l.

(** [s.slice(0, n)] on a string. *)
Definition string_prefix (n : nat) (s : string) : string := substring 0 n s.

Definition upper_ascii (c : ascii) : ascii :=
  let n := nat_of_ascii c in
  if (Nat.leb 97 n && Nat.leb n 122)%bool then ascii_of_nat (n - 32) else c.

(** [s.toUpperCase()] *)
Fixpoint toUpperCase (s : string) : string :=
  match s with
  | EmptyString => EmptyString
  | String c rest => String (upper_ascii c) (toUpperCase rest)
  end.

(* ===================================================================== *)
(** * schemas/unified_state_bridge.ts: further ledger operations           *)
(* ===================================================================== *)

(** [getPerspective(analysis, universe)] *)
Definition getPerspective (analysis : ThreeUniverseAnalysis)
    (universe : Universe) : UniversePerspective :=
  match universe with
  | ENGINEER => tua_engineer analysis
  | CEREMONY => tua_ceremony analysis
  | STORY_ENGINE => tua_storyEngine analysis
  end.

(** The [options] argument of [createStoryBeat]: [None] is a property left
    out. *)
Record StoryBeatOptions := {
  opt_universeAnalysis : option ThreeUniverseAnalysis;
  opt_leadUniverse : option Universe;
  opt_emotionalTone : option string;
  opt_thematicTags : option (list string);
  opt_characterId : option string;
  opt_characterArcImpact : option Q;
  opt_source : option string;
  opt_sourceEventId : option string;
  opt_timestamp : option string;
  opt_enrichmentsApplied : option (list string);
  opt_qualityScore : option Q
}.

(** [o ?? d] *)
Definition nullish {A} (o : option A) (d : A) : A :=
  match o with
  | Some v => v
  | None => d
  end.

(** [createStoryBeat(id, sequence, content, narrativeFunction, act, options)] *)
Definition createStoryBeatWith (id : string) (sequence : Z) (content : string)
    (narrativeFunction : NarrativeFunction) (act : Z)
    (options : StoryBeatOptions) (now : string) : StoryBeat :=
  {| sb_id := id; sb_sequence := sequence; sb_content := content;
     sb_narrativeFunction := narrativeFunction; sb_act := act;
     sb_universeAnalysis := opt_universeAnalysis options;
     sb_leadUniverse := nullish (opt_leadUniverse options) STORY_ENGINE;
     sb_emotionalTone := nullish (opt_emotionalTone options) "neutral";
     sb_thematicTags := nullish (opt_thematicTags options) [];
     sb_characterId := opt_characterId options;
     sb_characterArcImpact := nullish (opt_characterArcImpact options) 0%Q;
     sb_source := nullish (opt_source options) "generator";
     sb_sourceEventId := opt_sourceEventId options;
     sb_timestamp := nullish (opt_timestamp options) now;
     sb_enrichmentsApplied := nullish (opt_enrichmentsApplied options) [];
     sb_qualityScore := nullish (opt_qualityScore options) (1 # 2)%Q |}.

(** [addRoutingDecision(state, decision)] *)
Definition addRoutingDecision (state : UnifiedNarrativeState)
    (decision : RoutingDecision) (now : string) : UnifiedNarrativeState :=
  {| uns_storyId := uns_storyId state;
     uns_sessionId := uns_sessionId state;
     uns_position := uns_position state;
     uns_beats := uns_beats state;
     uns_characters := uns_characters state;
     uns_themes := uns_themes state;
     uns_routingDecisions := uns_routingDecisions state ++ [decision];
     uns_currentEpisodeId := uns_currentEpisodeId state;
     uns_episodeBeatsCount := uns_episodeBeatsCount state;
     uns_createdAt := uns_createdAt state;
     uns_updatedAt := now;
     uns_overallCoherence := uns_overallCoherence state;
     uns_emotionalArcStrength := uns_emotionalArcStrength state |}.

(** [getLastNBeats(state, n)]; a caller that leaves [n] out passes 5. *)
Definition getLastNBeats (state : UnifiedNarrativeState) (n : Z)
  : list StoryBeat :=
  js_slice_from (uns_beats state) (- n).

(** [calculateCoherence(state)] of the ledger (the synthesizer has a function
    of the same name): the returned number and the ledger afterwards. *)
Definition calculateLedgerCoherence (state : UnifiedNarrativeState)
  : Q * UnifiedNarrativeState :=
  if Nat.eqb (length (uns_routingDecisions state)) 0 then ((1 # 2)%Q, state)
  else
    let recentDecisions := js_slice_from (uns_routingDecisions state) (-20) in
    let coherences :=
      map (fun rd => tua_coherenceScore (rd_universeAnalysis rd))
          recentDecisions in
    let overallCoherence :=
      (Qsum coherences / inject_Z (Z.of_nat (length coherences)))%Q in
    (overallCoherence,
     {| uns_storyId := uns_storyId state;
        uns_sessionId := uns_sessionId state;
        uns_position := uns_position state;
        uns_beats := uns_beats state;
        uns_characters := uns_characters state;
        uns_themes := uns_themes state;
        uns_routingDecisions := uns_routingDecisions state;
        uns_currentEpisodeId := uns_currentEpisodeId state;
        uns_episodeBeatsCount := uns_episodeBeatsCount state;
        uns_createdAt := uns_createdAt state;
        uns_updatedAt := uns_updatedAt state;
        uns_overallCoherence := overallCoherence;
        uns_emotionalArcStrength := uns_emotionalArcStrength state |}).

(** [shouldCreateNewEpisode(state)] *)
Definition shouldCreateNewEpisode (state : UnifiedNarrativeState) : bool :=
  if (12 <=? uns_episodeBeatsCount state)%Z then true
  else if (Nat.ltb 0 (length (uns_beats state))
           && match nth_error (uns_beats state)
                              (length (uns_beats state) - 1) with
              | Some beat =>
                  NarrativeFunction_eqb (sb_narrativeFunction beat) RESOLUTION
              | None => false
              end)%bool
  then true
  else false.

(** [startNewEpisode(state, episodeId)] *)
Definition startNewEpisode (state : UnifiedNarrativeState)
    (episodeId : string) (now : string) : UnifiedNarrativeState :=
  {| uns_storyId := uns_storyId state;
     uns_sessionId := uns_sessionId state;
     uns_position := uns_position state;
     uns_beats := uns_beats state;
     uns_characters := uns_characters state;
     uns_themes := uns_themes state;
     uns_routingDecisions := uns_routingDecisions state;
     uns_currentEpisodeId := Some episodeId;
     uns_episodeBeatsCount := 0;
     uns_createdAt := uns_createdAt state;
     uns_updatedAt := now;
     uns_overallCoherence := uns_overallCoherence state;
     uns_emotionalArcStrength := uns_emotionalArcStrength state |}.

(** The own properties of the [NarrativeFunction] enum object: member name
    and member.  (No inherited property has a name free of lower-case
    letters, so an upper-cased key finds own properties only.) *)
Definition NarrativeFunction_members : list (string * NarrativeFunction) :=
  [ ("INCITING_INCIDENT", INCITING_INCIDENT); ("RISING_ACTION", RISING_ACTION);
    ("TURNING_POINT", TURNING_POINT); ("COMPLICATION", COMPLICATION);
    ("CRISIS", CRISIS); ("CLIMAX", CLIMAX); ("RESOLUTION", RESOLUTION);
    ("DENOUEMENT", DENOUEMENT); ("BEAT", BEAT) ].

(** [(context.act as number) || 2] *)
Definition actOr2 (context : PerspectiveContext) : Z :=
  match ctx_act context with
  | Some a => if (a =? 0)%Z then 2%Z else a
  | None => 2%Z
  end.

(** [createBeatFromWebhook(eventId, content, universeAnalysis, sequence)] *)
Definition createBeatFromWebhook (eventId content : string)
    (universeAnalysis : ThreeUniverseAnalysis) (sequence : Z) (now : string)
  : StoryBeat :=
  let storyEngineContext := up_context (tua_storyEngine universeAnalysis) in
  let act := actOr2 storyEngineContext in
  let narrativeFunction :=
    match assoc_get NarrativeFunction_members
                    (toUpperCase (up_intent (tua_storyEngine universeAnalysis)))
    with
    | Some f => f
    | None => BEAT
    end in
  createStoryBeatWith ("beat_" +:+ eventId) sequence content narrativeFunction
    act
    {| opt_universeAnalysis := Some universeAnalysis;
       opt_leadUniverse := Some (tua_leadUniverse universeAnalysis);
       opt_emotionalTone := None; opt_thematicTags := None;
       opt_characterId := None; opt_characterArcImpact := None;
       opt_source := Some "webhook";
       opt_sourceEventId := Some eventId;
       opt_timestamp := None; opt_enrichmentsApplied := None;
       opt_qualityScore := None |}
    now.

(** The key patterns of [RedisKeys]. *)
Definition RedisKeys_state (sessionId : string) : string :=
  "ncp:state:" +:+ sessionId.
Definition RedisKeys_currentState : string := "ncp:state:current".
Definition RedisKeys_beats (sessionId : string) : string :=
  "ncp:beats:" +:+ sessionId.
Definition RedisKeys_beat (beatId : string) : string :=
  "ncp:beat:" +:+ beatId.
Definition RedisKeys_eventAnalysis (eventId : string) : string :=
  "ncp:event:" +:+ eventId.
Definition RedisKeys_routingHistory (sessionId : string) : string :=
  "ncp:routing:" +:+ sessionId.
Definition RedisKeys_episode (episodeId : string) : string :=
  "ncp:episode:" +:+ episodeId.

(** A run of [addBeat] calls, each with the instant it reads the clock. *)
Definition addBeats (state : UnifiedNarrativeState)
    (calls : list (StoryBeat * string)) : UnifiedNarrativeState :=
  fold_left (fun st '(beat, now) => addBeat st beat now) calls state.

(** The coherence score a routing decision carries. *)
Definition decisionCoherence (rd : RoutingDecision) : Q :=
  tua_coherenceScore (rd_universeAnalysis rd).

(** [createRoutingDecision] with every option left at its default. *)
Definition createRoutingDecision (id backend flow : string)
    (universeAnalysis : ThreeUniverseAnalysis)
    (narrativePosition : NarrativePosition) (score : Q) (now : string)
  : RoutingDecision :=
  {| rd_id := id; rd_backend := backend; rd_flow := flow;
     rd_universeAnalysis := universeAnalysis;
     rd_narrativePosition := narrativePosition; rd_score := score;
     rd_method := "narrative"; rd_success := true; rd_resultSummary := "";
     rd_latencyMs := 0; rd_timestamp := now |}.

(** A routing decision that carries the given coherence score, for concrete
    instances. *)
Definition plainDecision (id : string) (coherenceScore : Q) : RoutingDecision :=
  let perspective universe :=
    createUniversePerspective universe "unknown" (1 # 2) [] empty_context in
  createRoutingDecision id "langflow" "flow"
    (createThreeUniverseAnalysis (perspective ENGINEER) (perspective CEREMONY)
       (perspective STORY_ENGINE) STORY_ENGINE coherenceScore
       "2024-01-01T00:00:00.000Z")
    createNarrativePosition (1 # 2) "2024-01-01T00:00:00.000Z".

(** A fresh ledger, for concrete instances. *)
Definition freshLedger : UnifiedNarrativeState :=
  createUnifiedNarrativeState "story_1" "session_1" true true
    "2024-01-01T00:00:00.000Z".

(* ===================================================================== *)
(** * graphs/three_universe_processor.ts: further functions                *)
(* ===================================================================== *)

(** The helpers below fill context keys that [PerspectiveContext] leaves
    out ([technicalScope], [sevenGenerationRelevance], [suggestedNextBeat],
    [characterImpact], [themeResonance]).  Their unused [_event] parameter
    is dropped. *)

Definition determineTechnicalScope (content : string) : string :=
  let contentLower := toLowerCase content in
  if includes_any contentLower ["api"; "endpoint"; "route"] then "api_layer"
  else if includes_any contentLower ["database"; "schema"; "migration"]
  then "data_layer"
  else if includes_any contentLower ["ui"; "component"; "frontend"]
  then "presentation_layer"
  else if includes_any contentLower ["test"; "spec"] then "testing"
  else if includes_any contentLower ["config"; "env"; "settings"]
  then "configuration"
  else "general".

Definition assessLongTermImpact (content : string) : Q :=
  let contentLower := toLowerCase content in
  let score0 := (3 # 10)%Q in
  let score1 :=
    if includes_any contentLower ["architecture"; "foundation"; "core"; "framework"]
    then (score0 + (3 # 10))%Q else score0 in
  let score2 :=
    if includes_any contentLower ["document"; "guide"; "tutorial"; "example"]
    then (score1 + (2 # 10))%Q else score1 in
  let score3 :=
    if includes_any contentLower ["breaking"; "migration"; "deprecate"]
    then (score2 + (2 # 10))%Q else score2 in
  Math_min 1 score3.

Definition nextBeatMap : list (string * string) :=
  [ ("inciting_incident", "rising_action"); ("rising_action", "complication");
    ("turning_point", "rising_action"); ("complication", "crisis");
    ("crisis", "climax"); ("climax", "resolution");
    ("resolution", "denouement"); ("denouement", "inciting_incident") ].

(** [nextBeatMap[currentIntent] || "rising_action"], for an intent that
    names no member the table inherits from [Object.prototype] (see
    [inheritedProperty]); the caller passes a key of the keyword table or
    "rising_action". *)
Definition suggestNextBeat (currentIntent : string) : string :=
  match assoc_get nextBeatMap currentIntent with
  | Some next => next
  | None => "rising_action"
  end.

Definition assessCharacterImpact (content : string) : string :=
  let contentLower := toLowerCase content in
  if includes_any contentLower ["transform"; "change"; "grow"; "learn"]
  then "transformative"
  else if includes_any contentLower ["challenge"; "struggle"; "overcome"]
  then "character_testing"
  else if includes_any contentLower ["connect"; "relationship"; "team"]
  then "relational"
  else "incremental".

Definition assessThemeResonance (content : string) : string :=
  let contentLower := toLowerCase content in
  let themes :=
    (if includes_any contentLower ["together"; "team"; "collaborate"]
     then ["collaboration"] else [])
    ++ (if includes_any contentLower ["integrate"; "connect"; "bridge"]
        then ["integration"] else [])
    ++ (if includes_any contentLower ["coherent"; "consistent"; "unified"]
        then ["coherence"] else [])
    ++ (if includes_any contentLower ["transform"; "change"; "evolve"]
        then ["transformation"] else []) in
  if Nat.ltb 0 (length themes) then join ", " themes else "development".

(** [ThreeUniverseProcessor.processWebhook] *)
Definition processWebhook (webhookPayload : Event) (now : string)
  : ThreeUniverseAnalysis + string :=
  let eventType :=
    match ev_payload webhookPayload with
    | Some payload =>
        match pl_issue payload, pl_pull_request payload, pl_comment payload with
        | Some _, _, _ => "github.issue"
        | None, Some _, _ => "github.pull_request"
        | None, None, Some _ => "github.comment"
        | None, None, None => "github.push"
        end
    | None => "github.push"
    end in
  process webhookPayload eventType now.

(** The further properties of the event that [createBeatFromAnalysis]
    reads: [event.eventType], [payload.head_commit.id], and the renderings
    [String(payload.issue.id)] and [String(payload.pull_request.id)]. *)
Record EventIds := {
  ids_eventType : option string;
  ids_head_commit_id : option string;
  ids_issue_id : string;
  ids_pull_request_id : string
}.

(** The [functionMap] of [createBeatFromAnalysis]. *)
Definition beatFunctionMap : list (string * NarrativeFunction) :=
  [ ("inciting_incident", INCITING_INCIDENT); ("rising_action", RISING_ACTION);
    ("turning_point", TURNING_POINT); ("complication", COMPLICATION);
    ("crisis", CRISIS); ("climax", CLIMAX); ("resolution", RESOLUTION);
    ("denouement", DENOUEMENT) ].

(** [ThreeUniverseProcessor.createBeatFromAnalysis]; [timestamp] is the
    clock read that names the beat, [now] the one [createStoryBeat] makes. *)
Definition createBeatFromAnalysis (event : Event) (ids : EventIds)
    (analysis : ThreeUniverseAnalysis) (sequence : Z) (timestamp now : string)
  : StoryBeat :=
  let storyIntent := up_intent (tua_storyEngine analysis) in
  let narrativeFunc :=
    match assoc_get beatFunctionMap storyIntent with
    | Some f => f
    | None => BEAT
    end in
  let act := actOr2 (up_context (tua_storyEngine analysis)) in
  let content0 := extractContent event in
  let content :=
    if truthy content0 then content0 else or_else (ids_eventType ids) "event" in
  let beatId := "beat_" +:+ timestamp in
  let sourceEventId :=
    match ev_payload event with
    | Some payload =>
        if truthy_opt (ids_head_commit_id ids) then ids_head_commit_id ids
        else
          match pl_issue payload with
          | Some _ => Some (ids_issue_id ids)
          | None =>
              match pl_pull_request payload with
              | Some _ => Some (ids_pull_request_id ids)
              | None => None
              end
          end
    | None => None
    end in
  createStoryBeatWith beatId sequence (string_prefix 500 content) narrativeFunc
    act
    {| opt_universeAnalysis := Some analysis;
       opt_leadUniverse := Some (tua_leadUniverse analysis);
       opt_emotionalTone := None; opt_thematicTags := None;
       opt_characterId := None; opt_characterArcImpact := None;
       opt_source := Some "processor";
       opt_sourceEventId := sourceEventId;
       opt_timestamp := None; opt_enrichmentsApplied := None;
       opt_qualityScore := None |}
    now.

(** ** The perspective each lens builds for an event *)

Definition engineerLens (event : Event) : UniversePerspective :=
  let content := engineerContent event in
  let intentScores :=
    scoreIntents toLowerCase engineerIntentKeywords (toLowerCase content) in
  let result := primaryIntent intentScores (6 # 10) "maintenance" (5 # 10) in
  createUniversePerspective ENGINEER (fst result) (snd result)
    (flowsFor engineerFlowMap (fst result) ["standard_ci"])
    {| ctx_contributors := []; ctx_isCollaborative := false;
       ctx_senderEnergy := None; ctx_witnessingNeeded := false;
       ctx_act := None; ctx_narrativeFunction := None;
       ctx_dramaticTension := None;
       ctx_estimatedComplexity := Some (estimateComplexity content event) |}.

Definition ceremonyLens (event : Event) : UniversePerspective :=
  let contributors := extractContributors event in
  let content := extractContent event in
  let scores0 :=
    scoreIntents (fun t => t) ceremonyIntentKeywords (toLowerCase content) in
  let intentScores :=
    if Nat.ltb 1 (length contributors)
    then assoc_set scores0 "co_creation"
           (scoreOf scores0 "co_creation" + (5 # 10))%Q
    else scores0 in
  let result :=
    primaryIntent intentScores (5 # 10) "individual_offering" (6 # 10) in
  createUniversePerspective CEREMONY (fst result) (snd result)
    (flowsFor ceremonyFlowMap (fst result) ["witness_work"; "hold_space"])
    {| ctx_contributors := contributors;
       ctx_isCollaborative := Nat.ltb 1 (length contributors);
       ctx_senderEnergy := Some (assessEnergy content);
       ctx_witnessingNeeded := needsWitnessing content;
       ctx_act := None; ctx_narrativeFunction := None;
       ctx_dramaticTension := None;
       ctx_estimatedComplexity := None |}.

(** The intent the Story-Engine lens settles on. *)
Definition storyIntentOf (event : Event) : string :=
  fst (primaryIntent
         (scoreIntents (fun t => t) storyEngineIntentKeywords
            (toLowerCase (extractContent event)))
         (55 # 100) "rising_action" (5 # 10)).

Definition storyEngineLens (event : Event) : UniversePerspective :=
  let content := extractContent event in
  let result :=
    primaryIntent
      (scoreIntents (fun t => t) storyEngineIntentKeywords (toLowerCase content))
      (55 # 100) "rising_action" (5 # 10) in
  let intent := fst result in
  createUniversePerspective STORY_ENGINE intent (snd result)
    (flowsFor storyFlowMap intent ["advance_narrative"; "update_arc_position"])
    {| ctx_contributors := []; ctx_isCollaborative := false;
       ctx_senderEnergy := None; ctx_witnessingNeeded := false;
       ctx_act := Some (match assoc_get actMap intent with
                        | Some a => a
                        | None => 2%Z
                        end);
       ctx_narrativeFunction := Some (match assoc_get functionMap intent with
                                      | Some f => f
                                      | None => "beat"
                                      end);
       ctx_dramaticTension := Some (calculateDramaticTension intent content);
       ctx_estimatedComplexity := None |}.

(** The eight intents the Story-Engine table knows. *)
Definition storyIntents : list string := map fst storyEngineIntentKeywords.

(** [f] applied [n] times. *)
Fixpoint iterate {A} (n : nat) (f : A -> A) (x : A) : A :=
  match n with
  | O => x
  | S n => iterate n f (f x)
  end.

(* ===================================================================== *)
(** * graphs/coherence_engine.ts: routing suggestions                      *)
(* ===================================================================== *)

(** [Record<RoutingTarget, Gap[]>]: one gap list per routing target. *)
Record RoutingSuggestions := {
  rs_storyteller : list Gap;
  rs_structurist : list Gap;
  rs_architect : list Gap;
  rs_author : list Gap
}.

(** [routing[target]] *)
Definition routedTo (routing : RoutingSuggestions) (target : RoutingTarget)
  : list Gap :=
  match target with
  | STORYTELLER => rs_storyteller routing
  | STRUCTURIST => rs_structurist routing
  | ARCHITECT => rs_architect routing
  | AUTHOR => rs_author routing
  end.

(** [routing[gap.suggestedRoute].push(gap)] *)
Definition pushRouted (routing : RoutingSuggestions) (gap : Gap)
  : RoutingSuggestions :=
  match gap_suggestedRoute gap with
  | STORYTELLER =>
      {| rs_storyteller := rs_storyteller routing ++ [gap];
         rs_structurist := rs_structurist routing;
         rs_architect := rs_architect routing;
         rs_author := rs_author routing |}
  | STRUCTURIST =>
      {| rs_storyteller := rs_storyteller routing;
         rs_structurist := rs_structurist routing ++ [gap];
         rs_architect := rs_architect routing;
         rs_author := rs_author routing |}
  | ARCHITECT =>
      {| rs_storyteller := rs_storyteller routing;
         rs_structurist := rs_structurist routing;
         rs_architect := rs_architect routing ++ [gap];
         rs_author := rs_author routing |}
  | AUTHOR =>
      {| rs_storyteller := rs_storyteller routing;
         rs_structurist := rs_structurist routing;
         rs_architect := rs_architect routing;
         rs_author := rs_author routing ++ [gap] |}
  end.

(** [NarrativeCoherenceEngine.getRoutingSuggestions(gaps)] *)
Definition getRoutingSuggestions (gaps : list Gap) : RoutingSuggestions :=
  fold_left pushRouted gaps
    {| rs_storyteller := []; rs_structurist := []; rs_architect := [];
       rs_author := [] |}.

(** ** Notions used in the statements about the engine *)

Definition RoutingTarget_eqb (a b : RoutingTarget) : bool :=
  match a, b with
  | STORYTELLER, STORYTELLER | STRUCTURIST, STRUCTURIST
  | ARCHITECT, ARCHITECT | AUTHOR, AUTHOR => true
  | _, _ => false
  end.

(** The gaps of a list that are routed to [target]. *)
Definition gapsRoutedTo (target : RoutingTarget) (gaps : list Gap) : list Gap :=
  List.filter (fun gap => RoutingTarget_eqb (gap_suggestedRoute gap) target) gaps.

(** The gap type and the routing target [identifyGaps] gives the issues of
    each component. *)
Definition gapTypeOf (key : ComponentKey) : GapType :=
  match key with
  | narrativeFlowScore => STRUCTURAL
  | characterConsistencyScore => CHARACTER
  | pacingScore => STRUCTURAL
  | themeSaturationScore => THEMATIC
  | continuityScore => CONTINUITY
  end.

Definition routeOf (key : ComponentKey) : RoutingTarget :=
  match key with
  | characterConsistencyScore => STORYTELLER
  | continuityScore => AUTHOR
  | _ => STRUCTURIST
  end.

(** The [overall] score of the result [analyze] returns. *)
Definition overallOf (engine : NarrativeCoherenceEngine)
    (beats : list StoryBeat) (characters : list CharacterState)
    (themes : list ThematicThread) (now : string) : Q :=
  match ces_coherenceScore (fst (analyzeState engine beats characters themes now))
  with
  | Some coherenceScore => coh_overall coherenceScore
  | None => 0
  end.

(** The priorities of the trinity assessment [analyze] returns. *)
Definition reportedPriorities (engine : NarrativeCoherenceEngine)
    (beats : list StoryBeat) (characters : list CharacterState)
    (themes : list ThematicThread) (now : string) : list string :=
  match ces_trinityAssessment
          (fst (analyzeState engine beats characters themes now)) with
  | Some assessment => ta_priorities assessment
  | None => []
  end.

(** A beat whose narrative function the flow scorer treats as an
    escalation. *)
Definition escalationBeat (beat : StoryBeat) : bool :=
  (NarrativeFunction_eqb (sb_narrativeFunction beat) CRISIS
   || NarrativeFunction_eqb (sb_narrativeFunction beat) CLIMAX)%bool.

(** Index of the first escalation beat of a list that has one. *)
Fixpoint firstEscalation (beats : list StoryBeat) : nat :=
  match beats with
  | [] => 0
  | beat :: rest =>
      if escalationBeat beat then 0 else S (firstEscalation rest)
  end.

(** The issue the emotional-continuity loop raises at beat [k]. *)
Definition jarringIssue (issue : string) : Prop :=
  exists k, issue = "Jarring emotional transition at Beat " +:+ dec k.

(* ===================================================================== *)
(** * integrations/redis_state.ts: the in-memory Redis stand-in            *)
(* ===================================================================== *)

(** The three maps of a [MockRedis] instance.  An asynchronous method is a
    function from the instance before the call to its result and the
    instance after it; [Date.now()] is the parameter [now], in milliseconds;
    a time to live is a whole number of seconds.  [keys(pattern)], which
    compiles the pattern to a regular expression, is not modelled. *)
Record MockRedis := {
  mr_data : gmap string string;
  mr_lists : gmap string (list string);
  mr_expiry : gmap string Z
}.

Definition MockRedis_new : MockRedis :=
  {| mr_data := ∅; mr_lists := ∅; mr_expiry := ∅ |}.

(** [checkExpiry(key)]: [expiry && Date.now() > expiry] *)
Definition MockRedis_checkExpiry (redis : MockRedis) (key : string) (now : Z)
  : MockRedis :=
  match mr_expiry redis !! key with
  | Some expiry =>
      if (negb (expiry =? 0)%Z && (expiry <? now)%Z)%bool
      then {| mr_data := delete key (mr_data redis);
              mr_lists := delete key (mr_lists redis);
              mr_expiry := delete key (mr_expiry redis) |}
      else redis
  | None => redis
  end.

(** [get(key)]: [None] is [null]. *)
Definition MockRedis_get (redis : MockRedis) (key : string) (now : Z)
  : option string * MockRedis :=
  let redis' := MockRedis_checkExpiry redis key now in
  (mr_data redis' !! key, redis').

Definition MockRedis_set (redis : MockRedis) (key value : string)
  : string * MockRedis :=
  ("OK", {| mr_data := <[key := value]> (mr_data redis);
            mr_lists := mr_lists redis;
            mr_expiry := mr_expiry redis |}).

Definition MockRedis_setex (redis : MockRedis) (key : string) (ttl : Z)
    (value : string) (now : Z) : string * MockRedis :=
  ("OK", {| mr_data := <[key := value]> (mr_data redis);
            mr_lists := mr_lists redis;
            mr_expiry := <[key := (now + ttl * 1000)%Z]> (mr_expiry redis) |}).

(** One round of the loop of [del(...keys)]. *)
Definition MockRedis_del_one (acc : nat * MockRedis) (key : string)
  : nat * MockRedis :=
  let '(count, redis) := acc in
  let count1 := if bool_decide (is_Some (mr_data redis !! key))
                then (count + 1)%nat else count in
  let count2 := if bool_decide (is_Some (mr_lists redis !! key))
                then (count1 + 1)%nat else count1 in
  (count2, {| mr_data := delete key (mr_data redis);
              mr_lists := delete key (mr_lists redis);
              mr_expiry := mr_expiry redis |}).

Definition MockRedis_del (redis : MockRedis) (keys : list string)
  : nat * MockRedis :=
  fold_left MockRedis_del_one keys (0%nat, redis).

(** [this.lists.get(key) ?? []] *)
Definition MockRedis_list (redis : MockRedis) (key : string) : list string :=
  match mr_lists redis !! key with
  | Some items => items
  | None => []
  end.

Definition MockRedis_rpush (redis : MockRedis) (key value : string)
  : nat * MockRedis :=
  let items := MockRedis_list redis key ++ [value] in
  (length items, {| mr_data := mr_data redis;
                    mr_lists := <[key := items]> (mr_lists redis);
                    mr_expiry := mr_expiry redis |}).

(** The [list.slice(actualStart, actualEnd)] shared by [lrange] and
    [ltrim]. *)
Definition MockRedis_range (items : list string) (start end_ : Z)
  : list string :=
  let actualEnd :=
    if (end_ =? -1)%Z then Z.of_nat (length items) else (end_ + 1)%Z in
  let actualStart :=
    if (start <? 0)%Z then Z.max 0 (Z.of_nat (length items) + start)
    else start in
  js_slice items actualStart actualEnd.

Definition MockRedis_lrange (redis : MockRedis) (key : string)
    (start end_ : Z) : list string :=
  MockRedis_range (MockRedis_list redis key) start end_.

Definition MockRedis_ltrim (redis : MockRedis) (key : string)
    (start end_ : Z) : string * MockRedis :=
  match mr_lists redis !! key with
  | Some items =>
      ("OK", {| mr_data := mr_data redis;
                mr_lists :=
                  <[key := MockRedis_range items start end_]> (mr_lists redis);
                mr_expiry := mr_expiry redis |})
  | None => ("OK", redis)
  end.

(** ** The manager's operations that store plain strings *)

(** [NarrativeRedisManager.setCurrentSession] and [getCurrentSessionId] on a
    connected manager whose client is a [MockRedis]. *)
Definition setCurrentSession (redis : MockRedis) (sessionId : string)
  : MockRedis :=
  snd (MockRedis_set redis RedisKeys_currentState sessionId).

Definition getCurrentSessionId (redis : MockRedis) (now : Z)
  : option string * MockRedis :=
  MockRedis_get redis RedisKeys_currentState now.

(** [NarrativeRedisManager.deleteSession] on a connected manager whose
    client is a [MockRedis] (no call of which throws). *)
Definition deleteSession (redis : MockRedis) (sessionId : string)
  : bool * MockRedis :=
  let beatsKey := RedisKeys_beats sessionId in
  let beatIds := MockRedis_lrange redis beatsKey 0 (-1) in
  let redis1 :=
    fold_left (fun r beatId => snd (MockRedis_del r [RedisKeys_beat beatId]))
              beatIds redis in
  let redis2 :=
    snd (MockRedis_del redis1
           [ RedisKeys_state sessionId; RedisKeys_beats sessionId;
             RedisKeys_routingHistory sessionId ]) in
  (true, redis2).

(** ** Notions used in the statements about the key patterns *)

(** A use of one of the key patterns of [RedisKeys]. *)
Inductive RedisKey :=
  | KeyState (sessionId : string)
  | KeyCurrentState
  | KeyBeats (sessionId : string)
  | KeyBeat (beatId : string)
  | KeyEventAnalysis (eventId : string)
  | KeyRoutingHistory (sessionId : string)
  | KeyEpisode (episodeId : string).

Definition RedisKey_render (k : RedisKey) : string :=
  match k with
  | KeyState sessionId => RedisKeys_state sessionId
  | KeyCurrentState => RedisKeys_currentState
  | KeyBeats sessionId => RedisKeys_beats sessionId
  | KeyBeat beatId => RedisKeys_beat beatId
  | KeyEventAnalysis eventId => RedisKeys_eventAnalysis eventId
  | KeyRoutingHistory sessionId => RedisKeys_routingHistory sessionId
  | KeyEpisode episodeId => RedisKeys_episode episodeId
  end.

(** The instance after the keys of a list have been deleted one by one. *)
Definition MockRedis_without (redis : MockRedis) (keys : list string)
  : MockRedis :=
  fold_left
    (fun r key => {| mr_data := delete key (mr_data r);
                     mr_lists := delete key (mr_lists r);
                     mr_expiry := mr_expiry r |})
    keys redis.

(* ===================================================================== *)
(** * Proofs                                                               *)
(* ===================================================================== *)

(** * Rational arithmetic of the JavaScript primitives *)

Lemma Qltb_lt (a b : Q) : Qltb a b = true <-> (a < b)%Q.
Proof.
  unfold Qltb. rewrite negb_true_iff.
  split.
  - intros H. apply Qnot_le_lt. intros Hle.
    apply Qle_bool_iff in Hle. congruence.
  - intros H. destruct (Qle_bool b a) eqn:E; [|reflexivity].
    apply Qle_bool_iff in E. exfalso. exact (Qlt_not_le _ _ H E).
Qed.

Lemma Qltb_ge (a b : Q) : Qltb a b = false <-> (b <= a)%Q.
Proof.
  unfold Qltb. rewrite negb_false_iff. apply Qle_bool_iff.
Qed.

Lemma Math_min_spec (a b : Q) :
  ((a <= b)%Q /\ Math_min a b = a) \/ ((b < a)%Q /\ Math_min a b = b).
Proof.
  unfold Math_min. destruct (Qle_bool a b) eqn:E.
  - left. split; [now apply Qle_bool_iff | reflexivity].
  - right. split; [|reflexivity].
    apply Qnot_le_lt. intros H. apply Qle_bool_iff in H. congruence.
Qed.

Lemma Math_max_spec (a b : Q) :
  ((a <= b)%Q /\ Math_max a b = b) \/ ((b < a)%Q /\ Math_max a b = a).
Proof.
  unfold Math_max. destruct (Qle_bool a b) eqn:E.
  - left. split; [now apply Qle_bool_iff | reflexivity].
  - right. split; [|reflexivity].
    apply Qnot_le_lt. intros H. apply Qle_bool_iff in H. congruence.
Qed.

Lemma Math_min_compat (a b c d : Q) :
  (a == c)%Q -> (b == d)%Q -> (Math_min a b == Math_min c d)%Q.
Proof.
  intros H1 H2. unfold Math_min. rewrite H1, H2.
  destruct (Qle_bool c d); assumption.
Qed.

Lemma Math_max_compat (a b c d : Q) :
  (a == c)%Q -> (b == d)%Q -> (Math_max a b == Math_max c d)%Q.
Proof.
  intros H1 H2. unfold Math_max. rewrite H1, H2.
  destruct (Qle_bool c d); assumption.
Qed.

Lemma clamp100_compat (x y : Q) : (x == y)%Q -> (clamp100 x == clamp100 y)%Q.
Proof.
  intros H. unfold clamp100.
  apply Math_max_compat; [reflexivity|].
  apply Math_min_compat; [reflexivity|assumption].
Qed.

Lemma clamp100_bounds (x : Q) : (0 <= clamp100 x <= 100)%Q.
Proof.
  unfold clamp100.
  destruct (Math_min_spec 100 x) as [[H1 ->]|[H1 ->]];
    destruct (Math_max_spec 0 100) as [[H2 E2]|[H2 E2]];
    destruct (Math_max_spec 0 x) as [[H3 E3]|[H3 E3]];
    try rewrite E2; try rewrite E3; split;
    try apply Qle_refl; try assumption;
    try (apply Qlt_le_weak; assumption);
    try discriminate.
Qed.

Lemma clamp100_id (x : Q) : (0 <= x)%Q -> (x <= 100)%Q -> (clamp100 x == x)%Q.
Proof.
  intros H0 H1. unfold clamp100.
  destruct (Math_min_spec 100 x) as [[H2 ->]|[H2 ->]].
  - destruct (Math_max_spec 0 100) as [[H3 ->]|[H3 ->]].
    + apply Qle_antisym; assumption.
    + exfalso. revert H3. apply Qle_not_lt. discriminate.
  - destruct (Math_max_spec 0 x) as [[H3 ->]|[H3 ->]].
    + reflexivity.
    + exfalso. exact (Qlt_not_le _ _ H3 H0).
Qed.

(** * Pacing *)

Lemma highTension_enum (f : NarrativeFunction) :
  isHighTension (toLowerCase (NarrativeFunction_value f))
  = array_includes ["confrontation"; "crisis"; "climax"; "revelation"]
      (NarrativeFunction_value f).
Proof. destruct f; reflexivity. Qed.

Lemma climax_enum (f : NarrativeFunction) :
  includes (toLowerCase (NarrativeFunction_value f)) "climax"
  = NarrativeFunction_eqb f CLIMAX.
Proof. destruct f; reflexivity. Qed.


Lemma leadingRun_le_longest (beats : list StoryBeat) :
  (leadingRun beats <= longestRun beats)%nat.
Proof. destruct beats; simpl; lia. Qed.

Lemma tensionLoop_runs (beats : list StoryBeat) :
  forall c m, (c <= m)%nat ->
    tensionLoop (loweredFunctions beats) c m
    = Nat.max m (Nat.max (c + leadingRun beats) (longestRun beats)).
Proof.
  induction beats as [|b rest IH]; intros c m Hcm.
  - simpl. lia.
  - pose proof (leadingRun_le_longest rest) as Hl.
    cbn [loweredFunctions map tensionLoop leadingRun longestRun].
    rewrite highTension_enum. fold (highTensionBeat b).
    fold (loweredFunctions rest).
    destruct (highTensionBeat b).
    + rewrite IH by lia. lia.
    + rewrite IH by lia. lia.
Qed.

Lemma tensionLoop_longestRun (beats : list StoryBeat) :
  tensionLoop (loweredFunctions beats) 0 0 = longestRun beats.
Proof.
  rewrite tensionLoop_runs by lia.
  pose proof (leadingRun_le_longest beats). lia.
Qed.

Lemma climaxPositions_last (beats : list StoryBeat) :
  forall i,
    match lastClimaxIndex beats with
    | None => climaxPositionsFrom (loweredFunctions beats) i = []
    | Some k =>
        climaxPositionsFrom (loweredFunctions beats) i <> [] /\
        List.last (climaxPositionsFrom (loweredFunctions beats) i) 0%nat
        = (i + k)%nat
    end.
Proof.
  induction beats as [|b rest IH]; intros i.
  - reflexivity.
  - cbn [loweredFunctions map climaxPositionsFrom lastClimaxIndex].
    rewrite climax_enum. fold (climaxBeat b). fold (loweredFunctions rest).
    specialize (IH (S i)).
    destruct (lastClimaxIndex rest) as [k|].
    + destruct IH as [Hne Hlast].
      destruct (climaxBeat b).
      * split; [discriminate|].
        destruct (climaxPositionsFrom (loweredFunctions rest) (S i)) eqn:E;
          [congruence|].
        cbn [List.last]. cbn [List.last] in Hlast. rewrite Hlast. lia.
      * split; [assumption|]. rewrite Hlast. lia.
    + rewrite IH. destruct (climaxBeat b).
      * split; [discriminate|]. simpl. lia.
      * reflexivity.
Qed.

Lemma lastBeforeHalf_nat (l : list nat) (k n : nat) :
  List.last l 0%nat = k ->
  lastBeforeHalf l n = Nat.ltb (2 * k) n.
Proof.
  intros <-.
  destruct (Nat.ltb_spec (2 * List.last l 0%nat) n) as [H|H];
    unfold lastBeforeHalf, Qltb, Qle_bool; simpl.
  - apply negb_true_iff. apply Z.leb_gt. lia.
  - apply negb_false_iff. apply Z.leb_le. lia.
Qed.

Lemma pacingComponent_score (beats : list StoryBeat) :
  (3 <= length beats)%nat ->
  (pacingScoreOf beats ==
   clamp100 (85 - climaxPenalty beats
             - Math_min 20 (inject_Z (Z.of_nat (longestRun beats)) * 5)))%Q.
Proof.
  intros Hlen. unfold pacingScoreOf, pacingComponent.
  destruct (Nat.ltb_spec (length beats) 3) as [H|_]; [lia|].
  fold (loweredFunctions beats).
  rewrite tensionLoop_longestRun.
  pose proof (climaxPositions_last beats 0) as Hc.
  unfold climaxPenalty.
  destruct (lastClimaxIndex beats) as [k|].
  - destruct Hc as [Hne Hlast].
    rewrite (lastBeforeHalf_nat _ k _ Hlast).
    destruct (climaxPositionsFrom (loweredFunctions beats) 0) eqn:E;
      [congruence|].
    cbn [length Nat.eqb].
    destruct (Nat.ltb (2 * k) (length beats));
      destruct (Nat.ltb 3 (longestRun beats)); cbn [comp_score createComponentScore];
      apply clamp100_compat; ring.
  - rewrite Hc. cbn [length Nat.eqb].
    destruct (Nat.ltb 3 (longestRun beats)); cbn [comp_score createComponentScore];
      apply clamp100_compat; ring.
Qed.

(** C1 (amended).  For every beat list with at least 3 beats the Pacing
    scorer subtracts [min(20, 5 × maxRun)] whatever the length of the longest
    run of consecutive high-tension beats (functions confrontation, crisis,
    climax, revelation): the pacing score is 85 minus the climax penalty
    (−20 without a climax beat, else −15 when the last climax index lies
    before the 50% mark) minus that run penalty, clamped to [0,100].  Only
    the "consecutive high-tension beats" issue is gated: it is emitted exactly
    when the longest run exceeds 3. *)
Theorem pacing_run_penalty_ungated (beats : list StoryBeat) :
  (3 <= length beats)%nat ->
  (pacingScoreOf beats ==
   clamp100 (85 - climaxPenalty beats
             - Math_min 20 (inject_Z (Z.of_nat (longestRun beats)) * 5)))%Q
  /\ (In ("Found " +:+ dec (longestRun beats) +:+ " consecutive high-tension beats")
         (comp_issues (pacingComponent beats))
      <-> (3 < longestRun beats)%nat).
Proof.
  intros Hlen. split; [now apply pacingComponent_score|].
  unfold pacingComponent.
  destruct (Nat.ltb_spec (length beats) 3) as [H|_]; [lia|].
  fold (loweredFunctions beats).
  rewrite tensionLoop_longestRun.
  assert (Hmsg : forall (pre : list string),
            (forall s, In s pre -> exists t, s = String "N" t \/ s = String "C" t) ->
            forall msg, (exists t, msg = String "F" t) ->
            (In msg (if Nat.ltb 3 (longestRun beats) then pre ++ [msg] else pre)
             <-> (3 < longestRun beats)%nat)).
  { intros pre Hpre msg [t ->].
    destruct (Nat.ltb_spec 3 (longestRun beats)) as [Hr|Hr]; split.
    - intros _. exact Hr.
    - intros _. apply in_or_app. right. left. reflexivity.
    - intros Hin. apply Hpre in Hin. destruct Hin as [t' [E|E]]; discriminate E.
    - intros Hlt. lia. }
  set (msg := "Found " +:+ dec (longestRun beats) +:+ " consecutive high-tension beats").
  destruct (Nat.eqb _ 0); [|destruct (lastBeforeHalf _ _)];
    (destruct (Nat.ltb 3 (longestRun beats)) eqn:E;
     cbn [comp_issues createComponentScore];
     match goal with
     | |- In _ ?l <-> _ =>
         match l with
         | ?pre ++ _ => specialize (Hmsg pre)
         | ?pre => specialize (Hmsg pre)
         end
     end;
     (apply Hmsg;
      [ intros s Hs; cbn in Hs;
        repeat (destruct Hs as [Hs|Hs];
                [subst s; eexists; (left; reflexivity) || (right; reflexivity)|]);
        contradiction
      | eexists; reflexivity ])).
Qed.


(** The theorem at three beats [beat; beat; climax]. *)
Lemma pacing_run_penalty_ungated_witness :
  let beats := [plainBeat "b1" 1 BEAT; plainBeat "b2" 2 BEAT;
                plainBeat "b3" 3 CLIMAX] in
  (pacingScoreOf beats ==
   clamp100 (85 - climaxPenalty beats
             - Math_min 20 (inject_Z (Z.of_nat (longestRun beats)) * 5)))%Q
  /\ (In ("Found " +:+ dec (longestRun beats) +:+ " consecutive high-tension beats")
         (comp_issues (pacingComponent beats))
      <-> (3 < longestRun beats)%nat).
Proof.
  apply (pacing_run_penalty_ungated
           [plainBeat "b1" 1 BEAT; plainBeat "b2" 2 BEAT; plainBeat "b3" 3 CLIMAX]).
  simpl. lia.
Defined.

(** C1 as stated fails: for [beat; beat; climax] the longest run is 1 and no
    climax penalty applies, so a gated run penalty would leave the score at
    85; the scorer returns 80. *)
Lemma pacing_gated_penalty_counterexample :
  let beats := [plainBeat "b1" 1 BEAT; plainBeat "b2" 2 BEAT;
                plainBeat "b3" 3 CLIMAX] in
  (3 <= length beats)%nat /\ (longestRun beats <= 3)%nat /\
  (pacingScoreOf beats == 80)%Q /\
  (clamp100 (85 - climaxPenalty beats - gatedRunPenalty beats) == 85)%Q /\
  ~ (pacingScoreOf beats
     == clamp100 (85 - climaxPenalty beats - gatedRunPenalty beats))%Q.
Proof.
  cbv zeta. split; [simpl; lia|]. split; [vm_compute; lia|].
  split; [reflexivity|]. split; [reflexivity|].
  intros H. vm_compute in H. discriminate H.
Qed.

(** * Strings *)


Lemma chars_append (a b : string) : chars (a +:+ b) = chars a ++ chars b.
Proof.
  unfold chars. induction a as [|c a IH]; [reflexivity|].
  change (String c a +:+ b) with (String c (a +:+ b)).
  cbn. f_equal. exact IH.
Qed.

Lemma prefix_chars (p s : string) :
  String.prefix p s = true -> incl (chars p) (chars s).
Proof.
  revert s. induction p as [|c p IH]; intros s H.
  - intros x [].
  - destruct s as [|d s]; [discriminate|].
    cbn in H. destruct (Ascii.ascii_dec c d) as [->|]; [|discriminate].
    intros x [<-|Hx]; [left; reflexivity|].
    right. exact (IH s H x Hx).
Qed.

Lemma includes_chars (hay needle : string) :
  includes hay needle = true -> incl (chars needle) (chars hay).
Proof.
  induction hay as [|c hay IH]; cbn [includes].
  - destruct (String.prefix needle "") eqn:E; [|discriminate].
    intros _. now apply prefix_chars.
  - destruct (String.prefix needle (String c hay)) eqn:E.
    + intros _. now apply prefix_chars.
    + intros H x Hx. right. exact (IH H x Hx).
Qed.

Lemma includes_without (hay needle : string) (c : ascii) :
  In c (chars needle) -> ~ In c (chars hay) -> includes hay needle = false.
Proof.
  intros Hn Hh. destruct (includes hay needle) eqn:E; [|reflexivity].
  exfalso. apply Hh. exact (includes_chars _ _ E c Hn).
Qed.

Lemma includes_app_r (a b needle : string) :
  includes b needle = true -> includes (a +:+ b) needle = true.
Proof.
  intros H. induction a as [|c a IH]; [exact H|].
  change (String c a +:+ b) with (String c (a +:+ b)).
  cbn [includes].
  destruct (String.prefix needle (String c (a +:+ b))); [reflexivity|exact IH].
Qed.


Lemma string_of_uint_digits (d : Decimal.uint) :
  Forall isDigit (chars (NilEmpty.string_of_uint d)).
Proof.
  induction d; cbn; constructor; try assumption; unfold isDigit; cbn; tauto.
Qed.

Lemma dec_digits (n : nat) : Forall isDigit (chars (dec n)).
Proof. apply string_of_uint_digits. Qed.

Lemma dec_inj (n m : nat) : dec n = dec m -> n = m.
Proof.
  unfold dec. intros H.
  assert (E : Some (Nat.to_uint n) = Some (Nat.to_uint m)).
  { rewrite <- (NilEmpty.usu (Nat.to_uint n)), <- (NilEmpty.usu (Nat.to_uint m)).
    now rewrite H. }
  injection E as E.
  rewrite <- (Unsigned.of_to n), <- (Unsigned.of_to m). now rewrite E.
Qed.

Lemma concat_chars (P : ascii -> Prop) (sep : string) (l : list string) :
  Forall P (chars sep) ->
  Forall (fun s => Forall P (chars s)) l ->
  Forall P (chars (String.concat sep l)).
Proof.
  intros Hsep Hl. induction Hl as [|s l Hs Hl IH]; [constructor|].
  destruct l as [|t l]; [exact Hs|].
  cbn [String.concat]. fold (String.concat sep (t :: l)).
  change (s ++ sep ++ String.concat sep (t :: l))%string
    with (s +:+ sep +:+ String.concat sep (t :: l)).
  rewrite !chars_append. apply Forall_app. split; [exact Hs|].
  apply Forall_app. split; [exact Hsep|exact IH].
Qed.

(** * Sorting *)

Lemma sort_insert_perm {A} (le : A -> A -> bool) (x : A) (l : list A) :
  Permutation (sort_insert le x l) (x :: l).
Proof.
  induction l as [|y r IH]; cbn; [reflexivity|].
  destruct (le x y); [reflexivity|].
  rewrite IH. apply perm_swap.
Qed.

Lemma js_sort_perm {A} (le : A -> A -> bool) (l : list A) :
  Permutation (js_sort le l) l.
Proof.
  induction l as [|x r IH]; cbn; [reflexivity|].
  fold (js_sort le r). rewrite sort_insert_perm. now constructor.
Qed.

Lemma sort_insert_skip {A} (le : A -> A -> bool) (x : A) (a b : list A) :
  Forall (fun y => le x y = false) a ->
  sort_insert le x (a ++ b) = a ++ sort_insert le x b.
Proof.
  induction 1 as [|y a Hy Ha IH]; [reflexivity|].
  cbn. rewrite Hy. now rewrite IH.
Qed.

Lemma sort_insert_front {A} (le : A -> A -> bool) (x : A) (l : list A) :
  Forall (fun y => le x y = true) l -> sort_insert le x l = x :: l.
Proof.
  intros H. destruct H as [|y r Hy _]; [reflexivity|].
  cbn. now rewrite Hy.
Qed.

(** * Continuity *)

Lemma sort_insert_sorted (x : Z) (l : list Z) :
  StronglySorted Z.le l -> StronglySorted Z.le (sort_insert Z.leb x l).
Proof.
  induction 1 as [|y r Hr IH Hy]; cbn.
  - repeat constructor.
  - destruct (Z.leb_spec x y) as [Hxy|Hxy].
    + constructor; [now constructor|].
      constructor; [exact Hxy|].
      eapply List.Forall_impl; [|exact Hy]. cbn. intros z Hz. lia.
    + constructor; [exact IH|].
      eapply Permutation_Forall; [symmetry; apply sort_insert_perm|].
      constructor; [lia|exact Hy].
Qed.

Lemma js_sort_sorted (l : list Z) : StronglySorted Z.le (js_sort Z.leb l).
Proof.
  induction l as [|x r IH]; cbn; [constructor|].
  now apply sort_insert_sorted.
Qed.

Lemma js_sort_fixed (l : list Z) :
  StronglySorted Z.le l -> js_sort Z.leb l = l.
Proof.
  induction 1 as [|x r Hr IH Hx]; [reflexivity|].
  cbn. fold (js_sort Z.leb r). rewrite IH.
  apply sort_insert_front.
  eapply List.Forall_impl; [|exact Hx]. cbn. intros y Hy. now apply Z.leb_le.
Qed.

Lemma nonDecreasing_StronglySorted (l : list Z) :
  nonDecreasing l <-> StronglySorted Z.le l.
Proof.
  split.
  - induction l as [|x r IH]; intros H; [constructor|].
    constructor.
    + apply IH. intros i j a b Hij Ha Hb.
      exact (H (S i) (S j) a b ltac:(lia) Ha Hb).
    + apply List.Forall_forall. intros y Hy.
      apply In_nth_error in Hy. destruct Hy as [j Hj].
      exact (H 0%nat (S j) x y ltac:(lia) eq_refl Hj).
  - induction 1 as [|x r Hr IH Hx]; intros i j a b Hij Ha Hb.
    + destruct i; discriminate.
    + destruct j as [|j]; [lia|].
      destruct i as [|i].
      * cbn in Ha, Hb. injection Ha as <-.
        apply nth_error_In in Hb.
        rewrite List.Forall_forall in Hx. now apply Hx.
      * cbn in Ha, Hb. exact (IH i j a b ltac:(lia) Ha Hb).
Qed.

Lemma sequences_in_order (l : list Z) :
  bool_decide (l = js_sort Z.leb l) = true <-> nonDecreasing l.
Proof.
  rewrite bool_decide_eq_true, nonDecreasing_StronglySorted.
  split.
  - intros ->. apply js_sort_sorted.
  - intros H. symmetry. now apply js_sort_fixed.
Qed.

Lemma nodup_length_le (l : list Z) :
  (length (nodup Z.eq_dec l) <= length l)%nat.
Proof.
  induction l as [|x r IH]; cbn; [lia|].
  destruct (in_dec Z.eq_dec x r); cbn; lia.
Qed.

Lemma sequences_unique (l : list Z) :
  Nat.eqb (length l) (length (nodup Z.eq_dec l)) = true <-> List.NoDup l.
Proof.
  rewrite Nat.eqb_eq. split.
  - induction l as [|x r IH]; intros H; [constructor|].
    cbn in H. destruct (in_dec Z.eq_dec x r) as [Hin|Hin].
    + pose proof (nodup_length_le r). lia.
    + cbn in H. constructor; [exact Hin|]. apply IH. lia.
  - intros H. now rewrite nodup_fixed_point.
Qed.

Lemma fold_max_spec (r : list Z) (x : Z) :
  isMaxOf (x :: r) (fold_left Z.max r x).
Proof.
  revert x. induction r as [|y r IH]; intros x.
  - split; [left; reflexivity|]. intros z [<-|[]]. cbn. lia.
  - cbn [fold_left]. destruct (IH (Z.max x y)) as [Hin Hmax]. split.
    + destruct Hin as [E|Hin].
      * rewrite <- E.
        destruct (Z.max_spec x y) as [[_ E']|[_ E']]; rewrite E'.
        -- right. left. reflexivity.
        -- left. reflexivity.
      * right. right. exact Hin.
    + intros z Hz.
      assert (Hm : (Z.max x y <= fold_left Z.max r (Z.max x y))%Z)
        by (apply Hmax; left; reflexivity).
      destruct Hz as [<-|[<-|Hz]]; [lia|lia|].
      apply Hmax. right. exact Hz.
Qed.

Lemma maxSequence_spec (l : list Z) :
  l <> [] -> isMaxOf l (maxSequence l).
Proof.
  destruct l as [|x r]; [congruence|]. intros _. apply fold_max_spec.
Qed.

Lemma missingSequences_spec (l : list Z) :
  List.NoDup (missingSequences l) /\
  forall v, In v (missingSequences l) <-> missingFrom l (maxSequence l) v.
Proof.
  unfold missingSequences, missingFrom. split.
  - apply List.NoDup_filter. apply List.seq_NoDup.
  - intros v. rewrite List.filter_In, List.in_seq, negb_true_iff.
    split.
    + intros [Hr He]. split; [lia|].
      intros Hin. assert (E : existsb (Z.eqb (Z.of_nat v)) l = true).
      { apply existsb_exists. exists (Z.of_nat v). split; [exact Hin|].
        apply Z.eqb_refl. }
      congruence.
    + intros [Hr Hn]. split; [lia|].
      destruct (existsb (Z.eqb (Z.of_nat v)) l) eqn:E; [|reflexivity].
      exfalso. apply Hn. apply existsb_exists in E.
      destruct E as [z [Hz Ez]]. apply Z.eqb_eq in Ez. now rewrite Ez.
Qed.



Lemma renderMissing_chars (missing : list nat) :
  Forall sepOrDigit (chars (renderMissing missing)).
Proof.
  unfold renderMissing, join. apply concat_chars.
  - unfold sepOrDigit. cbn. repeat constructor; tauto.
  - eapply Permutation_Forall; [symmetry; apply js_sort_perm|].
    apply List.Forall_forall. intros s Hs. apply in_map_iff in Hs.
    destruct Hs as [n [<- _]].
    eapply List.Forall_impl; [|apply dec_digits].
    unfold isDigit, sepOrDigit. cbn. tauto.
Qed.

Lemma missingMessage_without (c : ascii) (missing : list nat) :
  ~ In c (chars "Missing beat sequences: , 0123456789") ->
  ~ In c (chars (missingMessage missing)).
Proof.
  intros Hc Hin. unfold missingMessage in Hin.
  rewrite chars_append in Hin. apply in_app_or in Hin.
  destruct Hin as [Hin|Hin].
  - apply Hc. cbn in Hin |- *. tauto.
  - pose proof (renderMissing_chars missing) as H.
    rewrite List.Forall_forall in H. specialize (H c Hin).
    apply Hc. unfold sepOrDigit in H. cbn in H |- *. tauto.
Qed.

Lemma missingMessage_words (missing : list nat) :
  includes (missingMessage missing) "Missing" = true /\
  includes (missingMessage missing) "not in order" = false /\
  includes (missingMessage missing) "Duplicate" = false.
Proof.
  split; [reflexivity|]. split.
  - apply (includes_without _ _ "o"%char); [cbn; tauto|].
    apply missingMessage_without. cbn.
    intros H. repeat (destruct H as [H|H]; [discriminate H|]). exact H.
  - apply (includes_without _ _ "D"%char); [cbn; tauto|].
    apply missingMessage_without. cbn.
    intros H. repeat (destruct H as [H|H]; [discriminate H|]). exact H.
Qed.

Lemma continuityComponent_shape (beats : list StoryBeat) :
  (2 <= length beats)%nat ->
  let seqs := map sb_sequence beats in
  let unordered := negb (bool_decide (seqs = js_sort Z.leb seqs)) in
  let dup := negb (Nat.eqb (length seqs) (length (nodup Z.eq_dec seqs))) in
  let missing := missingSequences seqs in
  let gap := (Nat.ltb 0 (length missing) && Nat.leb (length missing) 3)%bool in
  comp_issues (continuityComponent beats)
  = (if unordered then ["Beat sequences are not in order"] else [])
    ++ (if dup then ["Duplicate beat sequence numbers found"] else [])
    ++ (if gap then [missingMessage missing] else [])
  /\ (continuityScoreOf beats
      == clamp100 (90 - 20 * b2q unordered - 15 * b2q dup - 5 * b2q gap))%Q.
Proof.
  intros Hlen. cbv zeta. unfold continuityScoreOf, continuityComponent.
  destruct (Nat.ltb_spec (length beats) 2) as [H|_]; [lia|].
  fold (missingMessage (missingSequences (map sb_sequence beats))).
  destruct (missingMessage_words (missingSequences (map sb_sequence beats)))
    as (Hm1 & Hm2 & Hm3).
  set (msg := missingMessage (missingSequences (map sb_sequence beats))) in *.
  destruct (negb (bool_decide _));
    destruct (negb (Nat.eqb _ _));
    destruct (Nat.ltb 0 _ && Nat.leb _ 3)%bool;
    cbn [app comp_issues comp_score createComponentScore countIssues
         List.filter length];
    rewrite ?Hm1, ?Hm2, ?Hm3;
    (split; [reflexivity|]);
    apply clamp100_compat; vm_compute; reflexivity.
Qed.

Lemma expectedSequences_missing (sequences : list Z) (expected : list nat) :
  expectedSequences (maxSequence sequences) = Some expected ->
  missingSequences sequences
  = List.filter
      (fun x => negb (existsb (Z.eqb (Z.of_nat x)) sequences)) expected.
Proof.
  unfold expectedSequences, missingSequences.
  destruct (4294967296 <=? maxSequence sequences)%Z; [discriminate|].
  intros H. injection H as <-. reflexivity.
Qed.

Lemma continuityOutcome_short (beats : list StoryBeat) :
  (length beats < 2)%nat ->
  continuityOutcome beats = Some (continuityComponent beats).
Proof.
  intros H. unfold continuityOutcome.
  destruct (Nat.ltb_spec (length beats) 2) as [_|H']; [reflexivity|lia].
Qed.

Lemma continuityOutcome_built (beats : list StoryBeat) :
  (maxSequence (map sb_sequence beats) < 4294967296)%Z ->
  continuityOutcome beats = Some (continuityComponent beats).
Proof.
  intros H. unfold continuityOutcome, expectedSequences.
  destruct (Nat.ltb (length beats) 2); [reflexivity|].
  destruct (Z.leb_spec 4294967296 (maxSequence (map sb_sequence beats)));
    [lia|reflexivity].
Qed.

Lemma continuityOutcome_range_error (beats : list StoryBeat) :
  (2 <= length beats)%nat ->
  (4294967296 <= maxSequence (map sb_sequence beats))%Z ->
  continuityOutcome beats = None.
Proof.
  intros Hlen H. unfold continuityOutcome, expectedSequences.
  destruct (Nat.ltb_spec (length beats) 2) as [H'|_]; [lia|].
  destruct (Z.leb_spec 4294967296 (maxSequence (map sb_sequence beats)));
    [reflexivity|lia].
Qed.




(** * Narrative flow *)

Lemma jarringMatch_calm (a b : string) :
  ~ jarringTones a b ->
  forall p, In p jarringPairs -> jarringMatch a b p = false.
Proof.
  intros Hn p Hp. destruct (jarringMatch a b p) eqn:E; [|reflexivity].
  exfalso. apply Hn. exists p. split; [exact Hp|].
  unfold jarringMatch in E.
  apply orb_true_iff in E. destruct E as [E|E];
    apply andb_true_iff in E; [left|right]; exact E.
Qed.

Lemma toneLoop_calm (beats : list StoryBeat) :
  forall i prev j iss,
    noJarringPair (match prev with
                   | Some p => p :: map sb_emotionalTone beats
                   | None => map sb_emotionalTone beats
                   end) ->
    toneLoop beats i prev j iss = (j, iss).
Proof.
  induction beats as [|b rest IH]; intros i prev j iss H; [reflexivity|].
  cbn [toneLoop].
  assert (Hrest : noJarringPair (sb_emotionalTone b :: map sb_emotionalTone rest)).
  { destruct prev; cbn [map] in H; [|exact H]. destruct H as [_ H]. exact H. }
  destruct prev as [p|].
  - cbn [map] in H. destruct H as [Hcalm _].
    pose proof (jarringMatch_calm _ _ Hcalm) as Hm.
    destruct (truthy p && truthy (sb_emotionalTone b))%bool.
    + unfold jarringPairs in *. cbn [fold_left].
      rewrite !Hm by (cbn; tauto).
      apply (IH (S i) (Some (sb_emotionalTone b))). exact Hrest.
    + apply (IH (S i) (Some (sb_emotionalTone b))). exact Hrest.
  - apply (IH (S i) (Some (sb_emotionalTone b))). exact Hrest.
Qed.

(** C5.  For every six-beat list with functions [inciting_incident;
    rising_action; turning_point; crisis; climax; resolution] and no jarring
    pair of adjacent emotional tones, the Flow scorer returns at least 70 with
    status "good" and the Pacing scorer returns at least 70. *)
Theorem six_beat_arc_scores_good (beats : list StoryBeat) :
  map sb_narrativeFunction beats
  = [INCITING_INCIDENT; RISING_ACTION; TURNING_POINT; CRISIS; CLIMAX; RESOLUTION] ->
  noJarringPair (map sb_emotionalTone beats) ->
  (70 <= flowScoreOf beats)%Q /\
  comp_status (narrativeFlowComponent beats) = status_good /\
  (70 <= pacingScoreOf beats)%Q.
Proof.
  intros Hf Hcalm.
  destruct beats as [|b1 [|b2 [|b3 [|b4 [|b5 [|b6 [|]]]]]]]; try discriminate Hf.
  cbn [map] in Hf. injection Hf as H1 H2 H3 H4 H5 H6.
  assert (Eflow : narrativeFlowComponent [b1; b2; b3; b4; b5; b6]
                  = createComponentScore 70 status_good
                      ["Beat 4 escalates without proper setup"] []).
  { unfold narrativeFlowComponent. cbn [length map Nat.ltb Nat.leb].
    rewrite H1, H2, H3, H4, H5, H6.
    assert (Esl : structureLoop
                    (map NarrativeFunction_value
                       [INCITING_INCIDENT; RISING_ACTION; TURNING_POINT;
                        CRISIS; CLIMAX; RESOLUTION]) 0 false []
                  = (true, ["Beat 4 escalates without proper setup"]))
      by (vm_compute; reflexivity).
    cbn [map] in Esl. rewrite Esl.
    rewrite (toneLoop_calm _ 0%nat None 0%nat _ Hcalm).
    vm_compute. reflexivity. }
  unfold flowScoreOf. rewrite Eflow. cbn [comp_score comp_status createComponentScore].
  split; [apply Qle_refl|]. split; [reflexivity|].
  unfold pacingScoreOf, pacingComponent. cbn [length map Nat.ltb Nat.leb].
  rewrite H1, H2, H3, H4, H5, H6.
  vm_compute. discriminate.
Qed.

(** The theorem at six such beats with the default tone. *)
Lemma six_beat_arc_scores_good_witness :
  let beats :=
    [plainBeat "b1" 1 INCITING_INCIDENT; plainBeat "b2" 2 RISING_ACTION;
     plainBeat "b3" 3 TURNING_POINT; plainBeat "b4" 4 CRISIS;
     plainBeat "b5" 5 CLIMAX; plainBeat "b6" 6 RESOLUTION] in
  (70 <= flowScoreOf beats)%Q /\
  comp_status (narrativeFlowComponent beats) = status_good /\
  (70 <= pacingScoreOf beats)%Q.
Proof.
  apply (six_beat_arc_scores_good
           [plainBeat "b1" 1 INCITING_INCIDENT; plainBeat "b2" 2 RISING_ACTION;
            plainBeat "b3" 3 TURNING_POINT; plainBeat "b4" 4 CRISIS;
            plainBeat "b5" 5 CLIMAX; plainBeat "b6" 6 RESOLUTION]).
  - reflexivity.
  - cbn. repeat split; intros [p [Hp H]]; cbn in Hp;
      repeat (destruct Hp as [<-|Hp]; [vm_compute in H; intuition discriminate|]);
      contradiction.
Defined.

(** * Ledger *)

Lemma actPhase_mapping (p : NarrativePosition) (beat : StoryBeat)
    (st : UnifiedNarrativeState) (now : string) :
  uns_position st = p ->
  (pos_act (uns_position (addBeat st beat now)),
   pos_phase (uns_position (addBeat st beat now)))
  = actPhaseAfter p (sb_narrativeFunction beat).
Proof.
  intros <-. unfold addBeat, actPhaseAfter.
  destruct (sb_narrativeFunction beat); reflexivity.
Qed.

(** C6 (amended).  After [addBeat]: [beatCount] is the length of the beat
    list after the push, that is the previous number of beats plus 1 (hence
    the previous [beatCount] plus 1 whenever that count agreed with the beat
    list); [currentBeatId] is the appended beat's id; [episodeBeatsCount] grows
    by exactly 1; the beat list is the old list followed by the new beat; act
    and phase follow the fixed mapping and are left alone by every other
    narrative function. *)
Theorem addBeat_effect (st : UnifiedNarrativeState) (beat : StoryBeat)
    (now : string) :
  let st' := addBeat st beat now in
  pos_beatCount (uns_position st') = (Z.of_nat (length (uns_beats st)) + 1)%Z /\
  (pos_beatCount (uns_position st) = Z.of_nat (length (uns_beats st)) ->
   pos_beatCount (uns_position st') = (pos_beatCount (uns_position st) + 1)%Z) /\
  pos_currentBeatId (uns_position st') = Some (sb_id beat) /\
  uns_episodeBeatsCount st' = (uns_episodeBeatsCount st + 1)%Z /\
  uns_beats st' = uns_beats st ++ [beat] /\
  (pos_act (uns_position st'), pos_phase (uns_position st'))
  = actPhaseAfter (uns_position st) (sb_narrativeFunction beat).
Proof.
  cbv zeta.
  assert (Hcount : pos_beatCount (uns_position (addBeat st beat now))
                   = (Z.of_nat (length (uns_beats st)) + 1)%Z).
  { unfold addBeat.
    destruct (if NarrativeFunction_eqb _ _ then _ else _) as [a p].
    cbn [uns_position pos_beatCount]. rewrite length_app. cbn [length]. lia. }
  split; [exact Hcount|].
  split; [intros E; rewrite Hcount, E; reflexivity|].
  split; [unfold addBeat; destruct (sb_narrativeFunction beat); reflexivity|].
  split; [unfold addBeat; destruct (sb_narrativeFunction beat); reflexivity|].
  split; [unfold addBeat; destruct (sb_narrativeFunction beat); reflexivity|].
  now apply actPhase_mapping.
Qed.

(** C6 as stated fails on a ledger whose [beatCount] (5) disagrees with its
    empty beat list: after one append [beatCount] is 1, not 6. *)
Lemma addBeat_beatCount_counterexample :
  let st := staleCountLedger in
  let st' := addBeat st (plainBeat "beat_1" 1 BEAT) "2024-01-02T00:00:00.000Z" in
  pos_beatCount (uns_position st) = 5%Z /\
  pos_beatCount (uns_position st') = 1%Z /\
  pos_beatCount (uns_position st') <> (pos_beatCount (uns_position st) + 1)%Z.
Proof.
  cbv zeta. split; [reflexivity|]. split; [reflexivity|].
  vm_compute. discriminate.
Qed.

Lemma updateCharacterArc_unknown st id impact description now :
  uns_characters st !! id = None ->
  inheritedProperty id = false ->
  updateCharacterArc st id impact description now = inl st.
Proof. intros H Hi. unfold updateCharacterArc. now rewrite H, Hi. Qed.

Lemma updateThemeStrength_unknown st id delta now :
  uns_themes st !! id = None ->
  inheritedProperty id = false ->
  updateThemeStrength st id delta now = st.
Proof. intros H Hi. unfold updateThemeStrength. now rewrite H, Hi. Qed.

Lemma updateCharacterArc_inherited st id impact description now :
  uns_characters st !! id = None ->
  inheritedProperty id = true ->
  updateCharacterArc st id impact description now
  = inr "TypeError: Cannot read properties of undefined (reading 'push')".
Proof. intros H Hi. unfold updateCharacterArc. now rewrite H, Hi. Qed.

Lemma updateThemeStrength_inherited st id delta now :
  uns_themes st !! id = None ->
  inheritedProperty id = true ->
  updateThemeStrength st id delta now = with_themes st (uns_themes st) now.
Proof. intros H Hi. unfold updateThemeStrength. now rewrite H, Hi. Qed.

Lemma Math_min_le_l (a b : Q) : (Math_min a b <= a)%Q.
Proof.
  destruct (Math_min_spec a b) as [[_ ->]|[H ->]];
    [apply Qle_refl|now apply Qlt_le_weak].
Qed.

Lemma clamp_unit (x : Q) : (0 <= Math_max 0 (Math_min 1 x) <= 1)%Q.
Proof.
  pose proof (Math_min_le_l 1 x) as Hm.
  destruct (Math_max_spec 0 (Math_min 1 x)) as [[H ->]|[H ->]].
  - split; assumption.
  - split; [apply Qle_refl|discriminate].
Qed.

Lemma updateCharacterArc_known st id impact description now c :
  uns_characters st !! id = Some c ->
  exists st' c',
    updateCharacterArc st id impact description now = inl st' /\
    uns_characters st' !! id = Some c' /\
    (cs_arcPosition c' <= 1)%Q /\
    (cs_arcPosition c' == Math_min 1 (cs_arcPosition c + impact))%Q.
Proof.
  intros H. unfold updateCharacterArc. rewrite H.
  eexists. eexists. split; [reflexivity|].
  cbn [uns_characters with_characters].
  split; [apply lookup_insert_eq|].
  cbn [cs_arcPosition]. split; [apply Math_min_le_l|reflexivity].
Qed.

Lemma updateThemeStrength_known st id delta now t :
  uns_themes st !! id = Some t ->
  exists t',
    uns_themes (updateThemeStrength st id delta now) !! id = Some t' /\
    (0 <= tt_strength t' <= 1)%Q.
Proof.
  intros H. unfold updateThemeStrength. rewrite H. cbn [uns_themes with_themes].
  eexists. split; [apply lookup_insert_eq|].
  cbn [tt_strength]. apply clamp_unit.
Qed.

Section BoundedLedger.

Variable st : UnifiedNarrativeState.
Hypothesis Ha : arcsBounded st.
Hypothesis Hs : strengthsBounded st.

Lemma run_call_bounded (c : UpdateCall) :
  arcsBounded (run_call st c) /\ strengthsBounded (run_call st c).
Proof.
  destruct c as [id impact description now|id delta now]; cbn [run_call].
  - unfold updateCharacterArc.
    destruct (uns_characters st !! id) as [ch|] eqn:E;
      [|destruct (inheritedProperty id); cbn [ledgerAfter]; split; assumption].
    cbn [ledgerAfter]. split; [|exact Hs].
    unfold arcsBounded. cbn [uns_characters with_characters].
    apply map_Forall_insert_2; [|exact Ha].
    cbn [cs_arcPosition]. apply Math_min_le_l.
  - unfold updateThemeStrength.
    destruct (uns_themes st !! id) as [th|] eqn:E;
      [|destruct (inheritedProperty id); split; assumption].
    split; [exact Ha|].
    unfold strengthsBounded. cbn [uns_themes with_themes].
    apply map_Forall_insert_2; [|exact Hs].
    cbn [tt_strength]. apply clamp_unit.
Qed.

End BoundedLedger.

Lemma run_calls_bounded cs : forall st,
  arcsBounded st -> strengthsBounded st ->
  arcsBounded (run_calls st cs) /\ strengthsBounded (run_calls st cs).
Proof.
  induction cs as [|c cs IH]; intros st Ha Hs; [split; assumption|].
  cbn [run_calls fold_left]. fold (run_calls (run_call st c) cs).
  destruct (run_call_bounded st Ha Hs c) as [Ha' Hs'].
  now apply IH.
Qed.




(** * Perspective synthesis *)

Lemma determineLeadUniverse_cases e c s :
  In (determineLeadUniverse e c s) [ENGINEER; CEREMONY; STORY_ENGINE].
Proof. destruct (determineLeadUniverse e c s); cbn; tauto. Qed.

Lemma synthesize_absent st now :
  perspectiveAbsent st ->
  synthesizePerspectives st now
  = {| tus_event := tus_event st; tus_eventType := tus_eventType st;
       tus_engineerPerspective := tus_engineerPerspective st;
       tus_ceremonyPerspective := tus_ceremonyPerspective st;
       tus_storyEnginePerspective := tus_storyEnginePerspective st;
       tus_analysis := tus_analysis st;
       tus_leadUniverse := tus_leadUniverse st;
       tus_coherenceScore := tus_coherenceScore st;
       tus_error := Some missingPerspectives |}.
Proof.
  unfold perspectiveAbsent, synthesizePerspectives.
  destruct (tus_engineerPerspective st), (tus_ceremonyPerspective st),
    (tus_storyEnginePerspective st); intros [H|[H|H]];
    try discriminate H; reflexivity.
Qed.

Lemma synthesize_present st now e c s :
  tus_engineerPerspective st = Some e ->
  tus_ceremonyPerspective st = Some c ->
  tus_storyEnginePerspective st = Some s ->
  synthesizePerspectives st now
  = {| tus_event := tus_event st; tus_eventType := tus_eventType st;
       tus_engineerPerspective := Some e;
       tus_ceremonyPerspective := Some c;
       tus_storyEnginePerspective := Some s;
       tus_analysis :=
         Some (createThreeUniverseAnalysis e c s (determineLeadUniverse e c s)
                 (calculateCoherence e c s) now);
       tus_leadUniverse := Some (determineLeadUniverse e c s);
       tus_coherenceScore := Some (calculateCoherence e c s);
       tus_error := tus_error st |}.
Proof.
  intros He Hc Hs. unfold synthesizePerspectives. rewrite He, Hc, Hs.
  reflexivity.
Qed.

Lemma present_or_absent st :
  perspectiveAbsent st \/
  exists e c s, tus_engineerPerspective st = Some e /\
                tus_ceremonyPerspective st = Some c /\
                tus_storyEnginePerspective st = Some s.
Proof.
  unfold perspectiveAbsent.
  destruct (tus_engineerPerspective st) as [e|]; [|tauto].
  destruct (tus_ceremonyPerspective st) as [c|]; [|tauto].
  destruct (tus_storyEnginePerspective st) as [s|]; [|tauto].
  right. exists e, c, s. tauto.
Qed.

(** C3.  [synthesizePerspectives] signals "Missing one or more perspectives"
    exactly when one of the three perspectives is absent (it then leaves
    analysis and lead untouched); when all three are present it raises no
    error of its own and yields an analysis whose lead universe is one of
    engineer, ceremony, story_engine, each of which occurs for some event. *)
Theorem synthesis_completeness :
  (forall st now,
     perspectiveAbsent st ->
     tus_error (synthesizePerspectives st now) = Some missingPerspectives /\
     tus_analysis (synthesizePerspectives st now) = tus_analysis st /\
     tus_leadUniverse (synthesizePerspectives st now) = tus_leadUniverse st) /\
  (forall st now,
     ~ perspectiveAbsent st ->
     tus_error (synthesizePerspectives st now) = tus_error st /\
     exists lead analysis,
       tus_leadUniverse (synthesizePerspectives st now) = Some lead /\
       In lead [ENGINEER; CEREMONY; STORY_ENGINE] /\
       tus_analysis (synthesizePerspectives st now) = Some analysis /\
       tua_leadUniverse analysis = lead) /\
  (forall st now,
     tus_error st = None ->
     (tus_error (synthesizePerspectives st now) = Some missingPerspectives
      <-> perspectiveAbsent st)) /\
  (forall lead,
     In lead [ENGINEER; CEREMONY; STORY_ENGINE] ->
     exists content,
       let st := classified (contentEvent content) "user.input" in
       ~ perspectiveAbsent st /\
       tus_leadUniverse (synthesizePerspectives st "") = Some lead).
Proof.
  split; [|split; [|split]].
  - intros st now H. rewrite (synthesize_absent st now H). repeat split.
  - intros st now H.
    destruct (present_or_absent st) as [Ha|(e & c & s & He & Hc & Hs)];
      [contradiction|].
    rewrite (synthesize_present st now e c s He Hc Hs).
    split; [reflexivity|].
    exists (determineLeadUniverse e c s). eexists.
    split; [reflexivity|]. split; [apply determineLeadUniverse_cases|].
    split; reflexivity.
  - intros st now Herr. split.
    + intros H.
      destruct (present_or_absent st) as [Ha|(e & c & s & He & Hc & Hs)];
        [exact Ha|].
      rewrite (synthesize_present st now e c s He Hc Hs) in H.
      cbn in H. congruence.
    + intros H. now rewrite (synthesize_absent st now H).
  - intros lead Hl. cbn in Hl.
    destruct Hl as [<-|[<-|[<-|[]]]].
    + exists "security". cbv zeta. split.
      * unfold perspectiveAbsent. vm_compute. intuition discriminate.
      * vm_compute. reflexivity.
    + exists "my first commit". cbv zeta. split.
      * unfold perspectiveAbsent. vm_compute. intuition discriminate.
      * vm_compute. reflexivity.
    + exists "critical urgent blocker". cbv zeta. split.
      * unfold perspectiveAbsent. vm_compute. intuition discriminate.
      * vm_compute. reflexivity.
Qed.

(** The success case of the theorem after classifying the text "security". *)
Lemma synthesis_completeness_witness :
  let st := classified (contentEvent "security") "user.input" in
  let st' := synthesizePerspectives st "2024-01-01T00:00:00.000Z" in
  tus_error st' = tus_error st /\
  exists lead analysis,
    tus_leadUniverse st' = Some lead /\
    In lead [ENGINEER; CEREMONY; STORY_ENGINE] /\
    tus_analysis st' = Some analysis /\
    tua_leadUniverse analysis = lead.
Proof.
  apply (proj1 (proj2 synthesis_completeness)).
  unfold perspectiveAbsent. vm_compute. intuition discriminate.
Defined.

(** * Coherence of the three perspectives *)

Lemma clamp01_clamp (x y : Q) :
  (x == y)%Q -> (Math_max 0 (Math_min 1 x) == clamp01 y)%Q.
Proof.
  intros E. unfold clamp01.
  destruct (Qltb y 0) eqn:E0; [|destruct (Qltb 1 y) eqn:E1].
  - apply Qltb_lt in E0.
    destruct (Math_min_spec 1 x) as [[H ->]|[H ->]];
      destruct (Math_max_spec 0 1) as [[H1 E1]|[H1 E1]];
      destruct (Math_max_spec 0 x) as [[H2 E2]|[H2 E2]];
      try rewrite E1; try rewrite E2; lra.
  - apply Qltb_ge in E0. apply Qltb_lt in E1.
    destruct (Math_min_spec 1 x) as [[H ->]|[H ->]];
      destruct (Math_max_spec 0 1) as [[H1 E3]|[H1 E3]];
      destruct (Math_max_spec 0 x) as [[H2 E2]|[H2 E2]];
      try rewrite E3; try rewrite E2; lra.
  - apply Qltb_ge in E0. apply Qltb_ge in E1.
    destruct (Math_min_spec 1 x) as [[H ->]|[H ->]];
      destruct (Math_max_spec 0 1) as [[H1 E3]|[H1 E3]];
      destruct (Math_max_spec 0 x) as [[H2 E2]|[H2 E2]];
      try rewrite E3; try rewrite E2; lra.
Qed.

Lemma max_of_three (a b c : Q) :
  (Math_max_list a [b; c] == max3 a b c)%Q.
Proof.
  unfold Math_max_list, max3. cbn [fold_left].
  destruct (Qle_bool b a) eqn:E1; destruct (Qle_bool c a) eqn:E2;
    destruct (Qle_bool c b) eqn:E3; cbn [andb];
    try apply Qle_bool_iff in E1; try apply Qle_bool_iff in E2;
    try apply Qle_bool_iff in E3;
    destruct (Math_max_spec a b) as [[H1 ->]|[H1 ->]];
    match goal with
    | |- (Math_max ?x ?y == _)%Q =>
        destruct (Math_max_spec x y) as [[H2 ->]|[H2 ->]]
    end;
    try lra;
    try (assert (~ (b <= a)%Q) by (intros Hle; apply Qle_bool_iff in Hle; congruence));
    try (assert (~ (c <= a)%Q) by (intros Hle; apply Qle_bool_iff in Hle; congruence));
    try (assert (~ (c <= b)%Q) by (intros Hle; apply Qle_bool_iff in Hle; congruence));
    lra.
Qed.

Lemma min_of_three (a b c : Q) :
  (Math_min_list a [b; c] == min3 a b c)%Q.
Proof.
  unfold Math_min_list, min3. cbn [fold_left].
  destruct (Qle_bool a b) eqn:E1; destruct (Qle_bool a c) eqn:E2;
    destruct (Qle_bool b c) eqn:E3; cbn [andb];
    try apply Qle_bool_iff in E1; try apply Qle_bool_iff in E2;
    try apply Qle_bool_iff in E3;
    destruct (Math_min_spec a b) as [[H1 ->]|[H1 ->]];
    match goal with
    | |- (Math_min ?x ?y == _)%Q =>
        destruct (Math_min_spec x y) as [[H2 ->]|[H2 ->]]
    end;
    try lra;
    try (assert (~ (a <= b)%Q) by (intros Hle; apply Qle_bool_iff in Hle; congruence));
    try (assert (~ (a <= c)%Q) by (intros Hle; apply Qle_bool_iff in Hle; congruence));
    try (assert (~ (b <= c)%Q) by (intros Hle; apply Qle_bool_iff in Hle; congruence));
    lra.
Qed.

Lemma urgency_votes (e c s : UniversePerspective) :
  Nat.leb 2 (length (List.filter (fun b : bool => b)
      [ array_includes ["security"; "bug_fix"; "performance"] (up_intent e);
        opt_is (ctx_senderEnergy (up_context c)) "urgent_flow";
        tensionAbove (up_context s) (7 # 10) ]))
  = atLeastTwo (engineerIsUrgent e) (ceremonyIsUrgent c) (storyIsUrgent s).
Proof.
  unfold engineerIsUrgent, ceremonyIsUrgent, storyIsUrgent, opt_is,
    tensionAbove, array_includes, atLeastTwo. cbn [existsb].
  destruct (String.eqb (up_intent e) "security");
    destruct (String.eqb (up_intent e) "bug_fix");
    destruct (String.eqb (up_intent e) "performance");
    destruct (ctx_senderEnergy (up_context c)) as [en|];
    try destruct (String.eqb en "urgent_flow");
    destruct (ctx_dramaticTension (up_context s)) as [t|];
    try destruct (Qltb (7 # 10) t); reflexivity.
Qed.

Lemma calculateCoherence_formula (e c s : UniversePerspective) :
  calculateCoherence e c s = coherenceFormula e c s.
Proof.
  unfold calculateCoherence, coherenceFormula, round2, Math_round.
  cbv zeta. cbn [tl]. rewrite urgency_votes.
  f_equal. f_equal. apply Qfloor_comp.
  apply Qplus_comp; [|reflexivity].
  apply Qmult_comp; [|reflexivity].
  apply clamp01_clamp.
  rewrite max_of_three, min_of_three. reflexivity.
Qed.

(** C8.  With all three perspectives present, the coherence score of the
    synthesis equals [coherenceFormula]: clamp to [0,1] of the mean confidence
    plus the alignment bonus (0.1 when at least two of the urgency conditions
    hold) minus 0.2 × (max − min confidence), rounded to two decimals. *)
Theorem coherence_score_formula (st : ThreeUniverseState) (now : string)
    (e c s : UniversePerspective) :
  tus_engineerPerspective st = Some e ->
  tus_ceremonyPerspective st = Some c ->
  tus_storyEnginePerspective st = Some s ->
  tus_coherenceScore (synthesizePerspectives st now)
  = Some (coherenceFormula e c s).
Proof.
  intros He Hc Hs. rewrite (synthesize_present st now e c s He Hc Hs).
  cbn [tus_coherenceScore]. now rewrite calculateCoherence_formula.
Qed.

(** The theorem at the README's event; the score there is 0.66. *)
Lemma coherence_score_formula_witness :
  let st :=
    classified
      (contentEvent "feat: implement new feature together with team")
      "github.push" in
  exists e c s,
    tus_engineerPerspective st = Some e /\
    tus_ceremonyPerspective st = Some c /\
    tus_storyEnginePerspective st = Some s /\
    tus_coherenceScore (synthesizePerspectives st "2024-01-01T00:00:00.000Z")
    = Some (coherenceFormula e c s) /\
    (coherenceFormula e c s == 66 # 100)%Q.
Proof.
  cbv zeta. eexists _, _, _.
  split; [vm_compute; reflexivity|].
  split; [vm_compute; reflexivity|].
  split; [vm_compute; reflexivity|].
  split.
  - apply (coherence_score_formula
             (classified
                (contentEvent "feat: implement new feature together with team")
                "github.push")
             "2024-01-01T00:00:00.000Z"); vm_compute; reflexivity.
  - vm_compute. reflexivity.
Defined.

(** * Confidence bounds *)

Lemma ratio_nonneg (a b : nat) : (0 <= ratio a b)%Q.
Proof. unfold ratio, Qle. cbn. lia. Qed.

Lemma scoreIntents_nonneg norm keywords contentLower :
  Forall (fun p => (0 <= snd p)%Q) (scoreIntents norm keywords contentLower).
Proof.
  unfold scoreIntents. induction keywords as [|[intent terms] r IH];
    cbn [flat_map]; [constructor|].
  apply Forall_app. split; [|exact IH].
  destruct (Nat.ltb 0 _); [|constructor].
  constructor; [apply ratio_nonneg|constructor].
Qed.

Lemma assoc_get_nonneg (l : list (string * Q)) (k : string) :
  Forall (fun p => (0 <= snd p)%Q) l -> (0 <= scoreOf l k)%Q.
Proof.
  unfold scoreOf. induction 1 as [|[k' v] r Hv Hr IH]; cbn [assoc_get].
  - apply Qle_refl.
  - destruct (String.eqb k' k); [exact Hv|exact IH].
Qed.

Lemma assoc_set_nonneg (l : list (string * Q)) (k : string) (v : Q) :
  (0 <= v)%Q ->
  Forall (fun p => (0 <= snd p)%Q) l ->
  Forall (fun p => (0 <= snd p)%Q) (assoc_set l k v).
Proof.
  intros Hv. induction 1 as [|[k' v'] r Hv' Hr IH]; cbn [assoc_set].
  - constructor; [exact Hv|constructor].
  - destruct (String.eqb k' k); constructor; assumption.
Qed.

Lemma primaryIntent_bounds scores base fallbackIntent fallbackConfidence lo :
  Forall (fun p => (0 <= snd p)%Q) scores ->
  (lo <= base)%Q -> (lo <= 95 # 100)%Q ->
  (lo <= fallbackConfidence <= 95 # 100)%Q ->
  (lo <= snd (primaryIntent scores base fallbackIntent fallbackConfidence)
   <= 95 # 100)%Q.
Proof.
  intros Hs Hb Hlo Hf. unfold primaryIntent.
  destruct (reduce_best scores) as [[intent v]|]; cbn [snd]; [|exact Hf].
  pose proof (assoc_get_nonneg scores intent Hs) as Hn.
  destruct (Math_min_spec (95 # 100) (base + scoreOf scores intent * (4 # 10)))
    as [[H ->]|[H ->]]; split; lra.
Qed.

Lemma engineerConfidence_bounds event eventType :
  (5 # 10 <= engineerConfidence event eventType <= 95 # 100)%Q.
Proof.
  unfold engineerConfidence, analyzeEngineerPerspective.
  cbv zeta.
  pose proof (primaryIntent_bounds
                (scoreIntents toLowerCase engineerIntentKeywords
                   (toLowerCase (engineerContent (tus_event (initialState event eventType)))))
                (6 # 10) "maintenance" (5 # 10) (5 # 10)
                (scoreIntents_nonneg _ _ _)) as H.
  destruct (primaryIntent _ _ _ _) as [intent confidence].
  cbn [snd] in H. cbn [with_engineer tus_engineerPerspective confidenceOf
                       createUniversePerspective up_confidence].
  apply H; try split; lra.
Qed.

Lemma storyEngineConfidence_bounds event eventType :
  (5 # 10 <= storyEngineConfidence event eventType <= 95 # 100)%Q.
Proof.
  unfold storyEngineConfidence, analyzeStoryEnginePerspective.
  cbv zeta.
  pose proof (primaryIntent_bounds
                (scoreIntents (fun t => t) storyEngineIntentKeywords
                   (toLowerCase (extractContent (tus_event (initialState event eventType)))))
                (55 # 100) "rising_action" (5 # 10) (5 # 10)
                (scoreIntents_nonneg _ _ _)) as H.
  destruct (primaryIntent _ _ _ _) as [intent confidence].
  cbn [snd] in H. cbn [with_storyEngine tus_storyEnginePerspective confidenceOf
                       createUniversePerspective up_confidence].
  apply H; try split; lra.
Qed.

Lemma ceremonyConfidence_bounds event eventType :
  (5 # 10 <= ceremonyConfidence event eventType <= 95 # 100)%Q.
Proof.
  unfold ceremonyConfidence, analyzeCeremonyPerspective.
  cbv zeta.
  set (scores0 := scoreIntents (fun t => t) ceremonyIntentKeywords _).
  set (scores := if Nat.ltb 1 _ then _ else scores0).
  assert (Hs0 : Forall (fun p => (0 <= snd p)%Q) scores0)
    by apply scoreIntents_nonneg.
  assert (Hs : Forall (fun p => (0 <= snd p)%Q) scores).
  { unfold scores. destruct (Nat.ltb 1 _); [|exact Hs0].
    apply assoc_set_nonneg; [|exact Hs0].
    pose proof (assoc_get_nonneg scores0 "co_creation" Hs0). lra. }
  pose proof (primaryIntent_bounds scores (5 # 10) "individual_offering"
                (6 # 10) (5 # 10) Hs) as H.
  destruct (primaryIntent _ _ _ _) as [intent confidence].
  cbn [snd] in H. cbn [with_ceremony tus_ceremonyPerspective confidenceOf
                       createUniversePerspective up_confidence].
  apply H; try split; lra.
Qed.

Lemma calculateCoherence_bounds e c s :
  (0 <= calculateCoherence e c s <= 1)%Q.
Proof.
  unfold calculateCoherence. cbv zeta.
  match goal with
  | |- (0 <= round2 (Math_max 0 (Math_min 1 ?x)) <= 1)%Q =>
      generalize x; intros x0
  end.
  pose proof (clamp_unit x0) as [Hlo Hhi].
  revert Hlo Hhi. generalize (Math_max 0 (Math_min 1 x0)). intros y Hlo Hhi.
  unfold round2, Math_round.
  assert (H0 : (0 <= Qfloor (y * 100 + (1 # 2)))%Z).
  { change 0%Z with (Qfloor 0). apply Qfloor_resp_le. lra. }
  assert (H1 : (Qfloor (y * 100 + (1 # 2)) <= 100)%Z).
  { apply Z.le_trans with (Qfloor (100 + (1 # 2))).
    - apply Qfloor_resp_le. lra.
    - vm_compute. discriminate. }
  revert H0 H1. generalize (Qfloor (y * 100 + (1 # 2))). intros z H0 H1.
  split.
  - apply Qle_shift_div_l; [reflexivity|].
    rewrite Qmult_0_l. change 0%Q with (inject_Z 0). rewrite <- Zle_Qle. exact H0.
  - apply Qle_shift_div_r; [reflexivity|].
    rewrite Qmult_1_l. change 100%Q with (inject_Z 100). rewrite <- Zle_Qle. exact H1.
Qed.

(** * The analysis pipeline *)

Lemma scoredState_inputs beats characters themes :
  ces_beats (scoredState beats characters themes) = beats /\
  ces_characters (scoredState beats characters themes) = characters /\
  ces_themes (scoredState beats characters themes) = themes.
Proof. repeat split. Qed.

Lemma scoredState_score key beats characters themes :
  get_state_score (scoredState beats characters themes) key
  = Some (componentFor key beats characters themes).
Proof. destruct key; reflexivity. Qed.

Section GapsOfOneComponent.

Variable key : ComponentKey.
Variable ty : GapType.
Variable comp : ComponentScore.

Lemma gapsOfComponent_spec :
  forall gaps engine,
    gapsOfComponent key ty comp (gaps, engine)
    = (gaps ++ gapsFrom key ty comp (gapCounter engine),
       {| strictMode := strictMode engine;
          gapCounter := gapCounter engine + length (comp_issues comp) |}).
Proof.
  unfold gapsOfComponent, gapsFrom.
  generalize (severityFor comp) as sev. intros sev.
  induction (comp_issues comp) as [|issue issues IH]; intros gaps engine.
  - cbn. rewrite app_nil_r, Nat.add_0_r. now destruct engine.
  - cbn [fold_left generateGapId]. rewrite IH.
    cbn [gapCounter strictMode length seq combine map].
    rewrite <- app_assoc. cbn [app].
    replace (gapCounter engine + 1 + 1)%nat with (S (gapCounter engine + 1))
      by lia.
    f_equal. f_equal. lia.
Qed.

Lemma gapsFrom_length (n : nat) :
  length (gapsFrom key ty comp n) = length (comp_issues comp).
Proof.
  unfold gapsFrom. rewrite length_map, length_combine, length_seq. lia.
Qed.

Lemma gapsFrom_ids (n : nat) :
  map gap_id (gapsFrom key ty comp n)
  = map (fun k => "gap_" +:+ dec k) (seq (n + 1) (length (comp_issues comp))).
Proof.
  unfold gapsFrom. generalize (n + 1)%nat as m.
  induction (comp_issues comp) as [|issue issues IH]; intros m; [reflexivity|].
  cbn [length seq combine map]. f_equal. apply IH.
Qed.

Lemma gapsFrom_descriptions (n : nat) :
  map gap_description (gapsFrom key ty comp n) = comp_issues comp.
Proof.
  unfold gapsFrom. generalize (n + 1)%nat as m.
  generalize (severityFor comp) as sev. intros sev.
  induction (comp_issues comp) as [|issue issues IH]; intros m; [reflexivity|].
  cbn [length seq combine map]. f_equal. apply IH.
Qed.

Lemma gapsFrom_In (n : nat) (g : Gap) :
  In g (gapsFrom key ty comp n) ->
  gap_location g = Some key /\ gap_gapType g = ty /\
  In (gap_description g) (comp_issues comp) /\
  gap_severity g = severityFor comp (gap_description g) /\
  gap_suggestedRoute g = routeFor ty.
Proof.
  unfold gapsFrom. intros H. apply in_map_iff in H.
  destruct H as [[k issue] [<- Hin]]. apply in_combine_r in Hin.
  cbn. tauto.
Qed.

End GapsOfOneComponent.

Lemma emittedGaps_spec beats characters themes engine :
  let comp key := componentFor key beats characters themes in
  let n0 := gapCounter engine in
  let n1 := (n0 + length (comp_issues (comp narrativeFlowScore)))%nat in
  let n2 := (n1 + length (comp_issues (comp characterConsistencyScore)))%nat in
  let n3 := (n2 + length (comp_issues (comp pacingScore)))%nat in
  let n4 := (n3 + length (comp_issues (comp themeSaturationScore)))%nat in
  let n5 := (n4 + length (comp_issues (comp continuityScore)))%nat in
  emittedGaps (scoredState beats characters themes) engine
  = (gapsFrom narrativeFlowScore STRUCTURAL (comp narrativeFlowScore) n0
     ++ gapsFrom characterConsistencyScore CHARACTER
          (comp characterConsistencyScore) n1
     ++ gapsFrom pacingScore STRUCTURAL (comp pacingScore) n2
     ++ gapsFrom themeSaturationScore THEMATIC (comp themeSaturationScore) n3
     ++ gapsFrom continuityScore CONTINUITY (comp continuityScore) n4,
     {| strictMode := strictMode engine; gapCounter := n5 |}).
Proof.
  cbv zeta. unfold emittedGaps, componentMappings. cbn [fold_left].
  rewrite !scoredState_score. rewrite !gapsOfComponent_spec.
  cbn [gapCounter strictMode app]. rewrite <- !app_assoc. reflexivity.
Qed.

(** Closes [Forall (fun y => gapLe g y = b) l] when every gap of [l] has the
    severity recorded in [H] and [g] has the one recorded in [E]. *)
Ltac gapLe_by E H :=
  eapply List.Forall_impl; [|exact H];
  cbn; intros ? Hy; unfold gapLe; rewrite E, Hy; reflexivity.

Lemma filter_hasSeverity (s : GapSeverity) (l : list Gap) :
  Forall (fun y => gap_severity y = s) (List.filter (hasSeverity s) l).
Proof.
  apply List.Forall_forall. intros y Hy.
  apply List.filter_In in Hy. destruct Hy as [_ Hy].
  unfold hasSeverity, GapSeverity_eqb in Hy.
  destruct (gap_severity y), s; cbn in Hy; congruence.
Qed.

Lemma js_sort_bySeverity (gaps : list Gap) :
  js_sort gapLe gaps = bySeverity gaps.
Proof.
  unfold bySeverity. induction gaps as [|g r IH]; [reflexivity|].
  cbn [js_sort fold_right]. fold (js_sort gapLe r). rewrite IH.
  pose proof (filter_hasSeverity CRITICAL r) as Hc.
  pose proof (filter_hasSeverity MODERATE r) as Hm.
  pose proof (filter_hasSeverity MINOR r) as Hn.
  cbn [List.filter].
  assert (Hg : forall s, hasSeverity s g
                         = GapSeverity_eqb (gap_severity g) s) by reflexivity.
  rewrite !Hg.
  destruct (gap_severity g) eqn:E;
    cbn [GapSeverity_eqb severityOrder Nat.eqb app].
  - apply sort_insert_front. rewrite !Forall_app.
    repeat split; [gapLe_by E Hc|gapLe_by E Hm|gapLe_by E Hn].
  - rewrite sort_insert_skip; [|gapLe_by E Hc].
    f_equal. apply sort_insert_front. rewrite Forall_app.
    split; [gapLe_by E Hm|gapLe_by E Hn].
  - rewrite sort_insert_skip; [|gapLe_by E Hc].
    f_equal. rewrite sort_insert_skip; [|gapLe_by E Hm].
    f_equal. apply sort_insert_front. gapLe_by E Hn.
Qed.

Lemma analyzeState_fst engine beats characters themes now :
  fst (analyzeState engine beats characters themes now)
  = buildCoherenceResult
      (generateTrinityAssessment
         (fst (identifyGaps (scoredState beats characters themes) engine)))
      now.
Proof.
  unfold analyzeState. fold (scoredState beats characters themes).
  now destruct (identifyGaps (scoredState beats characters themes) engine).
Qed.

Lemma analyzeState_snd engine beats characters themes now :
  snd (analyzeState engine beats characters themes now)
  = snd (identifyGaps (scoredState beats characters themes) engine).
Proof.
  unfold analyzeState. fold (scoredState beats characters themes).
  now destruct (identifyGaps (scoredState beats characters themes) engine).
Qed.

Lemma identifyGaps_frame (s : CoherenceEngineState)
    (engine : NarrativeCoherenceEngine) :
  let s' := fst (identifyGaps s engine) in
  ces_beats s' = ces_beats s /\ ces_characters s' = ces_characters s /\
  ces_themes s' = ces_themes s /\
  (forall key, get_state_score s' key = get_state_score s key) /\
  ces_gaps s' = Some (js_sort gapLe (fst (emittedGaps s engine))) /\
  snd (identifyGaps s engine) = snd (emittedGaps s engine).
Proof.
  cbv zeta. unfold identifyGaps.
  destruct (emittedGaps s engine) as [gaps engine'].
  cbn [fst snd ces_beats ces_characters ces_themes ces_gaps].
  repeat split; try (intros key; destruct key; reflexivity).
Qed.

Lemma generateTrinityAssessment_frame (s : CoherenceEngineState) :
  let s' := generateTrinityAssessment s in
  ces_beats s' = ces_beats s /\ ces_characters s' = ces_characters s /\
  ces_themes s' = ces_themes s /\
  (forall key, get_state_score s' key = get_state_score s key) /\
  ces_gaps s' = ces_gaps s /\
  exists ta, ces_trinityAssessment s' = Some ta.
Proof.
  cbv zeta. unfold generateTrinityAssessment.
  cbn [ces_beats ces_characters ces_themes ces_gaps ces_trinityAssessment].
  repeat split; try (intros key; destruct key; reflexivity).
  eexists. reflexivity.
Qed.

Lemma buildCoherenceResult_frame (s : CoherenceEngineState) (now : string) :
  let s' := buildCoherenceResult s now in
  ces_beats s' = ces_beats s /\ ces_characters s' = ces_characters s /\
  ces_themes s' = ces_themes s /\
  (forall key, get_state_score s' key = get_state_score s key) /\
  ces_gaps s' = ces_gaps s /\
  ces_trinityAssessment s' = ces_trinityAssessment s /\
  exists cs, ces_coherenceScore s' = Some cs.
Proof.
  cbv zeta. unfold buildCoherenceResult.
  cbn [ces_beats ces_characters ces_themes ces_gaps ces_trinityAssessment
       ces_coherenceScore].
  repeat split; try (intros key; destruct key; reflexivity).
  eexists. reflexivity.
Qed.

Lemma analyzeState_spec engine beats characters themes now :
  let st := fst (analyzeState engine beats characters themes now) in
  let engine' := snd (analyzeState engine beats characters themes now) in
  let emitted := fst (emittedGaps (scoredState beats characters themes) engine) in
  ces_beats st = beats /\ ces_characters st = characters /\
  ces_themes st = themes /\
  (forall key, get_state_score st key
               = Some (componentFor key beats characters themes)) /\
  ces_gaps st = Some (bySeverity emitted) /\
  engine' = snd (emittedGaps (scoredState beats characters themes) engine) /\
  (exists cs ta, ces_coherenceScore st = Some cs /\
                 ces_trinityAssessment st = Some ta).
Proof.
  cbv zeta. rewrite analyzeState_fst, analyzeState_snd.
  destruct (scoredState_inputs beats characters themes) as (Hb0 & Hc0 & Ht0).
  pose proof (scoredState_score) as Hk0.
  revert Hb0 Hc0 Ht0. specialize (fun key => Hk0 key beats characters themes).
  revert Hk0. generalize (scoredState beats characters themes).
  intros s0 Hk0 Hb0 Hc0 Ht0.
  destruct (identifyGaps_frame s0 engine) as (Hb1 & Hc1 & Ht1 & Hk1 & Hg1 & He1).
  revert Hb1 Hc1 Ht1 Hk1 Hg1. rewrite He1.
  generalize (fst (identifyGaps s0 engine)). intros s1 Hb1 Hc1 Ht1 Hk1 Hg1.
  destruct (generateTrinityAssessment_frame s1)
    as (Hb2 & Hc2 & Ht2 & Hk2 & Hg2 & (ta & Hta)).
  revert Hb2 Hc2 Ht2 Hk2 Hg2 Hta.
  generalize (generateTrinityAssessment s1). intros s2 Hb2 Hc2 Ht2 Hk2 Hg2 Hta.
  destruct (buildCoherenceResult_frame s2 now)
    as (Hb3 & Hc3 & Ht3 & Hk3 & Hg3 & Hta3 & (cs & Hcs)).
  revert Hb3 Hc3 Ht3 Hk3 Hg3 Hta3 Hcs.
  generalize (buildCoherenceResult s2 now).
  intros s3 Hb3 Hc3 Ht3 Hk3 Hg3 Hta3 Hcs.
  split; [congruence|]. split; [congruence|]. split; [congruence|].
  split; [intros key; rewrite Hk3, Hk2, Hk1; apply Hk0|].
  split; [rewrite Hg3, Hg2, Hg1; now rewrite js_sort_bySeverity|].
  split; [reflexivity|].
  exists cs, ta. split; [exact Hcs|]. now rewrite Hta3.
Qed.

Lemma severityFor_spec (comp : ComponentScore) (issue : string) :
  (severityFor comp issue = CRITICAL <-> comp_status comp = status_critical) /\
  (comp_status comp <> status_critical ->
   (severityFor comp issue = MODERATE
    <-> mentionsRarelyOrDisappears issue = true) /\
   (severityFor comp issue = MINOR
    <-> mentionsRarelyOrDisappears issue = false)).
Proof.
  unfold severityFor, mentionsRarelyOrDisappears.
  destruct (comp_status comp);
    destruct (includes issue "rarely" || includes issue "disappears")%bool;
    repeat split; intros; try congruence; try discriminate.
Qed.

Lemma bySeverity_perm (gaps : list Gap) : Permutation (bySeverity gaps) gaps.
Proof. rewrite <- js_sort_bySeverity. apply js_sort_perm. Qed.

Lemma emitted_descriptions beats characters themes engine :
  map gap_description
      (fst (emittedGaps (scoredState beats characters themes) engine))
  = allIssues beats characters themes.
Proof.
  pose proof (emittedGaps_spec beats characters themes engine) as H.
  cbv zeta in H. rewrite H. cbn [fst].
  rewrite !map_app, !gapsFrom_descriptions.
  unfold allIssues, componentMappings. cbn [flat_map]. now rewrite app_nil_r.
Qed.

Lemma emitted_In beats characters themes engine g :
  In g (fst (emittedGaps (scoredState beats characters themes) engine)) ->
  exists key,
    gap_location g = Some key /\
    In (gap_description g)
       (comp_issues (componentFor key beats characters themes)) /\
    gap_severity g
    = severityFor (componentFor key beats characters themes) (gap_description g).
Proof.
  pose proof (emittedGaps_spec beats characters themes engine) as H.
  cbv zeta in H. rewrite H. cbn [fst]. clear H.
  rewrite !in_app_iff.
  intros [H|[H|[H|[H|H]]]]; apply gapsFrom_In in H;
    destruct H as (Hl & _ & Hi & Hs & _); eexists; repeat split; eassumption.
Qed.

Lemma resultGaps_spec engine beats characters themes now :
  resultGaps engine beats characters themes now
  = bySeverity (fst (emittedGaps (scoredState beats characters themes) engine)).
Proof.
  unfold resultGaps, analyze.
  pose proof (analyzeState_spec engine beats characters themes now) as H.
  cbv zeta in H.
  destruct (analyzeState engine beats characters themes now) as [st engine'].
  cbn [fst snd] in H.
  destruct H as (_ & _ & _ & _ & Hg & _ & (cs & ta & Hcs & Hta)).
  rewrite Hcs, Hta. cbn [fst cr_gaps]. now rewrite Hg.
Qed.

(** C9.  In every result of [analyze]: each gap comes from an issue of the
    component named in its location; it is critical exactly when that
    component's status is critical; from a non-critical component it is
    moderate exactly when the issue text contains "rarely" or "disappears",
    and minor otherwise; and the returned list holds the critical gaps, then
    the moderate, then the minor ones, each group in emission order. *)
Theorem gap_severity_and_order engine beats characters themes now :
  let st := fst (analyzeState engine beats characters themes now) in
  exists emitted : list Gap,
    map gap_description emitted = allIssues beats characters themes /\
    resultGaps engine beats characters themes now = bySeverity emitted /\
    forall g, In g (resultGaps engine beats characters themes now) ->
      exists key comp,
        gap_location g = Some key /\
        get_state_score st key = Some comp /\
        In (gap_description g) (comp_issues comp) /\
        (gap_severity g = CRITICAL <-> comp_status comp = status_critical) /\
        (comp_status comp <> status_critical ->
         (gap_severity g = MODERATE
          <-> mentionsRarelyOrDisappears (gap_description g) = true) /\
         (gap_severity g = MINOR
          <-> mentionsRarelyOrDisappears (gap_description g) = false)).
Proof.
  cbv zeta.
  exists (fst (emittedGaps (scoredState beats characters themes) engine)).
  split; [apply emitted_descriptions|].
  split; [apply resultGaps_spec|].
  intros g Hg. rewrite resultGaps_spec in Hg.
  apply (Permutation_in _ (bySeverity_perm _)) in Hg.
  apply emitted_In in Hg. destruct Hg as (key & Hl & Hi & Hs).
  exists key, (componentFor key beats characters themes).
  pose proof (analyzeState_spec engine beats characters themes now) as H.
  cbv zeta in H. destruct H as (_ & _ & _ & Hk & _).
  split; [exact Hl|]. split; [apply Hk|]. split; [exact Hi|].
  rewrite Hs. apply severityFor_spec.
Qed.

(** * Gap identifiers *)

Lemma gapId_inj (a b : nat) :
  "gap_" +:+ dec a = "gap_" +:+ dec b -> a = b.
Proof.
  change ("gap_" +:+ dec a)
    with (String "g" (String "a" (String "p" (String "_" (dec a))))).
  change ("gap_" +:+ dec b)
    with (String "g" (String "a" (String "p" (String "_" (dec b))))).
  intros H. injection H as H. now apply dec_inj.
Qed.

Lemma gapIds_NoDup (n len : nat) :
  List.NoDup (map (fun k => "gap_" +:+ dec k) (seq n len)).
Proof.
  revert n. induction len as [|len IH]; intros n; cbn [seq map].
  - constructor.
  - constructor; [|apply IH].
    intros H. apply in_map_iff in H. destruct H as [k [Hk Hin]].
    apply gapId_inj in Hk. apply in_seq in Hin. lia.
Qed.

Lemma emitted_ids beats characters themes engine :
  map gap_id (fst (emittedGaps (scoredState beats characters themes) engine))
  = map (fun k => "gap_" +:+ dec k)
        (seq (gapCounter engine + 1)
             (length (allIssues beats characters themes)))
  /\ snd (emittedGaps (scoredState beats characters themes) engine)
     = {| strictMode := strictMode engine;
          gapCounter := gapCounter engine
                        + length (allIssues beats characters themes) |}.
Proof.
  pose proof (emittedGaps_spec beats characters themes engine) as H.
  cbv zeta in H. rewrite H. cbn [fst snd]. clear H.
  unfold allIssues, componentMappings. cbn [flat_map].
  rewrite app_nil_r, !length_app, !map_app, !gapsFrom_ids.
  rewrite !seq_app, !map_app. split.
  - repeat (apply (f_equal2 (@app string)); [do 2 f_equal; lia|]).
    do 2 f_equal; lia.
  - f_equal. lia.
Qed.


(** * Score bounds *)

Lemma fifty_in_range : (0 <= 50 <= 100)%Q.
Proof. split; discriminate. Qed.

Lemma seventy_in_range : (0 <= 70 <= 100)%Q.
Proof. split; discriminate. Qed.

Lemma componentFor_bounds key beats characters themes :
  (0 <= comp_score (componentFor key beats characters themes) <= 100)%Q.
Proof.
  destruct key; cbn [componentFor].
  - unfold narrativeFlowComponent.
    destruct (Nat.ltb (length beats) 2); [exact fifty_in_range|].
    destruct (structureLoop _ _ _ _) as [h i1].
    destruct (toneLoop _ _ _ _ _) as [j i2].
    apply clamp100_bounds.
  - unfold characterConsistencyComponent.
    destruct (Nat.eqb (length characters) 0); [exact fifty_in_range|].
    destruct (fold_left _ (appearanceLoop _ _ _) _) as [i1 s1].
    apply clamp100_bounds.
  - unfold pacingComponent.
    destruct (Nat.ltb (length beats) 3); [exact fifty_in_range|].
    destruct (Nat.eqb _ 0); [|destruct (lastBeforeHalf _ _)];
      destruct (Nat.ltb 3 _); apply clamp100_bounds.
  - unfold themeSaturationComponent.
    destruct (Nat.eqb (length themes) 0); [exact fifty_in_range|].
    destruct (themeLoop _ _) as [[tc i1] s1].
    apply clamp100_bounds.
  - unfold continuityComponent.
    destruct (Nat.ltb (length beats) 2); [exact seventy_in_range|].
    destruct (negb (bool_decide _)); destruct (negb (Nat.eqb _ _));
      destruct (Nat.ltb 0 _ && Nat.leb _ 3)%bool; apply clamp100_bounds.
Qed.

Lemma componentsOf_keys (s : CoherenceEngineState) :
  componentsOf s
  = map (get_state_score s)
        [narrativeFlowScore; characterConsistencyScore; pacingScore;
         themeSaturationScore; continuityScore].
Proof. reflexivity. Qed.

Lemma componentScores_final engine beats characters themes now :
  componentScores (fst (analyzeState engine beats characters themes now))
  = map (fun key => comp_score (componentFor key beats characters themes))
        [narrativeFlowScore; characterConsistencyScore; pacingScore;
         themeSaturationScore; continuityScore].
Proof.
  pose proof (analyzeState_spec engine beats characters themes now) as H.
  cbv zeta in H. destruct H as (_ & _ & _ & Hk & _).
  revert Hk. generalize (fst (analyzeState engine beats characters themes now)).
  intros st Hk. unfold componentScores. rewrite componentsOf_keys.
  cbn [map flat_map]. rewrite !Hk. reflexivity.
Qed.

(** C2 (amended).  Every lens confidence lies in [0.5, 0.95] (for the
    Ceremony lens the lower bound is its base constant 0.5, not its fallback
    constant 0.6); every component score of the coherence engine lies in
    [0,100]; every synthesizer coherence value lies in [0,1]. *)
Theorem confidence_and_score_bounds :
  (forall event eventType,
     (5 # 10 <= engineerConfidence event eventType <= 95 # 100)%Q /\
     (5 # 10 <= ceremonyConfidence event eventType <= 95 # 100)%Q /\
     (5 # 10 <= storyEngineConfidence event eventType <= 95 # 100)%Q) /\
  (forall engine beats characters themes now,
     length (componentScores
               (fst (analyzeState engine beats characters themes now))) = 5%nat /\
     Forall (fun score => (0 <= score <= 100)%Q)
       (componentScores
          (fst (analyzeState engine beats characters themes now)))) /\
  (forall engineer ceremony storyEngine,
     (0 <= calculateCoherence engineer ceremony storyEngine <= 1)%Q).
Proof.
  split; [|split].
  - intros event eventType.
    split; [apply engineerConfidence_bounds|].
    split; [apply ceremonyConfidence_bounds|apply storyEngineConfidence_bounds].
  - intros engine beats characters themes now.
    rewrite componentScores_final. split; [reflexivity|].
    cbn [map]. repeat constructor; apply componentFor_bounds.
  - apply calculateCoherence_bounds.
Qed.

(** C2 as stated fails for the Ceremony lens: the text "pause" matches one
    of five sacred_pause terms, so the confidence is 0.5 + 0.2 × 0.4 = 0.58,
    below the fallback constant 0.6. *)
Lemma ceremony_fallback_bound_counterexample :
  let event := contentEvent "pause" in
  (ceremonyConfidence event "user.input" == 58 # 100)%Q /\
  ~ (6 # 10 <= ceremonyConfidence event "user.input")%Q.
Proof.
  cbv zeta. split; [vm_compute; reflexivity|].
  intros H. vm_compute in H. apply H. reflexivity.
Qed.

(* ===================================================================== *)
(** * Further properties                                                   *)
(* ===================================================================== *)

(** * Further ledger operations *)

Lemma slice_index_last (len : nat) (n : Z) :
  (0 < n)%Z -> slice_index len (- n) = (len - Z.to_nat n)%nat.
Proof.
  intros Hn. unfold slice_index.
  destruct (Z.ltb_spec (- n) 0); lia.
Qed.

Lemma slice_index_drop (len : nat) (n : Z) :
  (n <= 0)%Z -> slice_index len (- n) = Nat.min (Z.to_nat (- n)) len.
Proof.
  intros Hn. unfold slice_index.
  destruct (Z.ltb_spec (- n) 0); lia.
Qed.

(** X1.  For a positive [n], [getLastNBeats] returns the last
    [min(n, number of beats)] beats of the ledger, in ledger order. *)
Theorem getLastNBeats_suffix (state : UnifiedNarrativeState) (n : Z) :
  (0 < n)%Z ->
  exists earlier,
    uns_beats state = earlier ++ getLastNBeats state n /\
    length (getLastNBeats state n)
    = Nat.min (Z.to_nat n) (length (uns_beats state)).
Proof.
  intros Hn. unfold getLastNBeats, js_slice_from.
  rewrite slice_index_last by exact Hn.
  exists (firstn (length (uns_beats state) - Z.to_nat n) (uns_beats state)).
  split.
  - symmetry. apply firstn_skipn.
  - rewrite List.length_skipn. lia.
Qed.

Lemma getLastNBeats_suffix_witness :
  let state :=
    addBeats (createUnifiedNarrativeState "story_1" "session_1" true true "t0")
      [ (plainBeat "beat_1" 1 BEAT, "t1"); (plainBeat "beat_2" 2 BEAT, "t2");
        (plainBeat "beat_3" 3 BEAT, "t3") ] in
  exists earlier,
    uns_beats state = earlier ++ getLastNBeats state 2 /\
    length (getLastNBeats state 2)
    = Nat.min (Z.to_nat 2) (length (uns_beats state)).
Proof.
  cbv zeta. apply getLastNBeats_suffix. lia.
Defined.

(** X2.  [getLastNBeats] with [n = 0] returns every beat of the ledger, not
    an empty list, and with a negative [n] it drops the first [-n] beats. *)
Theorem getLastNBeats_nonpositive (state : UnifiedNarrativeState) (n : Z) :
  (n <= 0)%Z ->
  getLastNBeats state n = skipn (Z.to_nat (- n)) (uns_beats state) /\
  (n = 0%Z -> getLastNBeats state n = uns_beats state).
Proof.
  intros Hn. unfold getLastNBeats, js_slice_from.
  rewrite slice_index_drop by exact Hn.
  assert (E : skipn (Nat.min (Z.to_nat (- n)) (length (uns_beats state)))
                (uns_beats state)
              = skipn (Z.to_nat (- n)) (uns_beats state)).
  { destruct (Nat.le_ge_cases (Z.to_nat (- n)) (length (uns_beats state))).
    - now rewrite Nat.min_l.
    - rewrite Nat.min_r by assumption.
      rewrite !List.skipn_all2; [reflexivity|assumption|lia]. }
  split; [exact E|].
  intros ->. rewrite E. reflexivity.
Qed.

Lemma getLastNBeats_nonpositive_witness :
  let state :=
    addBeats (createUnifiedNarrativeState "story_1" "session_1" true true "t0")
      [ (plainBeat "beat_1" 1 BEAT, "t1"); (plainBeat "beat_2" 2 BEAT, "t2") ] in
  getLastNBeats state 0 = skipn (Z.to_nat (- 0)) (uns_beats state) /\
  (0%Z = 0%Z -> getLastNBeats state 0 = uns_beats state).
Proof.
  cbv zeta. apply getLastNBeats_nonpositive. lia.
Defined.

Lemma addBeat_beats (st : UnifiedNarrativeState) (beat : StoryBeat)
    (now : string) :
  uns_beats (addBeat st beat now) = uns_beats st ++ [beat].
Proof. unfold addBeat; destruct (sb_narrativeFunction beat); reflexivity. Qed.

Lemma addBeat_episodeBeatsCount (st : UnifiedNarrativeState)
    (beat : StoryBeat) (now : string) :
  uns_episodeBeatsCount (addBeat st beat now)
  = (uns_episodeBeatsCount st + 1)%Z.
Proof. unfold addBeat; destruct (sb_narrativeFunction beat); reflexivity. Qed.

(** X3.  The beat just appended is the last one [getLastNBeats] returns:
    asking for one beat gives exactly it, and asking for [n + 1] beats gives
    the [n] beats that were last before, followed by it. *)
Theorem getLastNBeats_after_addBeat (st : UnifiedNarrativeState)
    (beat : StoryBeat) (now : string) :
  getLastNBeats (addBeat st beat now) 1 = [beat] /\
  forall n, (1 <= n)%Z ->
    getLastNBeats (addBeat st beat now) (n + 1) = getLastNBeats st n ++ [beat].
Proof.
  assert (H : forall n, (0 <= n)%Z ->
            getLastNBeats (addBeat st beat now) (n + 1)
            = skipn (length (uns_beats st) - Z.to_nat n) (uns_beats st)
              ++ [beat]).
  { intros n Hn. unfold getLastNBeats, js_slice_from.
    rewrite slice_index_last by lia.
    rewrite addBeat_beats, length_app. cbn [length].
    rewrite List.skipn_app.
    replace (length (uns_beats st) + 1 - Z.to_nat (n + 1))%nat
      with (length (uns_beats st) - Z.to_nat n)%nat by lia.
    replace (length (uns_beats st) - Z.to_nat n - length (uns_beats st))%nat
      with 0%nat by lia.
    reflexivity. }
  split.
  - change 1%Z with (0 + 1)%Z. rewrite (H 0%Z) by lia.
    cbn [Z.to_nat]. rewrite Nat.sub_0_r.
    rewrite List.skipn_all. reflexivity.
  - intros n Hn. rewrite H by lia.
    unfold getLastNBeats, js_slice_from.
    rewrite slice_index_last by lia. reflexivity.
Qed.

Lemma fold_Qplus_bounds (l : list Q) (lo hi : Q) :
  Forall (fun x => (lo <= x <= hi)%Q) l ->
  forall a : Q,
    (a + inject_Z (Z.of_nat (length l)) * lo <= fold_left Qplus l a)%Q /\
    (fold_left Qplus l a <= a + inject_Z (Z.of_nat (length l)) * hi)%Q.
Proof.
  intros HF. induction HF as [|x l [Hlo Hhi] HF IH]; intros a.
  - change (inject_Z (Z.of_nat (length (@nil Q)))) with 0%Q.
    cbn [fold_left]. split; lra.
  - cbn [fold_left length]. destruct (IH (a + x)%Q) as [IH1 IH2]. clear IH.
    rewrite Nat2Z.inj_succ, <- Z.add_1_r, inject_Z_plus.
    revert IH1 IH2. generalize (inject_Z (Z.of_nat (length l))).
    intros k IH1 IH2. change (inject_Z 1) with 1%Q.
    split.
    + eapply Qle_trans; [|exact IH1]. lra.
    + eapply Qle_trans; [exact IH2|]. lra.
Qed.

Lemma mean_bounds (l : list Q) (lo hi : Q) :
  l <> [] ->
  Forall (fun x => (lo <= x <= hi)%Q) l ->
  (lo <= Qsum l / inject_Z (Z.of_nat (length l)) <= hi)%Q.
Proof.
  intros Hne HF. unfold Qsum.
  destruct (fold_Qplus_bounds l lo hi HF 0%Q) as [H1 H2].
  assert (Hpos : (0 < inject_Z (Z.of_nat (length l)))%Q).
  { change 0%Q with (inject_Z 0). rewrite <- Zlt_Qlt.
    destruct l; [congruence|cbn [length]; lia]. }
  split.
  - apply Qle_shift_div_l; [exact Hpos|]. lra.
  - apply Qle_shift_div_r; [exact Hpos|]. lra.
Qed.

Lemma calculateLedgerCoherence_nonempty (state : UnifiedNarrativeState) :
  uns_routingDecisions state <> [] ->
  let recent := js_slice_from (uns_routingDecisions state) (-20) in
  fst (calculateLedgerCoherence state)
  = (Qsum (map decisionCoherence recent)
     / inject_Z (Z.of_nat (length (map decisionCoherence recent))))%Q /\
  uns_overallCoherence (snd (calculateLedgerCoherence state))
  = fst (calculateLedgerCoherence state).
Proof.
  intros Hne. unfold calculateLedgerCoherence.
  destruct (uns_routingDecisions state) eqn:E; [congruence|].
  cbn [length Nat.eqb]. split; reflexivity.
Qed.

Lemma js_slice_from_In {A} (l : list A) (start : Z) (x : A) :
  In x (js_slice_from l start) -> In x l.
Proof.
  unfold js_slice_from. intros H.
  rewrite <- (firstn_skipn (slice_index (length l) start) l).
  apply in_or_app. now right.
Qed.

Lemma js_slice_from_last_nonempty {A} (l : list A) (n : Z) :
  (0 < n)%Z -> l <> [] -> js_slice_from l (- n) <> [].
Proof.
  intros Hn Hne E. apply (f_equal (@length A)) in E.
  unfold js_slice_from in E. rewrite List.length_skipn in E.
  rewrite slice_index_last in E by exact Hn.
  destruct l; [congruence|]. cbn [length] in E. lia.
Qed.

(** X4.  When the ledger holds at least one routing decision and the
    coherence scores of the recorded decisions lie in [[0, 1]], the value
    [calculateCoherence] returns lies in [[0, 1]], and it is the value stored
    in [overallCoherence].  (The bounds 0 and 1 are kept by the
    double-precision mean as well: the rounded sum of at most twenty numbers
    between 0 and 1 lies between 0 and their count.) *)
Theorem ledger_coherence_bounds (state : UnifiedNarrativeState) :
  uns_routingDecisions state <> [] ->
  (forall rd, In rd (uns_routingDecisions state) ->
              (0 <= decisionCoherence rd <= 1)%Q) ->
  (0 <= fst (calculateLedgerCoherence state) <= 1)%Q /\
  uns_overallCoherence (snd (calculateLedgerCoherence state))
  = fst (calculateLedgerCoherence state).
Proof.
  intros Hne Hall.
  destruct (calculateLedgerCoherence_nonempty state Hne) as [E1 E2].
  split; [|exact E2].
  rewrite E1. apply mean_bounds.
  - intros E. apply map_eq_nil in E.
    exact (js_slice_from_last_nonempty _ 20%Z eq_refl Hne E).
  - apply List.Forall_forall. intros x Hx.
    apply in_map_iff in Hx. destruct Hx as [rd [<- Hrd]].
    apply Hall. eapply js_slice_from_In; exact Hrd.
Qed.

Lemma ledger_coherence_bounds_witness :
  let state :=
    addRoutingDecision
      (addRoutingDecision freshLedger (plainDecision "route_1" (4 # 10)) "t1")
      (plainDecision "route_2" (8 # 10)) "t2" in
  (0 <= fst (calculateLedgerCoherence state) <= 1)%Q /\
  uns_overallCoherence (snd (calculateLedgerCoherence state))
  = fst (calculateLedgerCoherence state).
Proof.
  cbv zeta. apply ledger_coherence_bounds.
  - discriminate.
  - intros rd [<-|[<-|[]]]; split; discriminate.
Defined.

Lemma js_slice_from_window {A} (old recent : list A) (n : Z) :
  (0 < n)%Z -> length recent = Z.to_nat n ->
  js_slice_from (old ++ recent) (- n) = recent.
Proof.
  intros Hn Hlen. unfold js_slice_from.
  rewrite slice_index_last by exact Hn.
  rewrite length_app, Hlen.
  replace (length old + Z.to_nat n - Z.to_nat n)%nat with (length old) by lia.
  rewrite List.skipn_app, List.skipn_all, Nat.sub_diag. reflexivity.
Qed.

(** X5.  [calculateCoherence] of the ledger looks at the last twenty routing
    decisions only: with twenty or more decisions recorded, the result is
    the mean of the coherence scores of the last twenty, whatever the older
    decisions are. *)
Theorem ledger_coherence_window (state : UnifiedNarrativeState)
    (older recent : list RoutingDecision) :
  uns_routingDecisions state = older ++ recent ->
  length recent = 20%nat ->
  fst (calculateLedgerCoherence state)
  = (Qsum (map decisionCoherence recent) / 20)%Q.
Proof.
  intros E Hlen.
  assert (Hne : uns_routingDecisions state <> []).
  { rewrite E. destruct recent; [discriminate Hlen|].
    intros H. apply app_eq_nil in H. destruct H; discriminate. }
  destruct (calculateLedgerCoherence_nonempty state Hne) as [E1 _].
  rewrite E1, E.
  pose proof (js_slice_from_window older recent 20 eq_refl Hlen) as W.
  change (js_slice_from (older ++ recent) (Zneg 20) = recent) in W.
  rewrite W.
  rewrite length_map, Hlen. reflexivity.
Qed.

Lemma ledger_coherence_window_witness :
  let recent := repeat (plainDecision "route_new" (8 # 10)) 20 in
  let state :=
    fold_left (fun st rd => addRoutingDecision st rd "t")
      (plainDecision "route_old" (1 # 10) :: recent) freshLedger in
  fst (calculateLedgerCoherence state)
  = (Qsum (map decisionCoherence recent) / 20)%Q.
Proof.
  cbv zeta.
  apply (ledger_coherence_window _ [plainDecision "route_old" (1 # 10)]);
    reflexivity.
Defined.

(** X6.  On a ledger without routing decisions [calculateCoherence] answers
    0.5 and leaves the ledger as it is (the stored [overallCoherence] is
    neither returned nor touched); once one decision has been recorded with
    [addRoutingDecision] it answers that decision's coherence score and
    stores it. *)
Theorem ledger_coherence_first_decision (state : UnifiedNarrativeState)
    (decision : RoutingDecision) (now : string) :
  uns_routingDecisions state = [] ->
  calculateLedgerCoherence state = ((1 # 2)%Q, state) /\
  let state' := addRoutingDecision state decision now in
  (fst (calculateLedgerCoherence state') == decisionCoherence decision)%Q /\
  (uns_overallCoherence (snd (calculateLedgerCoherence state'))
   == decisionCoherence decision)%Q /\
  uns_routingDecisions (snd (calculateLedgerCoherence state')) = [decision].
Proof.
  intros E. split.
  - unfold calculateLedgerCoherence. rewrite E. reflexivity.
  - cbv zeta. unfold calculateLedgerCoherence, addRoutingDecision.
    cbn [uns_routingDecisions]. rewrite E.
    cbn [app length Nat.eqb fst snd uns_overallCoherence uns_routingDecisions].
    change (js_slice_from [decision] (-20)) with [decision].
    cbn [map length Z.of_nat]. unfold Qsum. cbn [fold_left].
    fold (decisionCoherence decision).
    change (inject_Z (Z.of_nat 1)) with 1%Q.
    repeat split; try reflexivity; field.
Qed.

Lemma ledger_coherence_first_decision_witness :
  calculateLedgerCoherence freshLedger = ((1 # 2)%Q, freshLedger) /\
  let state' :=
    addRoutingDecision freshLedger (plainDecision "route_1" (66 # 100)) "t1" in
  (fst (calculateLedgerCoherence state')
   == decisionCoherence (plainDecision "route_1" (66 # 100)))%Q /\
  (uns_overallCoherence (snd (calculateLedgerCoherence state'))
   == decisionCoherence (plainDecision "route_1" (66 # 100)))%Q /\
  uns_routingDecisions (snd (calculateLedgerCoherence state'))
  = [plainDecision "route_1" (66 # 100)].
Proof.
  apply (ledger_coherence_first_decision freshLedger). reflexivity.
Defined.

Lemma addBeats_beats (calls : list (StoryBeat * string)) :
  forall st, uns_beats (addBeats st calls) = uns_beats st ++ map fst calls.
Proof.
  unfold addBeats. induction calls as [|[beat now] calls IH]; intros st.
  - cbn. now rewrite app_nil_r.
  - cbn [fold_left map fst]. rewrite IH, addBeat_beats, <- app_assoc.
    reflexivity.
Qed.

Lemma addBeats_episodeBeatsCount (calls : list (StoryBeat * string)) :
  forall st,
    uns_episodeBeatsCount (addBeats st calls)
    = (uns_episodeBeatsCount st + Z.of_nat (length calls))%Z.
Proof.
  unfold addBeats. induction calls as [|[beat now] calls IH]; intros st.
  - cbn. lia.
  - cbn [fold_left length]. rewrite IH, addBeat_episodeBeatsCount. lia.
Qed.

Lemma NarrativeFunction_eqb_eq (a b : NarrativeFunction) :
  NarrativeFunction_eqb a b = true <-> a = b.
Proof.
  split.
  - destruct a, b; intros H; try reflexivity; discriminate H.
  - intros <-. destruct a; reflexivity.
Qed.

Lemma last_element_spec {A} (l : list A) (x : A) :
  (Nat.ltb 0 (length l) = true /\ nth_error l (length l - 1) = Some x)
  <-> exists earlier, l = earlier ++ [x].
Proof.
  split.
  - intros [_ H].
    destruct (exists_last (l := l)) as [earlier [y E]].
    { intros ->. discriminate H. }
    exists earlier. rewrite E in H |- *.
    rewrite length_app in H. cbn [length] in H.
    rewrite nth_error_app2 in H by lia.
    replace (length earlier + 1 - 1 - length earlier)%nat with 0%nat in H by lia.
    cbn in H. congruence.
  - intros [earlier ->]. rewrite length_app. cbn [length]. split.
    + apply Nat.ltb_lt. lia.
    + rewrite nth_error_app2 by lia.
      replace (length earlier + 1 - 1 - length earlier)%nat with 0%nat by lia.
      reflexivity.
Qed.

(** X7.  After [startNewEpisode], and any number of beats appended since,
    [shouldCreateNewEpisode] answers true exactly when at least twelve beats
    were appended since the episode started or the last beat of the ledger
    is a resolution beat.  The last beat may be one from before the episode
    started: starting an episode does not clear that trigger. *)
Theorem episode_trigger (st : UnifiedNarrativeState) (episodeId now : string)
    (calls : list (StoryBeat * string)) :
  shouldCreateNewEpisode (addBeats (startNewEpisode st episodeId now) calls)
  = true
  <-> (12 <= length calls)%nat \/
      exists earlier beat,
        uns_beats st ++ map fst calls = earlier ++ [beat] /\
        sb_narrativeFunction beat = RESOLUTION.
Proof.
  unfold shouldCreateNewEpisode.
  rewrite addBeats_episodeBeatsCount, addBeats_beats.
  cbn [startNewEpisode uns_episodeBeatsCount uns_beats].
  set (l := uns_beats st ++ map fst calls).
  destruct (Z.leb_spec 12 (0 + Z.of_nat (length calls))) as [H12|H12].
  - split; [intros _; left; lia|reflexivity].
  - split.
    + intros H.
      destruct (Nat.ltb 0 (length l)) eqn:Hlen; [|discriminate H].
      destruct (nth_error l (length l - 1)) as [beat|] eqn:Hnth;
        [|discriminate H].
      cbn [andb] in H.
      destruct (NarrativeFunction_eqb (sb_narrativeFunction beat) RESOLUTION)
        eqn:Hres; [|discriminate H].
      right.
      destruct (proj1 (last_element_spec l beat) (conj Hlen Hnth))
        as [earlier E].
      exists earlier, beat. split; [exact E|].
      now apply NarrativeFunction_eqb_eq.
    + intros [Hge|[earlier [beat [E Hres]]]]; [lia|].
      destruct (proj2 (last_element_spec l beat)) as [Hlen Hnth].
      { now exists earlier. }
      rewrite Hlen, Hnth. cbn [andb].
      rewrite (proj2 (NarrativeFunction_eqb_eq _ _) Hres). reflexivity.
Qed.

(** * The processor as a whole *)

Lemma analyzeEngineerPerspective_lens (st : ThreeUniverseState) :
  analyzeEngineerPerspective st = with_engineer st (engineerLens (tus_event st)).
Proof.
  unfold analyzeEngineerPerspective, engineerLens. cbv zeta.
  destruct (primaryIntent _ _ _ _). reflexivity.
Qed.

Lemma analyzeCeremonyPerspective_lens (st : ThreeUniverseState) :
  analyzeCeremonyPerspective st = with_ceremony st (ceremonyLens (tus_event st)).
Proof.
  unfold analyzeCeremonyPerspective, ceremonyLens. cbv zeta.
  destruct (primaryIntent _ _ _ _). reflexivity.
Qed.

Lemma analyzeStoryEnginePerspective_lens (st : ThreeUniverseState) :
  analyzeStoryEnginePerspective st
  = with_storyEngine st (storyEngineLens (tus_event st)).
Proof.
  unfold analyzeStoryEnginePerspective, storyEngineLens. cbv zeta.
  destruct (primaryIntent _ _ _ _). reflexivity.
Qed.

Lemma process_lenses (event : Event) (eventType now : string) :
  process event eventType now
  = inl (createThreeUniverseAnalysis (engineerLens event) (ceremonyLens event)
           (storyEngineLens event)
           (determineLeadUniverse (engineerLens event) (ceremonyLens event)
              (storyEngineLens event))
           (calculateCoherence (engineerLens event) (ceremonyLens event)
              (storyEngineLens event))
           now).
Proof.
  unfold process. cbv zeta.
  rewrite analyzeEngineerPerspective_lens, analyzeCeremonyPerspective_lens,
    analyzeStoryEnginePerspective_lens.
  reflexivity.
Qed.

(** X8.  [process] never takes its error branch: for every event it returns
    an analysis, stamped with the instant of the call, whose engineer,
    ceremony and story-engine perspectives carry their own universe tag (so
    [getPerspective] answers every universe with a perspective of that
    universe) and whose lead universe and coherence score are the ones the
    synthesizer derives from these three perspectives. *)
Theorem process_never_throws (event : Event) (eventType now : string) :
  exists analysis,
    process event eventType now = inl analysis /\
    tua_timestamp analysis = now /\
    (forall universe,
       up_universe (getPerspective analysis universe) = universe) /\
    tua_leadUniverse analysis
    = determineLeadUniverse (tua_engineer analysis) (tua_ceremony analysis)
        (tua_storyEngine analysis) /\
    tua_coherenceScore analysis
    = calculateCoherence (tua_engineer analysis) (tua_ceremony analysis)
        (tua_storyEngine analysis).
Proof.
  eexists. split; [apply process_lenses|].
  split; [reflexivity|]. split; [|split; reflexivity].
  intros [| |]; reflexivity.
Qed.

(** X9.  The event type does not steer the analysis: for every event type,
    [process] and [processWebhook], which only derives an event type from
    the payload, return analyses with the same lead universe, coherence
    score and timestamp, the same ceremony and story-engine perspectives,
    and engineer perspectives of the same intent, confidence, suggested
    flows and estimated complexity.  (The engineer's context also records
    the event type itself; the contexts are compared on the estimated
    complexity only.) *)
Theorem processWebhook_eventType_blind (event : Event)
    (eventType now : string) :
  match processWebhook event now, process event eventType now with
  | inl a1, inl a2 =>
      tua_leadUniverse a1 = tua_leadUniverse a2 /\
      tua_coherenceScore a1 = tua_coherenceScore a2 /\
      tua_timestamp a1 = tua_timestamp a2 /\
      tua_ceremony a1 = tua_ceremony a2 /\
      tua_storyEngine a1 = tua_storyEngine a2 /\
      up_intent (tua_engineer a1) = up_intent (tua_engineer a2) /\
      up_confidence (tua_engineer a1) = up_confidence (tua_engineer a2) /\
      up_suggestedFlows (tua_engineer a1)
      = up_suggestedFlows (tua_engineer a2) /\
      ctx_estimatedComplexity (up_context (tua_engineer a1))
      = ctx_estimatedComplexity (up_context (tua_engineer a2))
  | _, _ => False
  end.
Proof.
  unfold processWebhook. rewrite !process_lenses.
  repeat split; reflexivity.
Qed.

(** X10.  Ceremony leads whenever the event has more than one contributor
    or its text calls for witnessing, whatever the other two lenses find. *)
Theorem ceremony_leads (event : Event) (eventType now : string) :
  (1 < length (extractContributors event))%nat \/
  needsWitnessing (extractContent event) = true ->
  exists analysis,
    process event eventType now = inl analysis /\
    tua_leadUniverse analysis = CEREMONY.
Proof.
  intros H. eexists. split; [apply process_lenses|].
  cbn [createThreeUniverseAnalysis tua_leadUniverse].
  unfold determineLeadUniverse.
  cbn [ceremonyLens createUniversePerspective up_context ctx_witnessingNeeded
       ctx_isCollaborative].
  destruct (needsWitnessing (extractContent event)); [reflexivity|].
  destruct H as [H|H]; [|discriminate H].
  apply Nat.ltb_lt in H. rewrite H. reflexivity.
Qed.

Lemma ceremony_leads_witness :
  let event :=
    {| ev_sender := Some "alice"; ev_content := None;
       ev_payload :=
         Some {| pl_commits :=
                   Some [ {| commit_message := Some "refactor: tidy parser";
                             commit_author_name := Some "bob" |} ];
                 pl_issue := None; pl_pull_request := None;
                 pl_comment := None |} |} in
  exists analysis,
    process event "github.push" "2024-01-01T00:00:00.000Z" = inl analysis /\
    tua_leadUniverse analysis = CEREMONY.
Proof.
  cbv zeta. apply ceremony_leads. left. vm_compute. lia.
Defined.

(** * Beats built from an analysis *)

Lemma fold_best_In {K} (r : list (K * Q)) :
  forall x,
    In (fold_left (fun a b => if Qltb (snd b) (snd a) then a else b) r x)
       (x :: r).
Proof.
  induction r as [|y r IH]; intros x.
  - left. reflexivity.
  - cbn [fold_left]. destruct (IH (if Qltb (snd y) (snd x) then x else y))
      as [E|HIn].
    + rewrite <- E. destruct (Qltb (snd y) (snd x)).
      * left. reflexivity.
      * right. left. reflexivity.
    + right. right. exact HIn.
Qed.

Lemma reduce_best_In {K} (l : list (K * Q)) (p : K * Q) :
  reduce_best l = Some p -> In p l.
Proof.
  destruct l as [|x r]; [discriminate|].
  cbn [reduce_best]. intros [= <-]. apply fold_best_In.
Qed.

Lemma scoreIntents_keys norm keywords contentLower (p : string * Q) :
  In p (scoreIntents norm keywords contentLower) ->
  In (fst p) (map fst keywords).
Proof.
  unfold scoreIntents. intros H. apply in_flat_map in H.
  destruct H as [[intent terms] [HIn Hp]].
  destruct (Nat.ltb 0 _); [|destruct Hp].
  destruct Hp as [<-|[]]. cbn [fst].
  apply in_map_iff. exists (intent, terms). split; [reflexivity|exact HIn].
Qed.

Lemma primaryIntent_In norm keywords contentLower base fallback confidence :
  In (fst (primaryIntent (scoreIntents norm keywords contentLower) base
             fallback confidence))
     (fallback :: map fst keywords).
Proof.
  unfold primaryIntent.
  destruct (reduce_best _) as [[intent score]|] eqn:E.
  - right. apply reduce_best_In in E.
    apply (scoreIntents_keys _ _ _ _ E).
  - left. reflexivity.
Qed.

Lemma storyIntentOf_known (event : Event) :
  In (storyIntentOf event) storyIntents.
Proof.
  destruct (primaryIntent_In (fun t => t) storyEngineIntentKeywords
              (toLowerCase (extractContent event)) (55 # 100)
              "rising_action" (5 # 10)) as [E|H].
  - unfold storyIntentOf. rewrite <- E. vm_compute. tauto.
  - exact H.
Qed.

Lemma storyEngineLens_intent (event : Event) :
  up_intent (storyEngineLens event) = storyIntentOf event.
Proof. reflexivity. Qed.

Lemma storyEngineLens_act (event : Event) :
  ctx_act (up_context (storyEngineLens event))
  = Some (match assoc_get actMap (storyIntentOf event) with
          | Some a => a
          | None => 2%Z
          end).
Proof. reflexivity. Qed.

(** X11.  A beat built from the analysis [process] returns for an event
    never falls back to the generic function: [createBeatFromWebhook] and
    [createBeatFromAnalysis] both give it the narrative function whose value
    is the Story-Engine intent, and the same act, which is 1, 2 or 3. *)
Theorem beat_from_processed_event (event : Event) (eventType now : string)
    (eventId content : string) (ids : EventIds) (sequence : Z)
    (now1 timestamp now2 : string) :
  match process event eventType now with
  | inl analysis =>
      let webhookBeat :=
        createBeatFromWebhook eventId content analysis sequence now1 in
      let processorBeat :=
        createBeatFromAnalysis event ids analysis sequence timestamp now2 in
      NarrativeFunction_value (sb_narrativeFunction webhookBeat)
      = up_intent (tua_storyEngine analysis) /\
      sb_narrativeFunction webhookBeat <> BEAT /\
      sb_narrativeFunction processorBeat = sb_narrativeFunction webhookBeat /\
      sb_act processorBeat = sb_act webhookBeat /\
      In (sb_act webhookBeat) [1; 2; 3]%Z
  | inr _ => False
  end.
Proof.
  rewrite process_lenses. cbv zeta.
  unfold createBeatFromWebhook, createBeatFromAnalysis. cbv zeta.
  cbn [createStoryBeatWith sb_narrativeFunction sb_act
       createThreeUniverseAnalysis tua_storyEngine].
  unfold actOr2. rewrite storyEngineLens_act, storyEngineLens_intent.
  pose proof (storyIntentOf_known event) as H.
  revert H. generalize (storyIntentOf event). intros intent H.
  cbn in H.
  destruct H as [<-|[<-|[<-|[<-|[<-|[<-|[<-|[<-|[]]]]]]]]];
    vm_compute; repeat split; (discriminate || tauto).
Qed.

(** X12.  When a beat built from a processed event is appended to the
    ledger, the ledger's act afterwards is the beat's own act, except for a
    rising action, a complication or a denouement, which leave the ledger's
    act as it was (even where the beat's own act differs from it). *)
Theorem ledger_act_after_processed_beat (st : UnifiedNarrativeState)
    (event : Event) (eventType now : string) (eventId content : string)
    (sequence : Z) (now1 now2 : string) :
  match process event eventType now with
  | inl analysis =>
      let beat := createBeatFromWebhook eventId content analysis sequence now1 in
      pos_act (uns_position (addBeat st beat now2))
      = if array_includes ["rising_action"; "complication"; "denouement"]
             (up_intent (tua_storyEngine analysis))
        then pos_act (uns_position st)
        else sb_act beat
  | inr _ => False
  end.
Proof.
  rewrite process_lenses. cbv zeta.
  unfold createBeatFromWebhook, addBeat. cbv zeta.
  cbn [createStoryBeatWith sb_narrativeFunction sb_act
       createThreeUniverseAnalysis tua_storyEngine].
  unfold actOr2. rewrite storyEngineLens_act, storyEngineLens_intent.
  pose proof (storyIntentOf_known event) as H.
  revert H. generalize (storyIntentOf event). intros intent H.
  cbn in H.
  destruct H as [<-|[<-|[<-|[<-|[<-|[<-|[<-|[<-|[]]]]]]]]]; reflexivity.
Qed.

Lemma substring_prefix_length (s : string) :
  forall n, String.length (substring 0 n s) = Nat.min n (String.length s).
Proof.
  induction s as [|c s IH]; intros [|n]; cbn; try reflexivity.
  now rewrite IH.
Qed.

Lemma truthy_length (s : string) :
  truthy s = true <-> (0 < String.length s)%nat.
Proof.
  destruct s; cbn; split; intros H; try reflexivity; try lia; discriminate H.
Qed.

Lemma or_else_truthy (o : option string) (d : string) :
  truthy d = true -> truthy (or_else o d) = true.
Proof.
  intros Hd. unfold or_else. destruct o as [s|]; [|exact Hd].
  destruct (truthy s) eqn:E; [exact E|exact Hd].
Qed.

(** X13.  The content of a beat made by [createBeatFromAnalysis] is never
    empty and never longer than 500 characters: it is the first 500
    characters of the event's text or, when the event has no text, of its
    event type (or of the word "event"). *)
Theorem createBeatFromAnalysis_content (event : Event) (ids : EventIds)
    (analysis : ThreeUniverseAnalysis) (sequence : Z) (timestamp now : string) :
  let beat :=
    createBeatFromAnalysis event ids analysis sequence timestamp now in
  (1 <= String.length (sb_content beat) <= 500)%nat /\
  sb_content beat
  = string_prefix 500
      (if truthy (extractContent event) then extractContent event
       else or_else (ids_eventType ids) "event").
Proof.
  cbv zeta. unfold createBeatFromAnalysis. cbv zeta.
  cbn [createStoryBeatWith sb_content]. split; [|reflexivity].
  unfold string_prefix. rewrite substring_prefix_length.
  assert (H : truthy (if truthy (extractContent event)
                      then extractContent event
                      else or_else (ids_eventType ids) "event") = true).
  { destruct (truthy (extractContent event)) eqn:E; [exact E|].
    now apply or_else_truthy. }
  apply truthy_length in H. lia.
Qed.

(** * Helpers of the lens classifiers *)

Lemma array_includes_In (l : list string) (x : string) :
  array_includes l x = true <-> In x l.
Proof.
  unfold array_includes. rewrite existsb_exists. split.
  - intros [y [HIn E]]. apply String.eqb_eq in E. now subst.
  - intros HIn. exists x. split; [exact HIn|apply String.eqb_refl].
Qed.

(** Contributor lists the extraction keeps: no name twice, no empty name. *)
Lemma push_new_keeps (contributors : list string) (name : option string) :
  List.NoDup contributors /\ Forall (fun n => truthy n = true) contributors ->
  List.NoDup (push_new contributors name) /\
  Forall (fun n => truthy n = true) (push_new contributors name).
Proof.
  intros [Hnd Htr]. unfold push_new. destruct name as [n|]; [|now split].
  destruct (truthy n) eqn:Et; [|now split].
  destruct (array_includes contributors n) eqn:Ei; [now split|].
  cbn [andb negb]. split.
  - apply NoDup_app_remove_l with (l := []). cbn [app].
    apply List.NoDup_rev in Hnd.
    rewrite <- (rev_involutive (contributors ++ [n])).
    apply List.NoDup_rev. rewrite rev_app_distr. cbn [rev app].
    constructor; [|exact Hnd].
    intros HIn. apply in_rev in HIn. apply array_includes_In in HIn.
    congruence.
  - apply Forall_app. split; [exact Htr|]. constructor; [exact Et|constructor].
Qed.

(** X14.  The contributor list of an event is never empty, names nobody
    twice and holds no empty name. *)
Theorem extractContributors_invariant (event : Event) :
  (1 <= length (extractContributors event))%nat /\
  List.NoDup (extractContributors event) /\
  Forall (fun name => name <> "") (extractContributors event).
Proof.
  unfold extractContributors.
  set (c0 := match ev_sender event with
             | Some s => if truthy s then [s] else []
             | None => []
             end).
  assert (H0 : List.NoDup c0 /\ Forall (fun n => truthy n = true) c0).
  { unfold c0. destruct (ev_sender event) as [s|].
    - destruct (truthy s) eqn:E.
      + split; [repeat constructor; intros []|repeat constructor; exact E].
      + split; constructor.
    - split; constructor. }
  set (c3 := match ev_payload event with
             | Some payload => _
             | None => c0
             end).
  assert (H3 : List.NoDup c3 /\ Forall (fun n => truthy n = true) c3).
  { unfold c3. destruct (ev_payload event) as [payload|]; [|exact H0].
    assert (H1 : forall commits acc,
               List.NoDup acc /\ Forall (fun n => truthy n = true) acc ->
               let r := fold_left
                          (fun acc commit =>
                             push_new acc (commit_author_name commit))
                          commits acc in
               List.NoDup r /\ Forall (fun n => truthy n = true) r).
    { induction commits as [|commit commits IH]; intros acc Hacc;
        [exact Hacc|].
      cbn [fold_left]. apply IH. now apply push_new_keeps. }
    destruct (pl_commits payload) as [commits|];
      destruct (pl_issue payload) as [issue|];
      destruct (pl_pull_request payload) as [pr|];
      repeat apply push_new_keeps; try apply H1; exact H0. }
  clearbody c3. clear c0 H0.
  destruct (Nat.ltb 0 (length c3)) eqn:E.
  - apply Nat.ltb_lt in E. destruct H3 as [Hnd Htr].
    split; [lia|]. split; [exact Hnd|].
    eapply List.Forall_impl; [|exact Htr].
    intros n Hn ->. discriminate Hn.
  - split; [cbn; lia|]. split.
    + repeat constructor. intros [].
    + repeat constructor. discriminate.
Qed.

(** X15.  The dramatic tension [calculateDramaticTension] computes lies in
    [[0.1, 1]] for every text and every intent that names no member the
    tension table inherits from [Object.prototype], whether or not the
    intent is one of the table's eight. *)
Theorem calculateDramaticTension_bounds (intent content : string) :
  inheritedProperty intent = false ->
  (1 # 10 <= calculateDramaticTension intent content <= 1)%Q.
Proof.
  intros _.
  unfold calculateDramaticTension, baseTension, assoc_get. cbv zeta.
  destruct (includes_any _ ["urgent"; "critical"; "breaking"]);
    destruct (includes_any _ ["minor"; "small"; "trivial"]);
    repeat (destruct (String.eqb _ intent);
            [vm_compute; split; discriminate|]);
    vm_compute; split; discriminate.
Qed.

Lemma calculateDramaticTension_bounds_witness :
  inheritedProperty "crisis" = false /\
  (1 # 10
   <= calculateDramaticTension "crisis" "URGENT: production is down"
   <= 1)%Q.
Proof.
  split; [reflexivity|].
  apply calculateDramaticTension_bounds. reflexivity.
Defined.

Lemma suggestNextBeat_range (intent : string) :
  In (suggestNextBeat intent)
     [ "rising_action"; "complication"; "crisis"; "climax"; "resolution";
       "denouement"; "inciting_incident" ].
Proof.
  unfold suggestNextBeat, nextBeatMap, assoc_get.
  repeat (destruct (String.eqb _ intent); [cbn; tauto|]).
  cbn; tauto.
Qed.

(** X16.  Whatever the current intent (one of the table's eight or any
    other string that names no member the table inherits from
    [Object.prototype]), the suggested next beat is one of seven intents,
    never a turning point; following the suggestions from there on walks the
    cycle rising action, complication, crisis, climax, resolution,
    denouement, inciting incident and is back at the same suggestion after
    seven steps and not before. *)
Theorem suggestNextBeat_cycle (intent : string) :
  inheritedProperty intent = false ->
  suggestNextBeat intent <> "turning_point" /\
  iterate 7 suggestNextBeat (suggestNextBeat intent) = suggestNextBeat intent /\
  forall k, (0 < k < 7)%nat ->
    iterate k suggestNextBeat (suggestNextBeat intent) <> suggestNextBeat intent.
Proof.
  intros _.
  pose proof (suggestNextBeat_range intent) as H.
  revert H. generalize (suggestNextBeat intent). intros next H. cbn in H.
  destruct H as [<-|[<-|[<-|[<-|[<-|[<-|[<-|[]]]]]]]];
    (split; [discriminate|]; split; [reflexivity|];
     intros k Hk;
     destruct k as [|[|[|[|[|[|[|k]]]]]]]; try lia; vm_compute; discriminate).
Qed.

Lemma suggestNextBeat_cycle_witness :
  inheritedProperty "turning_point" = false /\
  suggestNextBeat "turning_point" <> "turning_point" /\
  iterate 7 suggestNextBeat (suggestNextBeat "turning_point")
  = suggestNextBeat "turning_point" /\
  forall k, (0 < k < 7)%nat ->
    iterate k suggestNextBeat (suggestNextBeat "turning_point")
    <> suggestNextBeat "turning_point".
Proof.
  split; [reflexivity|].
  apply suggestNextBeat_cycle. reflexivity.
Defined.

(** On the byte strings of the model, where [toLowerCase] touches the
    letters A-Z only. *)
Lemma toLowerCase_length (s : string) :
  String.length (toLowerCase s) = String.length s.
Proof. induction s as [|c s IH]; cbn; [reflexivity|now rewrite IH]. Qed.

Lemma or_else_empty (s : string) : or_else (Some s) "" = s.
Proof. destruct s; reflexivity. Qed.

Lemma extractContent_contentEvent (content : string) :
  extractContent (contentEvent content) = content.
Proof.
  unfold extractContent, contentEvent. cbn [ev_content ev_payload truthy_opt].
  destruct content; reflexivity.
Qed.

(** X17.  Letter case does not matter to the analysis of ASCII text: two
    events that carry only a text, both texts ASCII and equal once
    lower-cased, get the same analysis from [process], and the same
    technical scope, seven-generation relevance, character impact and theme
    resonance. *)
Theorem process_case_insensitive (content1 content2 eventType now : string) :
  isAsciiText content1 = true ->
  isAsciiText content2 = true ->
  toLowerCase content1 = toLowerCase content2 ->
  process (contentEvent content1) eventType now
  = process (contentEvent content2) eventType now /\
  determineTechnicalScope content1 = determineTechnicalScope content2 /\
  assessLongTermImpact content1 = assessLongTermImpact content2 /\
  assessCharacterImpact content1 = assessCharacterImpact content2 /\
  assessThemeResonance content1 = assessThemeResonance content2.
Proof.
  intros _ _ H.
  split;
    [|unfold determineTechnicalScope, assessLongTermImpact,
        assessCharacterImpact, assessThemeResonance; cbv zeta; rewrite H;
      repeat split].
  assert (Hlen : String.length content1 = String.length content2).
  { rewrite <- (toLowerCase_length content1), <- (toLowerCase_length content2).
    now rewrite H. }
  assert (He : engineerLens (contentEvent content1)
               = engineerLens (contentEvent content2)).
  { unfold engineerLens, engineerContent, estimateComplexity. cbv zeta.
    cbn [contentEvent ev_payload ev_content].
    rewrite !or_else_empty, H, Hlen. reflexivity. }
  assert (Hc : ceremonyLens (contentEvent content1)
               = ceremonyLens (contentEvent content2)).
  { unfold ceremonyLens. cbv zeta.
    rewrite !extractContent_contentEvent.
    unfold assessEnergy, needsWitnessing. cbv zeta. rewrite H.
    reflexivity. }
  assert (Hs : storyEngineLens (contentEvent content1)
               = storyEngineLens (contentEvent content2)).
  { unfold storyEngineLens. cbv zeta.
    rewrite !extractContent_contentEvent.
    unfold calculateDramaticTension. cbv zeta. rewrite H. reflexivity. }
  rewrite !process_lenses, He, Hc, Hs. reflexivity.
Qed.

Lemma process_case_insensitive_witness :
  let content1 := "URGENT: Fix the Login API" in
  let content2 := "urgent: fix the login api" in
  isAsciiText content1 = true /\
  isAsciiText content2 = true /\
  process (contentEvent content1) "user.input" "t"
  = process (contentEvent content2) "user.input" "t" /\
  determineTechnicalScope content1 = determineTechnicalScope content2 /\
  assessLongTermImpact content1 = assessLongTermImpact content2 /\
  assessCharacterImpact content1 = assessCharacterImpact content2 /\
  assessThemeResonance content1 = assessThemeResonance content2.
Proof.
  cbv zeta. split; [reflexivity|]. split; [reflexivity|].
  apply process_case_insensitive; reflexivity.
Defined.

(** * Routing suggestions *)

Lemma pushRouted_spec (routing : RoutingSuggestions) (gap : Gap)
    (target : RoutingTarget) :
  routedTo (pushRouted routing gap) target
  = routedTo routing target ++ gapsRoutedTo target [gap].
Proof.
  unfold pushRouted, gapsRoutedTo. cbn [List.filter].
  destruct (gap_suggestedRoute gap), target; cbn;
    rewrite ?app_nil_r; reflexivity.
Qed.

Lemma gapsRoutedTo_app (target : RoutingTarget) (a b : list Gap) :
  gapsRoutedTo target (a ++ b) = gapsRoutedTo target a ++ gapsRoutedTo target b.
Proof. unfold gapsRoutedTo. apply List.filter_app. Qed.

Lemma fold_pushRouted (gaps : list Gap) :
  forall routing target,
    routedTo (fold_left pushRouted gaps routing) target
    = routedTo routing target ++ gapsRoutedTo target gaps.
Proof.
  induction gaps as [|gap gaps IH]; intros routing target.
  - cbn. now rewrite app_nil_r.
  - cbn [fold_left]. rewrite IH, pushRouted_spec, <- app_assoc.
    rewrite <- gapsRoutedTo_app. reflexivity.
Qed.

Lemma gapsRoutedTo_lengths (gaps : list Gap) :
  (length (gapsRoutedTo STORYTELLER gaps)
   + length (gapsRoutedTo STRUCTURIST gaps)
   + length (gapsRoutedTo ARCHITECT gaps)
   + length (gapsRoutedTo AUTHOR gaps) = length gaps)%nat.
Proof.
  unfold gapsRoutedTo. induction gaps as [|gap gaps IH]; [reflexivity|].
  cbn [List.filter length].
  destruct (gap_suggestedRoute gap); cbn [RoutingTarget_eqb length]; lia.
Qed.

Lemma getRoutingSuggestions_routed (gaps : list Gap) (target : RoutingTarget) :
  routedTo (getRoutingSuggestions gaps) target = gapsRoutedTo target gaps.
Proof.
  unfold getRoutingSuggestions. rewrite fold_pushRouted.
  destruct target; reflexivity.
Qed.

(** X18.  [getRoutingSuggestions] partitions the gaps by routing target:
    the list under each target holds exactly the gaps routed to it, in the
    order of the input, so every gap lands in one list and the four lists
    together are as long as the input. *)
Theorem getRoutingSuggestions_partition (gaps : list Gap) :
  (forall target,
     routedTo (getRoutingSuggestions gaps) target = gapsRoutedTo target gaps) /\
  (forall gap, In gap gaps <->
     In gap (routedTo (getRoutingSuggestions gaps) (gap_suggestedRoute gap))) /\
  (length (rs_storyteller (getRoutingSuggestions gaps))
   + length (rs_structurist (getRoutingSuggestions gaps))
   + length (rs_architect (getRoutingSuggestions gaps))
   + length (rs_author (getRoutingSuggestions gaps)) = length gaps)%nat.
Proof.
  pose proof (getRoutingSuggestions_routed gaps) as H.
  split; [exact H|]. split.
  - intros gap. rewrite H. unfold gapsRoutedTo. rewrite filter_In.
    split; [|tauto]. intros HIn. split; [exact HIn|].
    destruct (gap_suggestedRoute gap); reflexivity.
  - change (rs_storyteller (getRoutingSuggestions gaps))
      with (routedTo (getRoutingSuggestions gaps) STORYTELLER).
    change (rs_structurist (getRoutingSuggestions gaps))
      with (routedTo (getRoutingSuggestions gaps) STRUCTURIST).
    change (rs_architect (getRoutingSuggestions gaps))
      with (routedTo (getRoutingSuggestions gaps) ARCHITECT).
    change (rs_author (getRoutingSuggestions gaps))
      with (routedTo (getRoutingSuggestions gaps) AUTHOR).
    rewrite !H. apply gapsRoutedTo_lengths.
Qed.

Lemma resultGaps_In engine beats characters themes now (g : Gap) :
  In g (resultGaps engine beats characters themes now) ->
  exists key,
    gap_location g = Some key /\ gap_gapType g = gapTypeOf key /\
    gap_suggestedRoute g = routeOf key /\
    In (gap_description g)
       (comp_issues (componentFor key beats characters themes)) /\
    gap_severity g
    = severityFor (componentFor key beats characters themes)
        (gap_description g).
Proof.
  rewrite resultGaps_spec. intros HIn.
  apply (Permutation_in _ (bySeverity_perm _)) in HIn.
  pose proof (emittedGaps_spec beats characters themes engine) as E.
  cbv zeta in E. rewrite E in HIn. cbn [fst] in HIn.
  repeat (apply in_app_or in HIn; destruct HIn as [HIn|HIn]);
    apply gapsFrom_In in HIn;
    destruct HIn as (Hloc & Hty & Hdesc & Hsev & Hroute);
    eexists; (split; [exact Hloc|]);
    (split; [exact Hty|]); (split; [exact Hroute|]);
    (split; [exact Hdesc|exact Hsev]).
Qed.

(** X19.  Every gap [analyze] reports names the component it comes from,
    and that component fixes its type and its route: flow and pacing gaps
    are structural and theme gaps thematic, all three routed to the
    structurist; character gaps go to the storyteller and continuity gaps to
    the author.  No gap is of the sensory type and none is routed to the
    architect, whose list in [getRoutingSuggestions] stays empty. *)
Theorem analyze_gap_routes engine beats characters themes now :
  let gaps := resultGaps engine beats characters themes now in
  (forall g, In g gaps ->
     exists key,
       gap_location g = Some key /\ gap_gapType g = gapTypeOf key /\
       gap_suggestedRoute g = routeOf key) /\
  (forall g, In g gaps ->
     gap_gapType g <> SENSORY /\ gap_suggestedRoute g <> ARCHITECT) /\
  rs_architect (getRoutingSuggestions gaps) = [].
Proof.
  cbv zeta.
  assert (H : forall g,
            In g (resultGaps engine beats characters themes now) ->
            gap_gapType g <> SENSORY /\ gap_suggestedRoute g <> ARCHITECT).
  { intros g HIn. apply resultGaps_In in HIn.
    destruct HIn as (key & _ & Hty & Hroute & _).
    rewrite Hty, Hroute. destruct key; split; discriminate. }
  split; [|split; [exact H|]].
  - intros g HIn. apply resultGaps_In in HIn.
    destruct HIn as (key & Hloc & Hty & Hroute & _).
    exists key. repeat split; assumption.
  - revert H. generalize (resultGaps engine beats characters themes now).
    intros gaps H.
    pose proof (getRoutingSuggestions_routed gaps ARCHITECT) as E.
    cbn [routedTo] in E. rewrite E. clear E. unfold gapsRoutedTo.
    induction gaps as [|g gaps IH]; [reflexivity|].
    cbn [List.filter].
    destruct (H g (or_introl eq_refl)) as [_ Hr].
    destruct (gap_suggestedRoute g); try congruence;
      cbn [RoutingTarget_eqb]; apply IH; intros g' Hg'; apply H; now right.
Qed.

(** * Ranges of the component scores and of the overall score *)

Lemma clamp100_le (x u : Q) :
  (x <= u)%Q -> (0 <= u)%Q -> (clamp100 x <= u)%Q.
Proof.
  intros Hx Hu. unfold clamp100.
  destruct (Math_min_spec 100 x) as [[H1 E1]|[H1 E1]]; rewrite E1;
    destruct (Math_max_spec 0 100) as [[H2 E2]|[H2 E2]];
    destruct (Math_max_spec 0 x) as [[H3 E3]|[H3 E3]];
    rewrite ?E2, ?E3; lra.
Qed.

Lemma count_nonneg (n : nat) : (0 <= inject_Z (Z.of_nat n))%Q.
Proof. change 0%Q with (inject_Z 0). rewrite <- Zle_Qle. lia. Qed.

Lemma flow_range (beats : list StoryBeat) :
  (0 <= comp_score (narrativeFlowComponent beats) <= 85)%Q.
Proof.
  split; [apply (componentFor_bounds narrativeFlowScore beats [] [])|].
  unfold narrativeFlowComponent.
  destruct (Nat.ltb (length beats) 2); [discriminate|].
  destruct (structureLoop _ _ _ _) as [h i1].
  destruct (toneLoop _ _ _ _ _) as [j i2].
  cbn [comp_score createComponentScore].
  pose proof (count_nonneg j).
  pose proof (count_nonneg (countIssues i2 "without proper setup")).
  apply clamp100_le; lra.
Qed.

Lemma character_range (beats : list StoryBeat)
    (characters : list CharacterState) :
  (0 <= comp_score (characterConsistencyComponent beats characters) <= 90)%Q.
Proof.
  split;
    [apply (componentFor_bounds characterConsistencyScore beats characters [])|].
  unfold characterConsistencyComponent.
  destruct (Nat.eqb (length characters) 0); [discriminate|].
  destruct (fold_left _ (appearanceLoop _ _ _) _) as [i1 s1].
  cbn [comp_score createComponentScore].
  set (i2 := fold_left _ characters i1).
  pose proof (count_nonneg (countIssues i2 "disappears")).
  pose proof (count_nonneg (countIssues i2 "minimal arc")).
  apply clamp100_le; lra.
Qed.

Lemma pacing_range (beats : list StoryBeat) :
  (45 <= comp_score (pacingComponent beats) <= 85)%Q.
Proof.
  destruct (Nat.ltb_spec (length beats) 3) as [H|H].
  - unfold pacingComponent. apply Nat.ltb_lt in H. rewrite H.
    split; discriminate.
  - pose proof (pacingComponent_score beats H) as E.
    unfold pacingScoreOf in E. rewrite E.
    assert (Hp : (0 <= climaxPenalty beats <= 20)%Q).
    { unfold climaxPenalty. destruct (lastClimaxIndex beats) as [i|];
        [destruct (Nat.ltb _ _)|]; split; discriminate. }
    pose proof (count_nonneg (longestRun beats)) as Hr.
    set (r := inject_Z (Z.of_nat (longestRun beats))) in *.
    assert (Hm : (0 <= Math_min 20 (r * 5) <= 20)%Q).
    { destruct (Math_min_spec 20 (r * 5)) as [[H1 E1]|[H1 E1]]; rewrite E1;
        split; lra. }
    revert Hm. generalize (Math_min 20 (r * 5)). intros m Hm.
    rewrite clamp100_id by lra. split; lra.
Qed.

Lemma continuity_range (beats : list StoryBeat) :
  (50 <= comp_score (continuityComponent beats) <= 90)%Q.
Proof.
  destruct (Nat.ltb_spec (length beats) 2) as [H|H].
  - unfold continuityComponent. apply Nat.ltb_lt in H. rewrite H.
    split; discriminate.
  - destruct (continuityComponent_shape beats H) as [_ E]. cbv zeta in E.
    unfold continuityScoreOf in E. rewrite E.
    destruct (negb (bool_decide _)); destruct (negb (Nat.eqb _ _));
      destruct (Nat.ltb 0 _ && Nat.leb _ 3)%bool;
      vm_compute; split; discriminate.
Qed.

Lemma component_ranges_for (beats : list StoryBeat)
    (characters : list CharacterState) (themes : list ThematicThread) :
  (0 <= comp_score (narrativeFlowComponent beats) <= 85)%Q /\
  (0 <= comp_score (characterConsistencyComponent beats characters) <= 90)%Q /\
  (45 <= comp_score (pacingComponent beats) <= 85)%Q /\
  (0 <= comp_score (themeSaturationComponent beats themes) <= 100)%Q /\
  (50 <= comp_score (continuityComponent beats) <= 90)%Q.
Proof.
  split; [apply flow_range|]. split; [apply character_range|].
  split; [apply pacing_range|].
  split; [apply (componentFor_bounds themeSaturationScore beats [] themes)|].
  apply continuity_range.
Qed.

Lemma continuity_not_critical (beats : list StoryBeat) :
  comp_status (continuityComponent beats) <> status_critical.
Proof.
  pose proof (continuity_range beats) as [H _].
  assert (E : comp_status (continuityComponent beats)
              = statusOf (comp_score (continuityComponent beats))).
  { unfold continuityComponent.
    destruct (Nat.ltb (length beats) 2); [reflexivity|].
    destruct (negb (bool_decide _)); destruct (negb (Nat.eqb _ _));
      destruct (Nat.ltb 0 _ && Nat.leb _ 3)%bool; reflexivity. }
  rewrite E. revert H. generalize (comp_score (continuityComponent beats)).
  intros x H. unfold statusOf.
  destruct (Qle_bool 70 x); [discriminate|].
  destruct (Qle_bool 50 x) eqn:E50; [discriminate|].
  apply Qle_bool_iff in H. congruence.
Qed.

(** X20.  The component scores have narrower ranges than [[0, 100]]: flow
    never exceeds 85 and character consistency never exceeds 90; pacing
    lies in [[45, 85]] and continuity in [[50, 90]].  So the continuity
    component is never critical. *)
Theorem component_score_ranges (beats : list StoryBeat)
    (characters : list CharacterState) (themes : list ThematicThread) :
  (0 <= comp_score (narrativeFlowComponent beats) <= 85)%Q /\
  (0 <= comp_score (characterConsistencyComponent beats characters) <= 90)%Q /\
  (45 <= comp_score (pacingComponent beats) <= 85)%Q /\
  (0 <= comp_score (themeSaturationComponent beats themes) <= 100)%Q /\
  (50 <= comp_score (continuityComponent beats) <= 90)%Q /\
  comp_status (continuityComponent beats) <> status_critical.
Proof.
  split; [apply flow_range|]. split; [apply character_range|].
  split; [apply pacing_range|].
  split; [apply (componentFor_bounds themeSaturationScore beats [] themes)|].
  split; [apply continuity_range|].
  apply continuity_not_critical.
Qed.

Lemma calculateOverallScore_value (s : CoherenceEngineState)
    (f c p t k : ComponentScore) :
  get_state_score s narrativeFlowScore = Some f ->
  get_state_score s characterConsistencyScore = Some c ->
  get_state_score s pacingScore = Some p ->
  get_state_score s themeSaturationScore = Some t ->
  get_state_score s continuityScore = Some k ->
  exists overall,
    ces_overallScore (calculateOverallScore s) = Some overall /\
    (overall ==
     ((12 # 10) * comp_score f + (12 # 10) * comp_score c + comp_score p
      + comp_score t + (8 # 10) * comp_score k) / (52 # 10))%Q.
Proof.
  intros Hf Hc Hp Ht Hk. unfold calculateOverallScore.
  cbn [ces_overallScore]. rewrite componentsOf_keys. cbn [map].
  rewrite Hf, Hc, Hp, Ht, Hk.
  cbn [flat_map app length Nat.ltb Nat.leb combine componentWeights firstn
       fold_left].
  eexists. split; [reflexivity|].
  unfold Qsum. cbn [fold_left]. field.
Qed.

Lemma reported_overall (s : CoherenceEngineState)
    (engine : NarrativeCoherenceEngine) (now : string) :
  exists cs,
    ces_coherenceScore
      (buildCoherenceResult
         (generateTrinityAssessment (fst (identifyGaps s engine))) now)
    = Some cs /\
    coh_overall cs = match ces_overallScore s with
                     | Some o => if Qeq_bool o 0 then 50%Q else o
                     | None => 50%Q
                     end.
Proof.
  unfold buildCoherenceResult. cbn [ces_coherenceScore].
  eexists. split; [reflexivity|]. cbn [coh_overall].
  unfold generateTrinityAssessment. cbn [ces_overallScore].
  unfold identifyGaps. destruct (emittedGaps s engine) as [gaps engine'].
  reflexivity.
Qed.

Lemma scoredState_overall beats characters themes :
  exists overall,
    ces_overallScore (scoredState beats characters themes) = Some overall /\
    (overall ==
     ((12 # 10) * comp_score (narrativeFlowComponent beats)
      + (12 # 10) * comp_score (characterConsistencyComponent beats characters)
      + comp_score (pacingComponent beats)
      + comp_score (themeSaturationComponent beats themes)
      + (8 # 10) * comp_score (continuityComponent beats)) / (52 # 10))%Q.
Proof.
  unfold scoredState. apply calculateOverallScore_value; reflexivity.
Qed.

(** X21.  The overall score [analyze] reports is the weighted mean of the
    five component scores, with weights 1.2 for flow and character
    consistency, 1 for pacing and theme saturation and 0.8 for continuity.
    It is never 0, so the fallback to 50 for a missing or zero overall score
    is never taken, and it lies between 425/26 (about 16.3) and 2335/26
    (about 89.8): no story reaches 90. *)
Theorem overall_score_formula engine beats characters themes now :
  let overall := overallOf engine beats characters themes now in
  (overall ==
   ((12 # 10) * comp_score (narrativeFlowComponent beats)
    + (12 # 10) * comp_score (characterConsistencyComponent beats characters)
    + comp_score (pacingComponent beats)
    + comp_score (themeSaturationComponent beats themes)
    + (8 # 10) * comp_score (continuityComponent beats)) / (52 # 10))%Q /\
  (425 # 26 <= overall <= 2335 # 26)%Q.
Proof.
  cbv zeta. unfold overallOf. rewrite analyzeState_fst.
  destruct (scoredState_overall beats characters themes) as (o & Ho & Eo).
  revert Ho. generalize (scoredState beats characters themes). intros s Ho.
  destruct (reported_overall s engine now) as (cs & Hcs & Hov).
  rewrite Hcs, Hov, Ho. clear Hcs Hov Ho cs s.
  destruct (component_ranges_for beats characters themes)
    as (Hf & Hc & Hp & Ht & Hk).
  revert Eo Hf Hc Hp Ht Hk.
  generalize (comp_score (narrativeFlowComponent beats)),
    (comp_score (characterConsistencyComponent beats characters)),
    (comp_score (pacingComponent beats)),
    (comp_score (themeSaturationComponent beats themes)),
    (comp_score (continuityComponent beats)).
  intros f c p t k Eo Hf Hc Hp Ht Hk.
  assert (E : (o == ((12 # 10) * f + (12 # 10) * c + p + t + (8 # 10) * k)
                    * (10 # 52))%Q).
  { rewrite Eo. field. }
  assert (Hpos : (425 # 26 <= o <= 2335 # 26)%Q) by (split; lra).
  destruct (Qeq_bool o 0) eqn:Ez.
  - apply Qeq_bool_iff in Ez. lra.
  - split; [rewrite Eo; reflexivity|exact Hpos].
Qed.

(** * Severity of continuity gaps, priorities *)

Lemma continuity_issue_plain (beats : list StoryBeat) (issue : string) :
  In issue (comp_issues (continuityComponent beats)) ->
  mentionsRarelyOrDisappears issue = false.
Proof.
  destruct (Nat.ltb_spec (length beats) 2) as [H|H].
  - unfold continuityComponent. apply Nat.ltb_lt in H. rewrite H.
    cbn [comp_issues createComponentScore]. intros [<-|[]]. reflexivity.
  - destruct (continuityComponent_shape beats H) as [E _]. cbv zeta in E.
    rewrite E. clear E. intros HIn.
    assert (Hm : forall missing,
               mentionsRarelyOrDisappears (missingMessage missing) = false).
    { intros missing. unfold mentionsRarelyOrDisappears.
      apply orb_false_iff. split.
      - apply (includes_without _ _ "y"%char); [cbn; tauto|].
        apply missingMessage_without. cbn.
        intros C. repeat (destruct C as [C|C]; [discriminate C|]). exact C.
      - apply (includes_without _ _ "p"%char); [cbn; tauto|].
        apply missingMessage_without. cbn.
        intros C. repeat (destruct C as [C|C]; [discriminate C|]). exact C. }
    repeat (apply in_app_or in HIn; destruct HIn as [HIn|HIn]);
      match type of HIn with
      | In _ (if ?b then _ else _) => destruct b
      end;
      cbn in HIn; try contradiction;
      destruct HIn as [<-|[]]; try reflexivity; apply Hm.
Qed.

(** X22.  A gap [analyze] routes to the author is a continuity gap and is
    always of minor severity: the continuity component is never critical
    and none of its issues mentions "rarely" or "disappears". *)
Theorem author_gaps_are_minor engine beats characters themes now (g : Gap) :
  In g (resultGaps engine beats characters themes now) ->
  gap_suggestedRoute g = AUTHOR ->
  gap_gapType g = CONTINUITY /\ gap_severity g = MINOR.
Proof.
  intros HIn Hroute. apply resultGaps_In in HIn.
  destruct HIn as (key & Hloc & Hty & Hr & Hdesc & Hsev).
  rewrite Hr in Hroute.
  destruct key; try discriminate Hroute.
  split; [exact Hty|]. rewrite Hsev. cbn [componentFor] in *.
  destruct (severityFor_spec (continuityComponent beats) (gap_description g))
    as [_ H].
  apply (H (continuity_not_critical beats)).
  now apply (continuity_issue_plain beats).
Qed.

Lemma author_gaps_are_minor_witness :
  let g :=
    createGap "gap_5" CONTINUITY MINOR "Too few beats for continuity analysis"
      AUTHOR (Some continuityScore) in
  In g (resultGaps (newEngine false) [] [] [] "2024-01-01T00:00:00.000Z") /\
  gap_gapType g = CONTINUITY /\ gap_severity g = MINOR.
Proof.
  cbv zeta.
  assert (HIn : In (createGap "gap_5" CONTINUITY MINOR
                      "Too few beats for continuity analysis" AUTHOR
                      (Some continuityScore))
                   (resultGaps (newEngine false) [] [] []
                      "2024-01-01T00:00:00.000Z")).
  { vm_compute. do 4 right. left. reflexivity. }
  split; [exact HIn|].
  exact (author_gaps_are_minor _ _ _ _ _ _ HIn eq_refl).
Defined.

Lemma priorities_of_gaps (s : CoherenceEngineState) (gaps : list Gap) :
  ces_gaps s = Some gaps ->
  exists assessment,
    ces_trinityAssessment (generateTrinityAssessment s) = Some assessment /\
    ta_priorities assessment
    = match List.filter (hasSeverity CRITICAL) gaps,
            List.filter (hasSeverity MODERATE) gaps with
      | _ :: _, _ =>
          map gap_description (firstn 3 (List.filter (hasSeverity CRITICAL) gaps))
      | [], _ :: _ =>
          map gap_description (firstn 3 (List.filter (hasSeverity MODERATE) gaps))
      | [], [] => ["Minor polish items only - narrative is coherent"]
      end.
Proof.
  intros Hg. unfold generateTrinityAssessment.
  cbn [ces_trinityAssessment]. eexists. split; [reflexivity|].
  cbn [ta_priorities]. rewrite Hg.
  change (fun g : Gap => GapSeverity_eqb (gap_severity g) CRITICAL)
    with (hasSeverity CRITICAL).
  change (fun g : Gap => GapSeverity_eqb (gap_severity g) MODERATE)
    with (hasSeverity MODERATE).
  destruct (List.filter (hasSeverity CRITICAL) gaps) as [|c1 [|c2 [|c3 cs]]];
    [destruct (List.filter (hasSeverity MODERATE) gaps) as [|m1 [|m2 [|m3 ms]]]| | |];
    reflexivity.
Qed.

Lemma reported_gaps engine beats characters themes :
  ces_gaps (fst (identifyGaps (scoredState beats characters themes) engine))
  = Some (bySeverity
            (fst (emittedGaps (scoredState beats characters themes) engine))).
Proof.
  destruct (identifyGaps_frame (scoredState beats characters themes) engine)
    as (_ & _ & _ & _ & Hg & _).
  rewrite Hg, js_sort_bySeverity. reflexivity.
Qed.

(** X23.  The priorities of the trinity assessment name between one and
    three items.  When the result has critical gaps they are the
    descriptions of the first three critical gaps; otherwise, when it has
    moderate gaps, of the first three moderate gaps; a minor gap is never
    listed, and without critical or moderate gaps the single priority is the
    sentence that only minor polish remains. *)
Theorem trinity_priorities engine beats characters themes now :
  let gaps := resultGaps engine beats characters themes now in
  let critical := List.filter (hasSeverity CRITICAL) gaps in
  let moderate := List.filter (hasSeverity MODERATE) gaps in
  let priorities := reportedPriorities engine beats characters themes now in
  (1 <= length priorities <= 3)%nat /\
  priorities
  = match critical, moderate with
    | _ :: _, _ => map gap_description (firstn 3 critical)
    | [], _ :: _ => map gap_description (firstn 3 moderate)
    | [], [] => ["Minor polish items only - narrative is coherent"]
    end.
Proof.
  cbv zeta. unfold reportedPriorities.
  rewrite analyzeState_fst, resultGaps_spec.
  pose proof (reported_gaps engine beats characters themes) as Hg.
  revert Hg.
  generalize (bySeverity
                (fst (emittedGaps (scoredState beats characters themes) engine))).
  generalize (fst (identifyGaps (scoredState beats characters themes) engine)).
  intros s gaps Hg.
  destruct (priorities_of_gaps s gaps Hg) as (assessment & Ha & Hp).
  destruct (buildCoherenceResult_frame (generateTrinityAssessment s) now)
    as (_ & _ & _ & _ & _ & Ht & _).
  rewrite Ht, Ha, Hp.
  split; [|reflexivity].
  destruct (List.filter (hasSeverity CRITICAL) gaps) as [|c1 [|c2 [|c3 cs]]];
    [destruct (List.filter (hasSeverity MODERATE) gaps) as [|m1 [|m2 [|m3 ms]]]| | |];
    cbn [firstn map length]; rewrite ?firstn_O; cbn [map length]; lia.
Qed.

(** * The structure check of the flow scorer *)

Lemma setup_never (f : NarrativeFunction) :
  array_includes ["setup"; "introduction"; "discovery"]
    (NarrativeFunction_value f) = false.
Proof. destruct f; reflexivity. Qed.

Lemma escalation_enum (beat : StoryBeat) :
  array_includes ["confrontation"; "crisis"; "climax"]
    (NarrativeFunction_value (sb_narrativeFunction beat))
  = escalationBeat beat.
Proof. unfold escalationBeat. destruct (sb_narrativeFunction beat); reflexivity. Qed.

Lemma structureLoop_settled (beats : list StoryBeat) :
  forall i issues,
    structureLoop
      (map (fun b => NarrativeFunction_value (sb_narrativeFunction b)) beats)
      i true issues
    = (true, issues).
Proof.
  induction beats as [|beat beats IH]; intros i issues; [reflexivity|].
  cbn [map structureLoop]. rewrite setup_never.
  destruct (array_includes ["confrontation"; "crisis"; "climax"] _);
    cbn [negb]; apply IH.
Qed.

Lemma structureLoop_first (beats : list StoryBeat) :
  forall i issues,
    structureLoop
      (map (fun b => NarrativeFunction_value (sb_narrativeFunction b)) beats)
      i false issues
    = if existsb escalationBeat beats
      then (true,
            issues ++ ["Beat " +:+ dec (i + firstEscalation beats + 1)
                       +:+ " escalates without proper setup"])
      else (false, issues).
Proof.
  induction beats as [|beat beats IH]; intros i issues; [reflexivity|].
  cbn [map structureLoop existsb firstEscalation].
  rewrite setup_never, escalation_enum.
  destruct (escalationBeat beat); cbn [negb orb].
  - rewrite structureLoop_settled. rewrite Nat.add_0_r. reflexivity.
  - rewrite IH. destruct (existsb escalationBeat beats); [|reflexivity].
    replace (S i + firstEscalation beats + 1)%nat
      with (i + S (firstEscalation beats) + 1)%nat by lia.
    reflexivity.
Qed.

Lemma jarringIssue_plain (issue : string) :
  jarringIssue issue -> includes issue "without proper setup" = false.
Proof.
  intros [k ->]. apply (includes_without _ _ "w"%char); [cbn; tauto|].
  rewrite chars_append. intros HIn. apply in_app_or in HIn.
  destruct HIn as [HIn|HIn].
  - cbn in HIn. repeat (destruct HIn as [C|HIn]; [discriminate C|]).
    exact HIn.
  - pose proof (dec_digits k) as Hd. rewrite List.Forall_forall in Hd.
    specialize (Hd _ HIn). unfold isDigit in Hd. cbn in Hd.
    repeat (destruct Hd as [C|Hd]; [discriminate C|]). exact Hd.
Qed.

Lemma toneLoop_extends (beats : list StoryBeat) :
  forall i prev j issues,
    exists extra,
      snd (toneLoop beats i prev j issues) = issues ++ extra /\
      Forall jarringIssue extra.
Proof.
  induction beats as [|beat beats IH]; intros i prev j issues.
  - exists []. cbn. split; [now rewrite app_nil_r|constructor].
  - cbn [toneLoop].
    assert (H : forall pairs j0 issues0,
               exists extra,
                 snd (fold_left
                        (fun '(j, iss) p =>
                           if jarringMatch (match prev with
                                            | Some p0 => p0
                                            | None => ""
                                            end)
                                (sb_emotionalTone beat) p
                           then (j + 1,
                                 iss ++ ["Jarring emotional transition at Beat "
                                         +:+ dec (i + 1)])
                           else (j, iss))
                        pairs (j0, issues0))
                 = issues0 ++ extra /\ Forall jarringIssue extra).
    { induction pairs as [|p pairs IHp]; intros j0 issues0.
      - exists []. cbn. split; [now rewrite app_nil_r|constructor].
      - cbn [fold_left]. destruct (jarringMatch _ _ p).
        + destruct (IHp (j0 + 1)
                      (issues0 ++ ["Jarring emotional transition at Beat "
                                   +:+ dec (i + 1)])) as (extra & E & HF).
          eexists. rewrite E, <- app_assoc. split; [reflexivity|].
          constructor; [now exists (i + 1)|exact HF].
        + apply IHp. }
    destruct prev as [prev|].
    + destruct (truthy prev && truthy (sb_emotionalTone beat))%bool.
      * destruct (H jarringPairs j issues) as (extra1 & E1 & HF1).
        destruct (fold_left _ jarringPairs (j, issues)) as [j1 iss1].
        cbn [snd] in E1. subst iss1.
        destruct (IH (S i) (Some (sb_emotionalTone beat)) j1
                    (issues ++ extra1)) as (extra2 & E2 & HF2).
        exists (extra1 ++ extra2). rewrite E2, <- app_assoc.
        split; [reflexivity|]. apply Forall_app. now split.
      * apply IH.
    + apply IH.
Qed.

Lemma countIssues_app (a b : list string) (word : string) :
  countIssues (a ++ b) word = (countIssues a word + countIssues b word)%nat.
Proof. unfold countIssues. now rewrite List.filter_app, length_app. Qed.

Lemma countIssues_jarring (extra : list string) :
  Forall jarringIssue extra -> countIssues extra "without proper setup" = 0%nat.
Proof.
  unfold countIssues. induction 1 as [|x l Hx _ IH]; [reflexivity|].
  cbn [List.filter]. rewrite (jarringIssue_plain x Hx). exact IH.
Qed.

Lemma escalation_issue_counts (n : nat) :
  includes ("Beat " +:+ dec n +:+ " escalates without proper setup")
    "without proper setup" = true.
Proof. apply includes_app_r. apply includes_app_r. reflexivity. Qed.

(** X24.  None of the nine narrative functions counts as setup for the
    flow scorer.  So in a story of two or more beats the first crisis or
    climax beat is always flagged as escalating without proper setup, which
    holds the flow score at 70 or below; and a story without any crisis or
    climax beat gets no such issue but is advised to add setup beats before
    major confrontations. *)
Theorem flow_flags_first_escalation (beats : list StoryBeat) :
  (2 <= length beats)%nat ->
  let flow := narrativeFlowComponent beats in
  (existsb escalationBeat beats = true ->
   In ("Beat " +:+ dec (firstEscalation beats + 1)
       +:+ " escalates without proper setup") (comp_issues flow) /\
   (comp_score flow <= 70)%Q) /\
  (existsb escalationBeat beats = false ->
   (forall issue, In issue (comp_issues flow) ->
                  includes issue "without proper setup" = false) /\
   In "Consider adding setup beats before major confrontations"
      (comp_suggestions flow)).
Proof.
  intros Hlen. cbv zeta. unfold narrativeFlowComponent.
  destruct (Nat.ltb_spec (length beats) 2) as [H|_]; [lia|].
  rewrite structureLoop_first. cbn [Nat.add app].
  destruct (existsb escalationBeat beats).
  - split; [|discriminate]. intros _.
    set (msg := "Beat " +:+ dec (firstEscalation beats + 1)
                +:+ " escalates without proper setup").
    destruct (toneLoop_extends beats 0 None 0 [msg]) as (extra & E & HF).
    destruct (toneLoop beats 0 None 0 [msg]) as [j issues2].
    cbn [snd] in E. subst issues2.
    cbn [comp_issues comp_score createComponentScore]. split.
    + left. reflexivity.
    + rewrite countIssues_app, (countIssues_jarring extra HF).
      unfold countIssues at 1. cbn [List.filter]. unfold msg.
      rewrite escalation_issue_counts. cbn [length Nat.add].
      pose proof (count_nonneg j). apply clamp100_le; [|discriminate].
      change (inject_Z (Z.of_nat 1)) with 1%Q. lra.
  - split; [discriminate|]. intros _.
    destruct (toneLoop_extends beats 0 None 0 []) as (extra & E & HF).
    destruct (toneLoop beats 0 None 0 []) as [j issues2].
    cbn [snd app] in E. subst issues2.
    cbn [comp_issues comp_suggestions createComponentScore negb]. split.
    + intros issue HIn. apply jarringIssue_plain.
      rewrite List.Forall_forall in HF. now apply HF.
    + apply in_or_app. right. left. reflexivity.
Qed.

Lemma flow_flags_first_escalation_witness :
  let beats := [plainBeat "b1" 1 RISING_ACTION; plainBeat "b2" 2 CLIMAX] in
  let flow := narrativeFlowComponent beats in
  (existsb escalationBeat beats = true ->
   In ("Beat " +:+ dec (firstEscalation beats + 1)
       +:+ " escalates without proper setup") (comp_issues flow) /\
   (comp_score flow <= 70)%Q) /\
  (existsb escalationBeat beats = false ->
   (forall issue, In issue (comp_issues flow) ->
                  includes issue "without proper setup" = false) /\
   In "Consider adding setup beats before major confrontations"
      (comp_suggestions flow)).
Proof.
  apply (flow_flags_first_escalation
           [plainBeat "b1" 1 RISING_ACTION; plainBeat "b2" 2 CLIMAX]).
  cbn. lia.
Defined.

(** * The in-memory Redis stand-in *)

Lemma MockRedis_get_live (redis : MockRedis) (key : string) (now : Z) :
  (forall expiry, mr_expiry redis !! key = Some expiry ->
                  expiry = 0%Z \/ (now <= expiry)%Z) ->
  MockRedis_get redis key now = (mr_data redis !! key, redis).
Proof.
  intros H. unfold MockRedis_get, MockRedis_checkExpiry.
  destruct (mr_expiry redis !! key) as [expiry|]; [|reflexivity].
  destruct (H expiry eq_refl) as [->|Hle]; [reflexivity|].
  destruct (Z.ltb_spec expiry now); [lia|].
  rewrite andb_false_r. reflexivity.
Qed.

Lemma MockRedis_get_expired (redis : MockRedis) (key : string) (now expiry : Z) :
  mr_expiry redis !! key = Some expiry ->
  expiry <> 0%Z -> (expiry < now)%Z ->
  MockRedis_get redis key now
  = (None, {| mr_data := delete key (mr_data redis);
              mr_lists := delete key (mr_lists redis);
              mr_expiry := delete key (mr_expiry redis) |}).
Proof.
  intros He Hnz Hlt. unfold MockRedis_get, MockRedis_checkExpiry.
  rewrite He.
  destruct (Z.eqb_spec expiry 0); [contradiction|].
  destruct (Z.ltb_spec expiry now); [|lia].
  cbn [negb andb mr_data]. now rewrite lookup_delete_eq.
Qed.

(** X25.  A value stored with [setex] is read back by [get] up to and
    including its deadline, [ttl] seconds after the store; a [get] after the
    deadline answers [null] and removes the key's value, list and deadline.
    (A deadline that falls on instant 0 never expires.) *)
Theorem MockRedis_setex_get (redis : MockRedis) (key value : string)
    (ttl now now' : Z) :
  let redis1 := snd (MockRedis_setex redis key ttl value now) in
  let deadline := (now + ttl * 1000)%Z in
  ((now' <= deadline)%Z ->
   MockRedis_get redis1 key now' = (Some value, redis1)) /\
  ((deadline < now')%Z -> deadline <> 0%Z ->
   fst (MockRedis_get redis1 key now') = None /\
   let redis2 := snd (MockRedis_get redis1 key now') in
   mr_data redis2 !! key = None /\ mr_lists redis2 !! key = None /\
   mr_expiry redis2 !! key = None).
Proof.
  cbv zeta. cbn [MockRedis_setex snd]. split.
  - intros Hle. rewrite MockRedis_get_live.
    + cbn [mr_data]. now rewrite lookup_insert_eq.
    + cbn [mr_expiry]. intros expiry. rewrite lookup_insert_eq.
      intros [= <-]. now right.
  - intros Hlt Hnz.
    rewrite (MockRedis_get_expired _ key now' (now + ttl * 1000)%Z);
      [|cbn [mr_expiry]; now rewrite lookup_insert_eq|exact Hnz|exact Hlt].
    cbn [fst snd mr_data mr_lists mr_expiry].
    rewrite !lookup_delete_eq. repeat split.
Qed.

(** X26.  Neither [set] nor [del] clears a deadline: when a key was stored
    with [setex], then deleted or not, and then stored again with [set], the
    new value is still lost to the first [get] after the old deadline. *)
Theorem MockRedis_set_keeps_deadline (redis : MockRedis)
    (key value value' : string) (ttl now now' : Z) (deleteFirst : bool) :
  let deadline := (now + ttl * 1000)%Z in
  let redis1 := snd (MockRedis_setex redis key ttl value now) in
  let redis2 :=
    if deleteFirst then snd (MockRedis_del redis1 [key]) else redis1 in
  let redis3 := snd (MockRedis_set redis2 key value') in
  deadline <> 0%Z ->
  ((now' <= deadline)%Z -> fst (MockRedis_get redis3 key now') = Some value') /\
  ((deadline < now')%Z -> fst (MockRedis_get redis3 key now') = None).
Proof.
  cbv zeta. intros Hnz.
  assert (He : mr_expiry
                 (snd (MockRedis_set
                         (if deleteFirst
                          then snd (MockRedis_del
                                      (snd (MockRedis_setex redis key ttl value now))
                                      [key])
                          else snd (MockRedis_setex redis key ttl value now))
                         key value')) !! key
               = Some (now + ttl * 1000)%Z).
  { destruct deleteFirst; cbn; now rewrite lookup_insert_eq. }
  assert (Hd : mr_data
                 (snd (MockRedis_set
                         (if deleteFirst
                          then snd (MockRedis_del
                                      (snd (MockRedis_setex redis key ttl value now))
                                      [key])
                          else snd (MockRedis_setex redis key ttl value now))
                         key value')) !! key
               = Some value').
  { destruct deleteFirst; cbn; now rewrite lookup_insert_eq. }
  revert He Hd. generalize (snd (MockRedis_set
                         (if deleteFirst
                          then snd (MockRedis_del
                                      (snd (MockRedis_setex redis key ttl value now))
                                      [key])
                          else snd (MockRedis_setex redis key ttl value now))
                         key value')).
  intros r He Hd. split.
  - intros Hle. rewrite MockRedis_get_live; [exact Hd|].
    intros expiry. rewrite He. intros [= <-]. now right.
  - intros Hlt.
    now rewrite (MockRedis_get_expired r key now' _ He Hnz Hlt).
Qed.

Lemma MockRedis_set_keeps_deadline_witness :
  let redis1 := snd (MockRedis_setex MockRedis_new "k" 60 "old" 1000) in
  let redis3 := snd (MockRedis_set redis1 "k" "new") in
  ((61001 <= 61000)%Z -> fst (MockRedis_get redis3 "k" 61001) = Some "new") /\
  ((61000 < 61001)%Z -> fst (MockRedis_get redis3 "k" 61001) = None).
Proof.
  apply (MockRedis_set_keeps_deadline MockRedis_new "k" "old" "new" 60 1000
           61001 false).
  discriminate.
Defined.

Lemma MockRedis_range_all (items : list string) :
  MockRedis_range items 0 (-1) = items.
Proof.
  unfold MockRedis_range.
  change (-1 =? -1)%Z with true. change (0 <? 0)%Z with false. cbv iota.
  unfold js_slice, slice_index. change (0 <? 0)%Z with false. cbv iota.
  destruct (Z.ltb_spec (Z.of_nat (length items)) 0); [lia|].
  replace (Z.to_nat (Z.min 0 (Z.of_nat (length items)))) with 0%nat by lia.
  replace (Z.to_nat (Z.min (Z.of_nat (length items)) (Z.of_nat (length items))))
    with (length items) by lia.
  cbn [skipn]. rewrite Nat.sub_0_r. apply List.firstn_all.
Qed.

Lemma MockRedis_range_last (items : list string) (count : Z) :
  (0 < count)%Z ->
  MockRedis_range items (- count) (-1)
  = skipn (length items - Z.to_nat count) items.
Proof.
  intros Hc. unfold MockRedis_range.
  change (-1 =? -1)%Z with true. cbv iota.
  unfold js_slice, slice_index.
  destruct (Z.ltb_spec (- count) 0); [|lia].
  destruct (Z.ltb_spec (Z.max 0 (Z.of_nat (length items) + - count)) 0); [lia|].
  destruct (Z.ltb_spec (Z.of_nat (length items)) 0); [lia|].
  replace (Z.to_nat (Z.min (Z.max 0 (Z.of_nat (length items) + - count))
                       (Z.of_nat (length items))))
    with (length items - Z.to_nat count)%nat by lia.
  replace (Z.to_nat (Z.min (Z.of_nat (length items)) (Z.of_nat (length items))))
    with (length items) by lia.
  rewrite <- (List.length_skipn (length items - Z.to_nat count) items) at 1.
  apply List.firstn_all.
Qed.

Lemma MockRedis_list_rpush (redis : MockRedis) (key value key' : string) :
  MockRedis_list (snd (MockRedis_rpush redis key value)) key'
  = if bool_decide (key = key')
    then MockRedis_list redis key ++ [value]
    else MockRedis_list redis key'.
Proof.
  unfold MockRedis_rpush, MockRedis_list. cbn [snd mr_lists].
  destruct (bool_decide_reflect (key = key')) as [<-|Hne].
  - now rewrite lookup_insert_eq.
  - now rewrite lookup_insert_ne.
Qed.

(** X27.  [rpush] appends to the list under its key and answers the new
    length; [lrange(key, 0, -1)] then reads the old elements followed by the
    new one, and [lrange(key, -count, -1)] with a positive [count] reads the
    last [count] elements (all of them when the list is shorter).  Lists
    under other keys read as before. *)
Theorem MockRedis_rpush_lrange (redis : MockRedis) (key value : string) :
  let items := MockRedis_lrange redis key 0 (-1) in
  let redis1 := snd (MockRedis_rpush redis key value) in
  fst (MockRedis_rpush redis key value) = (length items + 1)%nat /\
  MockRedis_lrange redis1 key 0 (-1) = items ++ [value] /\
  (forall count, (0 < count)%Z ->
     MockRedis_lrange redis1 key (- count) (-1)
     = skipn (length items + 1 - Z.to_nat count) (items ++ [value])) /\
  (forall key' start end_, key' <> key ->
     MockRedis_lrange redis1 key' start end_
     = MockRedis_lrange redis key' start end_).
Proof.
  cbv zeta. unfold MockRedis_lrange. rewrite MockRedis_range_all.
  split; [|split; [|split]].
  - unfold MockRedis_rpush. cbn [fst]. rewrite length_app. reflexivity.
  - rewrite MockRedis_list_rpush, bool_decide_eq_true_2 by reflexivity.
    apply MockRedis_range_all.
  - intros count Hc.
    rewrite MockRedis_list_rpush, bool_decide_eq_true_2 by reflexivity.
    rewrite MockRedis_range_last by exact Hc.
    rewrite length_app. reflexivity.
  - intros key' start end_ Hne.
    rewrite MockRedis_list_rpush, bool_decide_eq_false_2 by congruence.
    reflexivity.
Qed.

(** X28.  The pair [rpush(key, value)], [ltrim(key, -cap, -1)] that keeps a
    routing history keeps a sliding window: for a positive [cap] the list
    afterwards consists of the last [cap] elements of the old list followed
    by the new value (all of them while there are fewer), so it never holds
    more than [cap] elements and always ends with the new value. *)
Theorem MockRedis_rpush_ltrim_window (redis : MockRedis)
    (key value : string) (cap : Z) :
  (0 < cap)%Z ->
  let items := MockRedis_lrange redis key 0 (-1) in
  let redis1 := snd (MockRedis_rpush redis key value) in
  let redis2 := snd (MockRedis_ltrim redis1 key (- cap) (-1)) in
  let window := MockRedis_lrange redis2 key 0 (-1) in
  window = skipn (length items + 1 - Z.to_nat cap) (items ++ [value]) /\
  length window = Nat.min (length items + 1) (Z.to_nat cap) /\
  exists earlier, window = earlier ++ [value].
Proof.
  intros Hc. cbv zeta.
  assert (Hi : MockRedis_lrange redis key 0 (-1) = MockRedis_list redis key).
  { unfold MockRedis_lrange. apply MockRedis_range_all. }
  rewrite Hi. clear Hi.
  assert (E : MockRedis_lrange
                (snd (MockRedis_ltrim (snd (MockRedis_rpush redis key value))
                        key (- cap) (-1))) key 0 (-1)
              = skipn (length (MockRedis_list redis key) + 1 - Z.to_nat cap)
                  (MockRedis_list redis key ++ [value])).
  { unfold MockRedis_lrange. rewrite MockRedis_range_all.
    unfold MockRedis_ltrim, MockRedis_rpush. cbn [snd mr_lists].
    rewrite lookup_insert_eq. unfold MockRedis_list. cbn [snd mr_lists].
    rewrite lookup_insert_eq.
    rewrite MockRedis_range_last by exact Hc.
    rewrite length_app. reflexivity. }
  rewrite E. clear E.
  generalize (MockRedis_list redis key). intros items.
  split; [reflexivity|]. split.
  - rewrite List.length_skipn, length_app. cbn [length]. lia.
  - rewrite List.skipn_app.
    replace (length items + 1 - Z.to_nat cap - length items)%nat
      with 0%nat by lia.
    eexists. reflexivity.
Qed.

Lemma MockRedis_rpush_ltrim_window_witness :
  let redis :=
    snd (MockRedis_rpush (snd (MockRedis_rpush MockRedis_new "k" "a")) "k" "b") in
  let redis2 :=
    snd (MockRedis_ltrim (snd (MockRedis_rpush redis "k" "c")) "k" (- 2) (-1)) in
  let items := MockRedis_lrange redis "k" 0 (-1) in
  let window := MockRedis_lrange redis2 "k" 0 (-1) in
  window = skipn (length items + 1 - Z.to_nat 2) (items ++ ["c"]) /\
  length window = Nat.min (length items + 1) (Z.to_nat 2) /\
  exists earlier, window = earlier ++ ["c"].
Proof.
  cbv zeta.
  apply (MockRedis_rpush_ltrim_window
           (snd (MockRedis_rpush (snd (MockRedis_rpush MockRedis_new "k" "a"))
                   "k" "b")) "k" "c" 2).
  reflexivity.
Defined.

(** * Key patterns and session deletion *)

Ltac render_keys :=
  cbv [RedisKey_render RedisKeys_state RedisKeys_currentState RedisKeys_beats
       RedisKeys_beat RedisKeys_eventAnalysis RedisKeys_routingHistory
       RedisKeys_episode String.append].

(** X29.  Two uses of the key patterns give the same Redis key only when
    they are the same use, with one exception: the state key of a session
    whose id is "current" is the key of the current-session pointer. *)
Theorem RedisKeys_collisions (k1 k2 : RedisKey) :
  RedisKey_render k1 = RedisKey_render k2 ->
  k1 = k2 \/
  (k1 = KeyState "current" /\ k2 = KeyCurrentState) \/
  (k1 = KeyCurrentState /\ k2 = KeyState "current").
Proof.
  destruct k1, k2; render_keys; intros H;
    try discriminate H;
    try (injection H as ->; tauto);
    try (left; reflexivity).
Qed.

Lemma RedisKeys_collisions_witness :
  KeyState "current" = KeyCurrentState \/
  (KeyState "current" = KeyState "current" /\
   KeyCurrentState = KeyCurrentState) \/
  (KeyState "current" = KeyCurrentState /\
   KeyCurrentState = KeyState "current").
Proof.
  apply (RedisKeys_collisions (KeyState "current") KeyCurrentState).
  reflexivity.
Defined.

Lemma MockRedis_del_without (keys : list string) :
  forall count redis,
    snd (fold_left MockRedis_del_one keys (count, redis))
    = MockRedis_without redis keys.
Proof.
  unfold MockRedis_without.
  induction keys as [|key keys IH]; intros count redis; [reflexivity|].
  cbn [fold_left MockRedis_del_one]. apply IH.
Qed.

Lemma MockRedis_without_app (redis : MockRedis) (a b : list string) :
  MockRedis_without redis (a ++ b)
  = MockRedis_without (MockRedis_without redis a) b.
Proof. unfold MockRedis_without. apply fold_left_app. Qed.

Lemma MockRedis_without_spec (keys : list string) :
  forall redis k,
    mr_expiry (MockRedis_without redis keys) = mr_expiry redis /\
    (In k keys ->
     mr_data (MockRedis_without redis keys) !! k = None /\
     mr_lists (MockRedis_without redis keys) !! k = None) /\
    (~ In k keys ->
     mr_data (MockRedis_without redis keys) !! k = mr_data redis !! k /\
     mr_lists (MockRedis_without redis keys) !! k = mr_lists redis !! k).
Proof.
  unfold MockRedis_without.
  induction keys as [|key keys IH]; intros redis k.
  - cbn. repeat split; tauto.
  - cbn [fold_left].
    set (redis1 := {| mr_data := delete key (mr_data redis);
                      mr_lists := delete key (mr_lists redis);
                      mr_expiry := mr_expiry redis |}).
    destruct (IH redis1 k) as (He & Hin & Hout).
    split; [exact He|]. split.
    + intros [->|HIn]; [|now apply Hin].
      destruct (in_dec String.string_dec k keys) as [HIn|HIn];
        [now apply Hin|].
      destruct (Hout HIn) as [Hd Hl]. rewrite Hd, Hl. unfold redis1.
      cbn [mr_data mr_lists]. now rewrite !lookup_delete_eq.
    + intros Hn. cbn [In] in Hn.
      destruct (Hout ltac:(tauto)) as [Hd Hl]. rewrite Hd, Hl.
      unfold redis1. cbn [mr_data mr_lists].
      rewrite !lookup_delete_ne by (intros ->; tauto). now split.
Qed.

Lemma deleteSession_without (redis : MockRedis) (sessionId : string) :
  snd (deleteSession redis sessionId)
  = MockRedis_without redis
      (map RedisKeys_beat (MockRedis_lrange redis (RedisKeys_beats sessionId)
                             0 (-1))
       ++ [ RedisKeys_state sessionId; RedisKeys_beats sessionId;
            RedisKeys_routingHistory sessionId ]).
Proof.
  unfold deleteSession. cbv zeta. cbn [snd].
  unfold MockRedis_del. rewrite MockRedis_del_without, MockRedis_without_app.
  f_equal.
  generalize (MockRedis_lrange redis (RedisKeys_beats sessionId) 0 (-1)).
  intros beatIds. revert redis.
  induction beatIds as [|beatId beatIds IH]; intros redis; [reflexivity|].
  cbn [fold_left map]. rewrite IH. reflexivity.
Qed.

Lemma currentState_not_deleted (sessionId : string) (beatIds : list string) :
  sessionId <> "current" ->
  ~ In RedisKeys_currentState
       (map RedisKeys_beat beatIds
        ++ [ RedisKeys_state sessionId; RedisKeys_beats sessionId;
             RedisKeys_routingHistory sessionId ]).
Proof.
  intros Hne HIn. apply in_app_or in HIn. destruct HIn as [HIn|HIn].
  - apply in_map_iff in HIn. destruct HIn as [beatId [E _]].
    revert E. render_keys. discriminate.
  - cbn [In] in HIn. destruct HIn as [E|[E|[E|[]]]]; revert E; render_keys;
      try discriminate.
    intros E. injection E as E. contradiction.
Qed.

(** X30.  [deleteSession] answers true and removes the session's state,
    its beat list, its routing history and every beat the beat list names;
    deadlines are left as they were.  It does not touch the current-session
    pointer: unless the session's id is "current", [getCurrentSessionId]
    answers afterwards what it answered before, so a pointer set with
    [setCurrentSession] keeps naming the deleted session. *)
Theorem deleteSession_effect (redis : MockRedis) (sessionId : string) :
  let beatIds := MockRedis_lrange redis (RedisKeys_beats sessionId) 0 (-1) in
  let redis' := snd (deleteSession redis sessionId) in
  fst (deleteSession redis sessionId) = true /\
  mr_data redis' !! RedisKeys_state sessionId = None /\
  MockRedis_lrange redis' (RedisKeys_beats sessionId) 0 (-1) = [] /\
  MockRedis_lrange redis' (RedisKeys_routingHistory sessionId) 0 (-1) = [] /\
  (forall beatId, In beatId beatIds ->
     mr_data redis' !! RedisKeys_beat beatId = None) /\
  mr_expiry redis' = mr_expiry redis /\
  (sessionId <> "current" ->
   (forall now,
      fst (getCurrentSessionId redis' now) = fst (getCurrentSessionId redis now)) /\
   (mr_expiry redis !! RedisKeys_currentState = None ->
    forall now,
      fst (getCurrentSessionId
             (snd (deleteSession (setCurrentSession redis sessionId) sessionId))
             now)
      = Some sessionId)).
Proof.
  cbv zeta. rewrite deleteSession_without.
  set (keys := map RedisKeys_beat _ ++ _).
  pose proof (MockRedis_without_spec keys redis) as H.
  assert (Hlist : forall k, In k keys ->
            MockRedis_lrange (MockRedis_without redis keys) k 0 (-1) = []).
  { intros k Hk. unfold MockRedis_lrange, MockRedis_list.
    destruct (H k) as (_ & Hin & _). destruct (Hin Hk) as [_ Hl].
    rewrite Hl. reflexivity. }
  split; [reflexivity|]. split.
  { destruct (H (RedisKeys_state sessionId)) as (_ & Hin & _).
    apply Hin. unfold keys. apply in_or_app. right. left. reflexivity. }
  split.
  { apply Hlist. unfold keys. apply in_or_app. right. right. left. reflexivity. }
  split.
  { apply Hlist. unfold keys. apply in_or_app. right. right. right. left.
    reflexivity. }
  split.
  { intros beatId HIn. destruct (H (RedisKeys_beat beatId)) as (_ & Hin & _).
    apply Hin. unfold keys. apply in_or_app. left. now apply in_map. }
  split; [apply (H "")|].
  intros Hne. split.
  - intros now. destruct (H RedisKeys_currentState) as (He & _ & Hout).
    destruct (Hout (currentState_not_deleted sessionId _ Hne)) as [Hd _].
    unfold getCurrentSessionId, MockRedis_get, MockRedis_checkExpiry.
    rewrite He.
    destruct (mr_expiry redis !! RedisKeys_currentState) as [expiry|];
      [|cbn [fst]; exact Hd].
    destruct (negb (expiry =? 0)%Z && (expiry <? now)%Z)%bool;
      cbn [fst mr_data]; [now rewrite !lookup_delete_eq|exact Hd].
  - intros Hexp now. rewrite deleteSession_without.
    set (redis1 := setCurrentSession redis sessionId).
    set (keys1 := map RedisKeys_beat _ ++ _).
    destruct (MockRedis_without_spec keys1 redis1 RedisKeys_currentState)
      as (He & _ & Hout).
    destruct (Hout (currentState_not_deleted sessionId _ Hne)) as [Hd _].
    unfold getCurrentSessionId.
    rewrite MockRedis_get_live.
    + cbn [fst]. rewrite Hd. unfold redis1, setCurrentSession.
      cbn [MockRedis_set snd mr_data]. now rewrite lookup_insert_eq.
    + intros expiry. rewrite He. unfold redis1, setCurrentSession.
      cbn [MockRedis_set snd mr_expiry]. rewrite Hexp. discriminate.
Qed.
